(** * audio-buffer-utils: a shallow embedding of [index.js]

    The module is a set of operations over an [AudioBuffer]: a channel
    count, a length, a sample rate and one typed array of floats per
    channel.
    Some operations mutate the arrays of the buffer they are given and
    return that same buffer ([fill], [zero], [invert], [reverse],
    [rotate], [shift]); the
    others allocate fresh arrays and build a new buffer ([clone],
    [slice], [map], [concat], [resize]).  To tell the two apart the
    embedding keeps an explicit store of typed arrays, and a buffer
    holds references into it. *)

From Stdlib Require Import ZArith Lia Floats.SpecFloat.
From stdpp Require Import base tactics option list numbers.

Local Open Scope Z_scope.

(** ** Samples and JavaScript values *)

(** An element read from a typed array is a Number, an IEEE 754 binary64
    value: a sample is a [spec_float], a finite one being kept in the form
    that binary64 gives it (a significand of 53 bits).  The operations
    below move samples, compare them with [!==], negate them and test them
    for truthiness, none of which rounds; the one place where a sample is
    rounded is [concat], which copies into a Float32Array. *)
Definition sample : Type := spec_float.

Definition NaN : sample := S754_nan.
Definition pos_zero : sample := S754_zero false.
Definition neg_zero : sample := S754_zero true.

(** The Number of a whole number, for the concrete scenarios.  The whole
    numbers used there are small, and a Float32Array holds them as they
    are. *)
Definition f32 (z : Z) : sample := binary_normalize 53 1024 z 0 false.

(** [0.1], the Number [1 / 10]: a sample wider than 32 bits. *)
Definition tenth : sample := SFdiv 53 1024 (f32 1) (f32 10).

(** What a Float32Array holds when a Number is stored in it, as
    [Math.fround] gives it: the binary32 value nearest to the number, ties
    to even, infinite when the number is beyond the range of binary32; as
    a Number again, that is in the form of binary64.  [NaN], the zeros
    and the infinities are stored as they are. *)
Definition fround (x : sample) : sample :=
  match x with
  | S754_finite s m e =>
      match binary_round 24 128 s m e with
      | S754_finite s' m' e' => binary_round 53 1024 s' m' e'
      | y => y
      end
  | _ => x
  end.

#[global] Instance sample_eq_dec : EqDecision sample.
Proof. unfold sample. solve_decision. Defined.

(** What an indexed read of a typed array yields: a number, or
    [undefined] when the index is out of range. *)
Inductive value : Type :=
| Undefined
| Number (x : sample).

(** [ToBoolean]: the falsy numbers are [NaN], [+0] and [-0]. *)
Definition truthy (v : value) : bool :=
  match v with
  | Undefined => false
  | Number S754_nan => false
  | Number (S754_zero _) => false
  | Number _ => true
  end.

(** [v || 0] *)
Definition or_zero (v : value) : value :=
  if truthy v then v else Number pos_zero.

(** [ToNumber], applied when a value is stored in a typed array.  A
    number that is stored (a constant given to [fill], the result of a
    producer) is taken to be a value of the element type of the array, so
    that storing it is exact. *)
Definition to_number (v : value) : sample :=
  match v with
  | Undefined => NaN
  | Number x => x
  end.

(** [x === y] on numbers: [NaN] differs from everything, the two zeros
    are equal. *)
Definition number_eq (x y : sample) : bool := SFeqb x y.

(** [v !== w] *)
Definition strict_neq (v w : value) : bool :=
  match v, w with
  | Undefined, Undefined => false
  | Number x, Number y => negb (number_eq x y)
  | _, _ => true
  end.

Definition is_nan (x : sample) : bool :=
  match x with S754_nan => true | _ => false end.

(** ** Typed arrays *)

Abbreviation Float32Array := (list sample) (only parsing).

(** [new Float32Array(n)] *)
Definition Float32Array_new (n : nat) : Float32Array := replicate n pos_zero.

(** [a[i]] for an integer [i] *)
Definition ta_get (a : Float32Array) (i : Z) : value :=
  if i <? 0 then Undefined
  else match a !! Z.to_nat i with
       | Some x => Number x
       | None => Undefined
       end.

(** [a[i] = v] for an integer [i]: a write outside [0, length) is
    dropped, the length of a typed array never changes. *)
Definition ta_put (a : Float32Array) (i : Z) (v : value) : Float32Array :=
  if i <? 0 then a else <[Z.to_nat i := to_number v]> a.

(** The relative index of [slice]: negative counts from the end, and the
    result is clamped to [0, len]. *)
Definition relative_index (len i : Z) : Z :=
  if i <? 0 then Z.max (len + i) 0 else Z.min i len.

(** [a.slice(start, end)]; [None] is an omitted ([undefined]) argument. *)
Definition ta_slice (a : Float32Array) (start end_ : option Z) : Float32Array :=
  let len := Z.of_nat (length a) in
  let k := relative_index len (default 0 start) in
  let final := match end_ with
               | None => len
               | Some e => relative_index len e
               end in
  let count := Z.max (final - k) 0 in
  take (Z.to_nat count) (drop (Z.to_nat k) a).

(** [target.set(source, offset)] on a Float32Array [target]: a
    RangeError when the source does not fit; otherwise each element of the
    source is stored in the target, hence converted to binary32. *)
Definition ta_set (target source : Float32Array) (offset : nat)
  : option Float32Array :=
  if (length target <? length source + offset)%nat then None
  else Some (take offset target ++ (fround <$> source)
             ++ drop (offset + length source) target).

(** The image of an array under a function of the element and its
    index. *)
Definition mapped (f : value -> nat -> value) (a : Float32Array)
  : Float32Array :=
  imap (fun i x => to_number (f (Number x) i)) a.

(** ** The store, and computations over it *)

(** A reference to a typed array, and the store they live in.  A new
    array is placed at the end of the store, so the references of the
    arrays that exist already never change. *)
Abbreviation loc := nat (only parsing).
Abbreviation heap := (list (list sample)) (only parsing).

(** How a call ends: it returns a value and leaves a store, it throws
    (a TypeError on [undefined], a RangeError of [set]), or the bound on
    the number of loop iterations was reached before it returned. *)
Inductive outcome (A : Type) : Type :=
| Returned (a : A) (h : heap)
| Thrown
| Unfinished.
Arguments Returned {A} a h.
Arguments Thrown {A}.
Arguments Unfinished {A}.

Definition M (A : Type) : Type := heap -> outcome A.

Definition ret {A} (a : A) : M A := fun h => Returned a h.

Definition bind {A B} (m : M A) (k : A -> M B) : M B :=
  fun h => match m h with
           | Returned a h' => k a h'
           | Thrown => Thrown
           | Unfinished => Unfinished
           end.

Definition throw {A} : M A := fun _ => Thrown.

Notation "'let*' x ':=' m 'in' k" := (bind m (fun x => k))
  (at level 10, x binder, m at level 100, k at level 200).

Definition alloc (a : Float32Array) : M loc :=
  fun h => Returned (length h) (h ++ [a]).

Definition read (l : loc) : M Float32Array :=
  fun h => match h !! l with
           | Some a => Returned a h
           | None => Thrown
           end.

Definition write (l : loc) (a : Float32Array) : M unit :=
  fun h => match h !! l with
           | Some _ => Returned tt (<[l := a]> h)
           | None => Thrown
           end.

(** [for (x of xs) s = body(x, s)] *)
Fixpoint for_each {A S} (body : A -> S -> M S) (xs : list A) (s : S) : M S :=
  match xs with
  | [] => ret s
  | x :: xs' => let* s' := body x s in for_each body xs' s'
  end.

(** ** Buffers *)

Module AudioBuffer.

Record t : Type := Build {
  numberOfChannels : nat;
  length : nat;
  sampleRate : Z;
  data : list loc
}.

End AudioBuffer.

Import AudioBuffer (numberOfChannels, sampleRate).

(** [buffer.getChannelData(channel)]: the live array of the channel. *)
Definition getChannelData (buffer : AudioBuffer.t) (channel : nat) : M loc :=
  match AudioBuffer.data buffer !! channel with
  | Some l => ret l
  | None => throw
  end.

(** Modelled from the spec: the constructor of the audio-buffer package
    from per-channel arrays, [new AudioBuffer(channels, data, sampleRate)]
    (section 6: a new buffer whose channel [i] holds exactly [data[i]]).
    Its length is that of the arrays. *)
Definition AudioBuffer_of_data (channels : nat) (data : list loc)
    (rate : Z) : M AudioBuffer.t :=
  match data with
  | [] => ret (AudioBuffer.Build channels 0 rate data)
  | l :: _ => let* a := read l in
              ret (AudioBuffer.Build channels (length a) rate data)
  end.

(** Modelled from the spec: the copy constructor of the audio-buffer
    package, [new AudioBuffer(inBuffer)] (section 6: a deep clone). *)
Definition AudioBuffer_copy (inBuffer : AudioBuffer.t) : M AudioBuffer.t :=
  let* data := for_each (fun channel data =>
                 let* ref := getChannelData inBuffer channel in
                 let* a := read ref in
                 let* ref' := alloc a in
                 ret (data ++ [ref']))
               (seq 0 (numberOfChannels inBuffer)) [] in
  AudioBuffer_of_data (numberOfChannels inBuffer) data (sampleRate inBuffer).

(** The channel count and the sample rate that the audio-buffer package
    gives a buffer constructed without them. *)
Record defaults : Type := Defaults {
  default_channels : nat;
  default_rate : Z
}.

(** The prototype values of the audio-buffer package: stereo, 44100 Hz. *)
Definition audio_buffer_defaults : defaults := Defaults 2 44100.

(** Modelled from the spec: the constructor of the audio-buffer package
    from a length alone, [new AudioBuffer(n)], which [resize] calls: a
    newly constructed zero buffer of length [n].  The call passes neither
    a channel count nor a sample rate, so the buffer has the package's
    defaults [d]. *)
Definition AudioBuffer_of_length (d : defaults) (n : nat) : M AudioBuffer.t :=
  let* data := for_each (fun (_ : nat) data =>
                           let* l := alloc (Float32Array_new n) in
                           ret (data ++ [l]))
                        (seq 0 (default_channels d)) [] in
  ret (AudioBuffer.Build (default_channels d) n (default_rate d) data).

(** ** The operations of [index.js] *)

(** [clone] *)
Definition clone (inBuffer : AudioBuffer.t) : M AudioBuffer.t :=
  AudioBuffer_copy inBuffer.

(** The second argument of [fill]: a function of the sample, its channel
    and its index (the receiver and the live array, which the call also
    hands over, play no part in such a producer), or anything else,
    stored as it is. *)
Inductive filler : Type :=
| Fn (f : value -> nat -> nat -> value)
| Const (v : value).

(** [for (var i = 0; i < l; i++) data[i] = fn.call(buffer, data[i], channel, i, data)] *)
Definition fill_fn_loop (f : value -> nat -> nat -> value) (channel l : nat)
    (data : Float32Array) : Float32Array :=
  foldl (fun data i => ta_put data (Z.of_nat i)
                         (f (ta_get data (Z.of_nat i)) channel i))
        data (seq 0 l).

(** [while (l--) data[l] = fn] *)
Fixpoint fill_const_loop (v : value) (l : nat) (data : Float32Array)
  : Float32Array :=
  match l with
  | O => data
  | S l' => fill_const_loop v l' (ta_put data (Z.of_nat l') v)
  end.

Definition fill (buffer : AudioBuffer.t) (fn : filler) : M AudioBuffer.t :=
  let* _ := for_each (fun channel (_ : unit) =>
              let* ref := getChannelData buffer channel in
              let* data := read ref in
              let l := AudioBuffer.length buffer in
              match fn with
              | Fn f => write ref (fill_fn_loop f channel l data)
              | Const v => write ref (fill_const_loop v l data)
              end)
            (seq 0 (numberOfChannels buffer)) tt in
  ret buffer.

(** [zero] *)
Definition zero (buffer : AudioBuffer.t) : M AudioBuffer.t :=
  fill buffer (Const (Number pos_zero)).

(** The inner loop of [equal]:
    [for (var i = 0; i < dataA.length; i++) if (dataA[i] !== dataB[i]) return false].
    The result is the index at which the loop returns, if it does. *)
Fixpoint first_mismatch (dataA dataB : Float32Array) (indices : list nat)
  : option nat :=
  match indices with
  | [] => None
  | i :: rest =>
      if strict_neq (ta_get dataA (Z.of_nat i)) (ta_get dataB (Z.of_nat i))
      then Some i
      else first_mismatch dataA dataB rest
  end.

(** The outer loop of [equal], over the channels: the channel and index
    at which it returns false, if it does. *)
Fixpoint scan_channels (bufferA bufferB : AudioBuffer.t) (channels : list nat)
  : M (option (nat * nat)) :=
  match channels with
  | [] => ret None
  | channel :: rest =>
      let* refA := getChannelData bufferA channel in
      let* dataA := read refA in
      let* refB := getChannelData bufferB channel in
      let* dataB := read refB in
      match first_mismatch dataA dataB (seq 0 (length dataA)) with
      | Some i => ret (Some (channel, i))
      | None => scan_channels bufferA bufferB rest
      end
  end.

(** [equal] called with exactly two buffers. *)
Definition equal2 (bufferA bufferB : AudioBuffer.t) : M bool :=
  if negb (AudioBuffer.length bufferA =? AudioBuffer.length bufferB)%nat
     || negb (numberOfChannels bufferA =? numberOfChannels bufferB)%nat
  then ret false
  else let* stop := scan_channels bufferA bufferB
                      (seq 0 (numberOfChannels bufferA)) in
       ret (match stop with Some _ => false | None => true end).

(** The loop of [equal] over more than two arguments: each one against
    the next, false at the first pair that differs. *)
Fixpoint equal_adjacent (first : AudioBuffer.t) (rest : list AudioBuffer.t)
  : M bool :=
  match rest with
  | [] => ret true
  | next :: rest' =>
      let* same := equal2 first next in
      if same then equal_adjacent next rest' else ret false
  end.

(** [equal], on the list of its arguments.  With fewer than two,
    [bufferB] is [undefined] and reading its length throws. *)
Definition equal (arguments : list AudioBuffer.t) : M bool :=
  match arguments with
  | [bufferA; bufferB] => equal2 bufferA bufferB
  | bufferA :: (_ :: _ :: _) as rest => equal_adjacent bufferA rest
  | _ => throw
  end.

(** [slice] *)
Definition slice (buffer : AudioBuffer.t) (start end_ : option Z)
  : M AudioBuffer.t :=
  let* data := for_each (fun channel data =>
                 let* ref := getChannelData buffer channel in
                 let* a := read ref in
                 let* ref' := alloc (ta_slice a start end_) in
                 ret (data ++ [ref']))
               (seq 0 (numberOfChannels buffer)) [] in
  AudioBuffer_of_data (numberOfChannels buffer) data (sampleRate buffer).

(** [a.map(callback)] on the typed array behind [ref]: a new array of
    the same length is created first; then, for each index in ascending
    order, the element is read from [a] as it is at that moment, the
    callback is called on it and on the index, and its result is stored in
    the new array.  The callback is a computation: it runs on the store. *)
Definition ta_map (callback : value -> nat -> M value) (ref : loc) : M loc :=
  let* a := read ref in
  let len := length a in
  let* A := alloc (Float32Array_new len) in
  let* _ := for_each (fun k (_ : unit) =>
              let* a := read ref in
              let kValue := ta_get a (Z.of_nat k) in
              let* mappedValue := callback kValue k in
              let* target := read A in
              write A (ta_put target (Z.of_nat k) mappedValue))
            (seq 0 len) tt in
  ret A.

(** A producer as [map] calls it, [fn.call(buffer, value, channel, idx,
    data)]: it is given the buffer as its receiver, the sample, its
    channel, its index and the array of the channels built so far, and it
    runs on the store, which it can read and write through the buffer and
    the arrays it is given. *)
Definition producer : Type :=
  AudioBuffer.t -> value -> nat -> nat -> list loc -> M value.

(** The producer that is a function of the sample, its channel and its
    index. *)
Definition plain (f : value -> nat -> nat -> value) : producer :=
  fun _ value channel idx _ => ret (f value channel idx).

(** A producer without side effects: each call returns, and leaves the
    store as it found it. *)
Definition side_effect_free (fn : producer) : Prop :=
  forall this value channel idx data (h : heap),
    exists r, fn this value channel idx data h = Returned r h.

(** [map] *)
Definition map (buffer : AudioBuffer.t) (fn : producer) : M AudioBuffer.t :=
  let* data := for_each (fun channel data =>
                 let* ref := getChannelData buffer channel in
                 let* ref' := ta_map (fun value idx =>
                                        fn buffer value channel idx data) ref in
                 ret (data ++ [ref']))
               (seq 0 (numberOfChannels buffer)) [] in
  AudioBuffer_of_data (numberOfChannels buffer) data (sampleRate buffer).

(** [concat] called with exactly two buffers. *)
Definition concat2 (bufferA bufferB : AudioBuffer.t) : M AudioBuffer.t :=
  let channels := Nat.max (numberOfChannels bufferA) (numberOfChannels bufferB) in
  let length := (AudioBuffer.length bufferA + AudioBuffer.length bufferB)%nat in
  let sampleRate := Z.max (sampleRate bufferA) (sampleRate bufferB) in
  let* data := for_each (fun channel data =>
      let channelData := Float32Array_new length in
      let* channelData :=
        if (channel <? numberOfChannels bufferA)%nat then
          let* ref := getChannelData bufferA channel in
          let* a := read ref in
          match ta_set channelData a 0 with
          | Some channelData' => ret channelData'
          | None => throw
          end
        else ret channelData in
      let* channelData :=
        if (channel <? numberOfChannels bufferB)%nat then
          let* ref := getChannelData bufferB channel in
          let* b := read ref in
          match ta_set channelData b (AudioBuffer.length bufferA) with
          | Some channelData' => ret channelData'
          | None => throw
          end
        else ret channelData in
      let* ref' := alloc channelData in
      ret (data ++ [ref']))
    (seq 0 channels) [] in
  AudioBuffer_of_data channels data sampleRate.

(** [concat], on the list of its arguments: with more than two, the
    loop [result = concat(result, arguments[i])] from the first one. *)
Definition concat (arguments : list AudioBuffer.t) : M AudioBuffer.t :=
  match arguments with
  | [bufferA; bufferB] => concat2 bufferA bufferB
  | bufferA :: (_ :: _ :: _) as rest =>
      for_each (fun next result => concat2 result next) rest bufferA
  | _ => throw
  end.

(** [resize] *)
Definition resize (d : defaults) (buffer : AudioBuffer.t) (length : Z)
  : M AudioBuffer.t :=
  if length <? Z.of_nat (AudioBuffer.length buffer)
  then slice buffer (Some 0) (Some length)
  else let* padding := AudioBuffer_of_length d
                         (Z.to_nat (length - Z.of_nat (AudioBuffer.length buffer))) in
       concat [buffer; padding].

(** ** Lengths, indices and offsets

    The lengths, indices and offsets of the code are Numbers that hold
    integers, and the embedding takes them as integers, with the
    arithmetic of [Z].  That is the arithmetic of the code as long as
    every operand and every result is a safe integer, one of magnitude at
    most [2^53 - 1]: on these the sums and differences of Numbers are
    exact.  Beyond them a sum is rounded, and [i++] can leave [i] where it
    is.  Lengths and indices are far within the safe integers (an array
    buffer has at most [2^53 - 1] bytes, so a channel of four-byte samples
    has fewer than [2^51] of them), and so is every sum of two or three
    numbers that the length bounds; an offset is whatever the caller
    passes.  The embedding of [rotate] and [shift] below is therefore that
    of the code for the offsets that keep the numbers the loops form
    within the safe integers, and the properties proved of them further
    down are stated for such offsets: offsets that the length bounds, or
    that [rotate_exact] and [shift_exact] admit.  The one property stated
    for offsets of any size is that [shift] does not return when the
    offset exceeds the length: there the counter of the loop starts below
    zero and never comes back to it, rounded or not. *)
Definition max_safe_integer : Z := 2 ^ 53 - 1.

(** For a channel of length [l], the offsets for which every number that
    the loop of [rotate] forms is a safe integer: these are [offset + i],
    [l + i] and [offset + (l + i)], for [0 <= i < l]. *)
Definition rotate_exact (l offset : Z) : Prop :=
  Z.abs offset + 2 * l <= max_safe_integer.

(** For a channel of length [l], the offsets for which every number that
    the loops of [shift] form is a safe integer: these are [l - offset],
    and the values of [i] and of [i + offset] as [i] runs from
    [l - offset] down to [0] (positive offsets up to [l]), or from
    [- offset] up to [l - offset] (the other offsets). *)
Definition shift_exact (l offset : Z) : Prop :=
  Z.abs offset + l <= max_safe_integer.

(** [(offset + (offset + i < 0 ? l + i : i)) % l]; the remainder of
    JavaScript has the sign of the dividend. *)
Definition rotate_index (offset l i : Z) : Z :=
  Z.rem (offset + (if offset + i <? 0 then l + i else i)) l.

(** The loop of [rotate] over one channel, reading the snapshot
    [srcData] and writing the live array. *)
Definition rotate_loop (offset : Z) (srcData cData : Float32Array)
  : Float32Array :=
  let l := Z.of_nat (length cData) in
  foldl (fun cData i =>
           ta_put cData (rotate_index offset l (Z.of_nat i))
                  (ta_get srcData (Z.of_nat i)))
        cData (seq 0 (length cData)).

(** [rotate] *)
Definition rotate (buffer : AudioBuffer.t) (offset : Z) : M AudioBuffer.t :=
  let* _ := for_each (fun channel (_ : unit) =>
              let* ref := getChannelData buffer channel in
              let* cData := read ref in
              let srcData := ta_slice cData None None in
              write ref (rotate_loop offset srcData cData))
            (seq 0 (numberOfChannels buffer)) tt in
  ret buffer.

(** [for (var i = cData.length - offset; i--;) cData[i + offset] = cData[i]]:
    the loop goes on while [i--] is truthy, that is while [i] is not [0]
    before the decrement.  [fuel] bounds the number of tests. *)
Fixpoint shift_right_loop (fuel : nat) (offset i : Z) (cData : Float32Array)
  : option Float32Array :=
  match fuel with
  | O => None
  | S fuel' =>
      if i =? 0 then Some cData
      else let i := i - 1 in
           shift_right_loop fuel' offset i
             (ta_put cData (i + offset) (ta_get cData i))
  end.

(** [for (var i = -offset, l = cData.length - offset; i < l; i++)
       cData[i + offset] = cData[i] || 0] *)
Definition shift_left_loop (offset : Z) (cData : Float32Array)
  : Float32Array :=
  let l := Z.of_nat (length cData) - offset in
  foldl (fun cData i => ta_put cData (i + offset) (or_zero (ta_get cData i)))
        cData (seqZ (- offset) (l - (- offset))).

(** [shift]; [fuel] bounds the iterations of each inner loop. *)
Definition shift (fuel : nat) (buffer : AudioBuffer.t) (offset : Z)
  : M AudioBuffer.t :=
  let* _ := for_each (fun channel (_ : unit) =>
              let* ref := getChannelData buffer channel in
              let* cData := read ref in
              if 0 <? offset then
                match shift_right_loop fuel offset
                        (Z.of_nat (length cData) - offset) cData with
                | Some cData' => write ref cData'
                | None => fun _ => Unfinished
                end
              else write ref (shift_left_loop offset cData))
            (seq 0 (numberOfChannels buffer)) tt in
  ret buffer.

(** ** Reading a buffer in a store *)

(** The samples of channel [c] of [b] in the store [h]. *)
Definition channel (h : heap) (b : AudioBuffer.t) (c : nat)
  : option Float32Array :=
  l ← AudioBuffer.data b !! c; h !! l.

(** A buffer as the collaborator contract has it: at least one channel,
    one array per channel, no array shared by two channels, and every
    array of the length of the buffer. *)
Definition wf (h : heap) (b : AudioBuffer.t) : Prop :=
  (0 < numberOfChannels b)%nat
  ∧ length (AudioBuffer.data b) = numberOfChannels b
  ∧ NoDup (AudioBuffer.data b)
  ∧ Forall (fun l => length <$> h !! l = Some (AudioBuffer.length b))
           (AudioBuffer.data b).

#[global] Instance wf_dec h b : Decision (wf h b).
Proof. unfold wf. apply _. Defined.

(** No sample of the buffer is [NaN]. *)
Definition nan_free (h : heap) (b : AudioBuffer.t) : Prop :=
  Forall (fun l => from_option (forallb (fun x => negb (is_nan x))) true (h !! l)
                   = true)
         (AudioBuffer.data b).

(** ** The comparisons that [equal] makes *)

(** The indices at which the inner loop of [equal] evaluates [!==]: it
    follows [first_mismatch] and records each index it compares. *)
Fixpoint compared_indices (dataA dataB : Float32Array) (indices : list nat)
  : list nat :=
  match indices with
  | [] => []
  | i :: rest =>
      i :: if strict_neq (ta_get dataA (Z.of_nat i)) (ta_get dataB (Z.of_nat i))
           then []
           else compared_indices dataA dataB rest
  end.

(** The positions (channel, index) that the loops of [equal] compare, in
    the order they are compared: it follows [scan_channels]. *)
Fixpoint compared (bufferA bufferB : AudioBuffer.t) (channels : list nat)
  : M (list (nat * nat)) :=
  match channels with
  | [] => ret []
  | channel :: rest =>
      let* refA := getChannelData bufferA channel in
      let* dataA := read refA in
      let* refB := getChannelData bufferB channel in
      let* dataB := read refB in
      let here := pair channel <$>
                    compared_indices dataA dataB (seq 0 (length dataA)) in
      match first_mismatch dataA dataB (seq 0 (length dataA)) with
      | Some _ => ret here
      | None => let* later := compared bufferA bufferB rest in
                ret (here ++ later)
      end
  end.

(** Whether two buffers differ at a position. *)
Definition mismatch (h : heap) (a b : AudioBuffer.t) (c i : nat) : Prop :=
  exists x y, channel h a c = Some x /\ channel h b c = Some y
              /\ strict_neq (ta_get x (Z.of_nat i)) (ta_get y (Z.of_nat i)) = true.

(** ** Concrete buffers *)

(** One channel [1, 2, 3, 4] at 44100 Hz. *)
Definition store_1234 : heap := [[f32 1; f32 2; f32 3; f32 4]].
Definition buffer_1234 : AudioBuffer.t := AudioBuffer.Build 1 4 44100 [0%nat].

(** What a buffer contributes to channel [c] of a concatenation: the
    samples of its channel [c] when it has one, zeros over its length
    when it has not. *)
Definition span (h : heap) (x : AudioBuffer.t) (c : nat) : list sample :=
  default (replicate (AudioBuffer.length x) pos_zero) (channel h x c).

(** One channel [1, 2] and one channel [3, 4, 5], both at 44100 Hz. *)
Definition store_12_345 : heap := [[f32 1; f32 2]; [f32 3; f32 4; f32 5]].
Definition buffer_12 : AudioBuffer.t := AudioBuffer.Build 1 2 44100 [0%nat].
Definition buffer_345 : AudioBuffer.t := AudioBuffer.Build 1 3 44100 [1%nat].

(** The positions of [n] channels of length [len] from channel [c0] on,
    channel by channel and index by index. *)
Definition positions (c0 n len : nat) : list (nat * nat) :=
  seq c0 n ≫= fun c => pair c <$> seq 0 len.

(** Position [(c', i')] comes before [(c, i)] in that order. *)
Definition before (c' i' c i : nat) : Prop :=
  (c' < c)%nat \/ (c' = c /\ (i' < i)%nat).

(** The composition of the round-trip property:
    [equal(rotate(rotate(clone(b), k), -k), b)]. *)
Definition rotate_round_trip (b : AudioBuffer.t) (k : Z) : M bool :=
  let* c := clone b in
  let* r1 := rotate c k in
  let* r2 := rotate r1 (- k) in
  equal [r2; b].

(** One channel holding the single sample [NaN]. *)
Definition store_nan : heap := [[NaN]].
Definition buffer_nan : AudioBuffer.t := AudioBuffer.Build 1 1 44100 [0%nat].

(** One channel [1, NaN, 2]. *)
Definition store_1_nan_2 : heap := [[f32 1; NaN; f32 2]].
Definition buffer_1_nan_2 : AudioBuffer.t := AudioBuffer.Build 1 3 44100 [0%nat].

(** ** The other operations of [index.js] *)

(** [Array.prototype.reverse.call(d)] on a typed array: for [lower] from
    [0] up to the middle, the elements at [lower] and at
    [upper = len - lower - 1] are exchanged. *)
Definition reverse_loop (d : Float32Array) : Float32Array :=
  let len := length d in
  foldl (fun d lower =>
           let upper := (len - lower - 1)%nat in
           let lowerValue := ta_get d (Z.of_nat lower) in
           let upperValue := ta_get d (Z.of_nat upper) in
           ta_put (ta_put d (Z.of_nat lower) upperValue)
                  (Z.of_nat upper) lowerValue)
        d (seq 0 (len / 2)).

(** [reverse] *)
Definition reverse (buffer : AudioBuffer.t) : M AudioBuffer.t :=
  let* _ := for_each (fun i (_ : unit) =>
              let* ref := getChannelData buffer i in
              let* d := read ref in
              write ref (reverse_loop d))
            (seq 0 (numberOfChannels buffer)) tt in
  ret buffer.

(** [-sample]: the sign is flipped, [NaN] stays [NaN], and [-undefined]
    is [NaN]. *)
Definition negate (v : value) : value :=
  match v with
  | Undefined => Number NaN
  | Number x => Number (SFopp x)
  end.

(** [invert] *)
Definition invert (buffer : AudioBuffer.t) : M AudioBuffer.t :=
  fill buffer (Fn (fun sample _ _ => negate sample)).

(** Two channels, [1, -0, NaN] and [4, 5, 6]. *)
Definition store_stereo : heap := [[f32 1; neg_zero; NaN]; [f32 4; f32 5; f32 6]].
Definition buffer_stereo : AudioBuffer.t :=
  AudioBuffer.Build 2 3 48000 [0%nat; 1%nat].

(** Two buffers have the same shape and, at every index of every
    channel, samples that [===] holds equal. *)
Definition same_samples (h : heap) (a b : AudioBuffer.t) : Prop :=
  AudioBuffer.length a = AudioBuffer.length b
  /\ numberOfChannels a = numberOfChannels b
  /\ forall c i (xs ys : list sample) (x y : sample),
       channel h a c = Some xs -> channel h b c = Some ys ->
       xs !! i = Some x -> ys !! i = Some y -> number_eq x y = true.

(** ** Samples of 32 bits *)

(** Every sample of the buffer is a value of binary32: a Float32Array
    holds it as it is. *)
Definition binary32 (h : heap) (b : AudioBuffer.t) : Prop :=
  Forall (fun l => from_option (Forall (fun x => fround x = x)) True (h !! l))
         (AudioBuffer.data b).

#[global] Instance binary32_dec h b : Decision (binary32 h b).
Proof.
  unfold binary32. apply Forall_dec. intros l.
  destruct (h !! l) as [a|]; unfold from_option.
  - apply Forall_dec. intros x. apply sample_eq_dec.
  - left. exact I.
Defined.

(** One channel [0.1, 1], and one channel [2]. *)
Definition store_tenth : heap := [[tenth; f32 1]; [f32 2]].
Definition buffer_tenth : AudioBuffer.t := AudioBuffer.Build 1 2 44100 [0%nat].
Definition buffer_2 : AudioBuffer.t := AudioBuffer.Build 1 1 44100 [1%nat].

(** ** A producer with a side effect *)

(** A producer that returns the sample it is given, after storing [9] at
    index 0 of channel 0 of its receiver:
    [function (value) { this.getChannelData(0)[0] = 9; return value }]. *)
Definition store_nine_in_receiver : producer :=
  fun this value _ _ _ =>
    let* ref := getChannelData this 0 in
    let* a := read ref in
    let* _ := write ref (ta_put a 0 (Number (f32 9))) in
    ret value.

(** * Properties *)

(** ** Typed arrays *)

Lemma ta_get_nat (a : Float32Array) (i : nat) :
  ta_get a (Z.of_nat i) = match a !! i with
                          | Some x => Number x
                          | None => Undefined
                          end.
Proof.
  unfold ta_get. destruct (Z.ltb_spec (Z.of_nat i) 0); [lia|].
  by rewrite Nat2Z.id.
Qed.

Lemma ta_get_neg (a : Float32Array) (i : Z) : i < 0 -> ta_get a i = Undefined.
Proof. intros Hi. unfold ta_get. by destruct (Z.ltb_spec i 0); [|lia]. Qed.

Lemma ta_put_nat (a : Float32Array) (i : nat) (v : value) :
  ta_put a (Z.of_nat i) v = <[i := to_number v]> a.
Proof.
  unfold ta_put. destruct (Z.ltb_spec (Z.of_nat i) 0); [lia|].
  by rewrite Nat2Z.id.
Qed.

Lemma ta_put_neg (a : Float32Array) (i : Z) (v : value) :
  i < 0 -> ta_put a i v = a.
Proof. intros Hi. unfold ta_put. by destruct (Z.ltb_spec i 0); [|lia]. Qed.

Lemma length_ta_put (a : Float32Array) (i : Z) (v : value) :
  length (ta_put a i v) = length a.
Proof. unfold ta_put. destruct (i <? 0); [done|]. apply length_insert. Qed.

Lemma length_Float32Array_new (n : nat) : length (Float32Array_new n) = n.
Proof. apply length_replicate. Qed.

Lemma ta_slice_whole (a : Float32Array) : ta_slice a None None = a.
Proof.
  unfold ta_slice, relative_index. simpl.
  rewrite Z.min_l by lia. rewrite Z.sub_0_r, Z.max_l by lia.
  rewrite Nat2Z.id. simpl. apply take_ge. lia.
Qed.

(** ** Computations *)

Lemma bind_Returned {A B} (m : M A) (k : A -> M B) h a h' :
  m h = Returned a h' -> bind m k h = k a h'.
Proof. intros Hm. unfold bind. by rewrite Hm. Qed.

Lemma read_Some (l : loc) (h : heap) (a : Float32Array) :
  h !! l = Some a -> read l h = Returned a h.
Proof. intros Hl. unfold read. by rewrite Hl. Qed.

Lemma write_Some (l : loc) (h : heap) (a a' : Float32Array) :
  h !! l = Some a -> write l a' h = Returned tt (<[l := a']> h).
Proof. intros Hl. unfold write. by rewrite Hl. Qed.

Lemma getChannelData_Some (b : AudioBuffer.t) (c : nat) (l : loc) (h : heap) :
  AudioBuffer.data b !! c = Some l -> getChannelData b c h = Returned l h.
Proof. intros Hl. unfold getChannelData. by rewrite Hl. Qed.

(** One round of a loop over the channels starts by fetching the array
    of the channel: [Hl] locates the reference in the buffer, [Ha] the
    array in the store. *)
Ltac read_channel Hl Ha :=
  rewrite (bind_Returned _ _ _ _ _ (getChannelData_Some _ _ _ _ Hl));
  rewrite (bind_Returned _ _ _ _ _ (read_Some _ _ _ Ha)).

(** ** Well-formed buffers *)

Lemma wf_channel h b c :
  wf h b -> (c < numberOfChannels b)%nat ->
  exists l a, AudioBuffer.data b !! c = Some l /\ h !! l = Some a
              /\ length a = AudioBuffer.length b.
Proof.
  intros (_ & Hlen & _ & Hall) Hc.
  destruct (lookup_lt_is_Some_2 (AudioBuffer.data b) c) as [l Hl]; [lia|].
  rewrite Forall_lookup in Hall. specialize (Hall _ _ Hl).
  destruct (h !! l) as [a|] eqn:Ha; [|done].
  exists l, a. simpl in Hall. by simplify_eq.
Qed.

Lemma channel_Some h b c l a :
  AudioBuffer.data b !! c = Some l -> h !! l = Some a -> channel h b c = Some a.
Proof. intros Hl Ha. unfold channel. by rewrite Hl. Qed.

Lemma wf_channel_Some h b c :
  wf h b -> (c < numberOfChannels b)%nat ->
  exists a, channel h b c = Some a /\ length a = AudioBuffer.length b.
Proof.
  intros Hwf Hc. destruct (wf_channel h b c Hwf Hc) as (l & a & Hl & Ha & Hlen).
  exists a. split; [by eapply channel_Some|done].
Qed.

Lemma channel_lt h b c a :
  wf h b -> channel h b c = Some a ->
  (c < numberOfChannels b)%nat /\ length a = AudioBuffer.length b.
Proof.
  intros Hwf Hch. unfold channel in Hch.
  destruct (AudioBuffer.data b !! c) as [l|] eqn:Hl; [|done]. simpl in Hch.
  pose proof (lookup_lt_Some _ _ _ Hl) as Hlt.
  destruct Hwf as (_ & Hlen & _ & Hall).
  rewrite Forall_lookup in Hall. specialize (Hall _ _ Hl).
  rewrite Hch in Hall. simpl in Hall. split; [lia|by simplify_eq].
Qed.

(** ** Loops over the channels *)

(** A loop whose body replaces the array of channel [c] by [f c] of it:
    afterwards every channel holds its image, and the rest of the store
    is as before. *)
Lemma for_each_in_place (b : AudioBuffer.t)
    (f : nat -> list sample -> list sample)
    (body : nat -> unit -> M unit) (L : nat) :
  NoDup (AudioBuffer.data b) ->
  (forall c l a (h : heap),
      AudioBuffer.data b !! c = Some l -> h !! l = Some a -> length a = L ->
      body c tt h = Returned tt (<[l := f c a]> h)) ->
  forall n c0 (h : heap),
    (c0 + n)%nat = length (AudioBuffer.data b) ->
    (forall c l, (c0 <= c)%nat -> AudioBuffer.data b !! c = Some l ->
                 exists a, h !! l = Some a /\ length a = L) ->
    exists h' : heap,
      for_each body (seq c0 n) tt h = Returned tt h'
      /\ length h' = length h
      /\ (forall c l, (c0 <= c)%nat -> AudioBuffer.data b !! c = Some l ->
                      h' !! l = f c <$> h !! l)
      /\ (forall l, (forall c, (c0 <= c)%nat -> AudioBuffer.data b !! c <> Some l) ->
                    h' !! l = h !! l).
Proof.
  intros Hnd Hbody n. induction n as [|n IH]; intros c0 h Hlen Hh.
  - exists h. split_and!; [done..| |done].
    intros c l Hc Hl. apply lookup_lt_Some in Hl. lia.
  - destruct (lookup_lt_is_Some_2 (AudioBuffer.data b) c0) as [l0 Hl0]; [lia|].
    destruct (Hh c0 l0) as (a0 & Ha0 & HL0); [lia|done|].
    assert (Hother : forall c l, (S c0 <= c)%nat ->
                       AudioBuffer.data b !! c = Some l -> l <> l0).
    { intros c l Hc Hl ->.
      pose proof (NoDup_lookup _ _ _ _ Hnd Hl Hl0). lia. }
    destruct (IH (S c0) (<[l0 := f c0 a0]> h)) as (h' & Hrun & Hlen' & Hin & Hout).
    { lia. }
    { intros c l Hc Hl. rewrite list_lookup_insert_ne.
      - apply (Hh c); [lia|done].
      - intros Heq. by apply (Hother c l Hc Hl). }
    exists h'. simpl. split_and!.
    + rewrite (bind_Returned _ _ _ tt (<[l0 := f c0 a0]> h)); [done|].
      by apply Hbody.
    + by rewrite Hlen', length_insert.
    + intros c l Hc Hl. destruct (decide (c = c0)) as [->|Hne].
      * simplify_eq. rewrite Hout.
        -- rewrite list_lookup_insert_eq, Ha0; [done|].
           by eapply lookup_lt_Some.
        -- intros c Hc' Hl. by apply (Hother c l0 Hc' Hl).
      * rewrite (Hin c l); [|lia|done]. rewrite list_lookup_insert_ne; [done|].
        intros Heq. apply (Hother c l); [lia|done..].
    + intros l Hl. rewrite Hout.
      * rewrite list_lookup_insert_ne; [done|].
        intros Heq. apply (Hl c0); [lia|]. by rewrite Heq in Hl0.
      * intros c Hc. apply Hl. lia.
Qed.

(** A loop whose body allocates the array [g c] for channel [c] and
    pushes its reference: the store grows by these arrays, in order, and
    nothing that was in it changes. *)
Lemma for_each_alloc (g : nat -> list sample)
    (body : nat -> list nat -> M (list nat)) (h0 : heap) :
  forall n c0 (data : list nat) (ext : heap),
    (forall c data' (ext' : heap), (c0 <= c < c0 + n)%nat ->
        body c data' (h0 ++ ext')
        = Returned (data' ++ [length (h0 ++ ext')]) (h0 ++ ext' ++ [g c])) ->
    for_each body (seq c0 n) data (h0 ++ ext)
    = Returned (data ++ seq (length (h0 ++ ext)) n)
               (h0 ++ ext ++ (g <$> seq c0 n)).
Proof.
  induction n as [|n IH]; intros c0 data ext Hbody; simpl.
  - by rewrite !app_nil_r.
  - rewrite (bind_Returned _ _ _ (data ++ [length (h0 ++ ext)])
               (h0 ++ ext ++ [g c0])).
    2: { apply Hbody. lia. }
    rewrite (IH (S c0) _ (ext ++ [g c0])).
    + f_equal.
      * rewrite <- app_assoc. simpl. do 3 f_equal.
        rewrite !length_app. simpl. lia.
      * by rewrite <- !app_assoc.
    + intros c data' ext' Hc. apply Hbody. lia.
Qed.

(** The in-place loop on a well-formed buffer. *)
Lemma in_place_wf (b : AudioBuffer.t) (f : nat -> list sample -> list sample)
    (body : nat -> unit -> M unit) (h : heap) :
  wf h b ->
  (forall c l a (h1 : heap),
      AudioBuffer.data b !! c = Some l -> h1 !! l = Some a ->
      length a = AudioBuffer.length b ->
      body c tt h1 = Returned tt (<[l := f c a]> h1)) ->
  exists h' : heap,
    for_each body (seq 0 (numberOfChannels b)) tt h = Returned tt h'
    /\ length h' = length h
    /\ (forall c a, channel h b c = Some a -> channel h' b c = Some (f c a))
    /\ (forall l, l ∉ AudioBuffer.data b -> h' !! l = h !! l).
Proof.
  intros Hwf Hbody. pose proof Hwf as (Hpos & Hlen & Hnd & Hall).
  destruct (for_each_in_place b f body (AudioBuffer.length b) Hnd Hbody
              (numberOfChannels b) 0%nat h) as (h' & Hrun & Hlen' & Hin & Hout).
  { simpl. lia. }
  { intros c l _ Hl. rewrite Forall_lookup in Hall. specialize (Hall _ _ Hl).
    destruct (h !! l) as [a|]; [|done]. exists a. simpl in Hall.
    split; [done|by simplify_eq]. }
  exists h'. split_and!; [done..| |].
  - intros c a Hch. unfold channel in *.
    destruct (AudioBuffer.data b !! c) as [l|] eqn:Hl; [|done]. simpl in *.
    rewrite (Hin c l); [|lia|done]. by rewrite Hch.
  - intros l Hl. apply Hout. intros c _ Hc. apply Hl.
    apply list_elem_of_lookup. by exists c.
Qed.

(** An in-place loop that keeps the lengths leaves the buffer well formed. *)
Lemma wf_in_place (b : AudioBuffer.t) (f : nat -> list sample -> list sample)
    (h h' : heap) :
  wf h b ->
  (forall c a, length a = AudioBuffer.length b ->
               length (f c a) = AudioBuffer.length b) ->
  (forall c a, channel h b c = Some a -> channel h' b c = Some (f c a)) ->
  wf h' b.
Proof.
  intros Hwf Hf Hin. pose proof Hwf as (Hpos & Hlen & Hnd & Hall).
  split_and!; [done..|]. apply Forall_lookup. intros c l Hl.
  destruct (wf_channel h b c Hwf) as (l' & a & Hl' & Ha & HL).
  { apply lookup_lt_Some in Hl. lia. }
  simplify_eq. specialize (Hin c a (channel_Some _ _ _ _ _ Hl Ha)).
  unfold channel in Hin. rewrite Hl in Hin. simpl in Hin.
  rewrite Hin. simpl. f_equal. by apply Hf.
Qed.

(** The buffer that an allocating operation builds from the arrays
    [g 0 .. g (n-1)], and the store it leaves. *)
Lemma build_channels (g : nat -> list sample)
    (body : nat -> list nat -> M (list nat)) (n : nat) (rate : Z) (h : heap) :
  (0 < n)%nat ->
  (forall c data (ext : heap), (c < n)%nat ->
      body c data (h ++ ext)
      = Returned (data ++ [length (h ++ ext)]) (h ++ ext ++ [g c])) ->
  bind (for_each body (seq 0 n) []) (fun data => AudioBuffer_of_data n data rate) h
  = Returned (AudioBuffer.Build n (length (g 0%nat)) rate (seq (length h) n))
             (h ++ (g <$> seq 0 n)).
Proof.
  intros Hn Hbody.
  pose proof (for_each_alloc g body h n 0%nat [] []) as Hrun.
  rewrite !app_nil_r in Hrun. simpl in Hrun.
  rewrite (bind_Returned _ _ _ _ _ (Hrun ltac:(intros; apply Hbody; lia))).
  destruct n as [|n]; [lia|]. simpl.
  erewrite (bind_Returned _ _ _ (g 0%nat)); [done|].
  apply read_Some. rewrite lookup_app_r by lia.
  by rewrite Nat.sub_diag.
Qed.

Lemma channel_built (g : nat -> list sample) (n len : nat) (rate : Z)
    (h : heap) (c : nat) :
  (c < n)%nat ->
  channel (h ++ (g <$> seq 0 n))
          (AudioBuffer.Build n len rate (seq (length h) n)) c
  = Some (g c).
Proof.
  intros Hc. unfold channel. simpl.
  rewrite lookup_seq_lt by done. simpl.
  rewrite lookup_app_r by lia.
  replace (length h + c - length h)%nat with c by lia.
  rewrite list_lookup_fmap, lookup_seq_lt by done. done.
Qed.

Lemma wf_built (g : nat -> list sample) (n len : nat) (rate : Z) (h : heap) :
  (0 < n)%nat -> (forall c, (c < n)%nat -> length (g c) = len) ->
  wf (h ++ (g <$> seq 0 n)) (AudioBuffer.Build n len rate (seq (length h) n)).
Proof.
  intros Hn Hg. unfold wf. simpl. split_and!; [done| | |].
  - apply length_seq.
  - apply NoDup_seq.
  - apply Forall_lookup. intros c l Hl. apply lookup_seq in Hl as [-> Hc].
    rewrite lookup_app_r by lia.
    replace (length h + c - length h)%nat with c by lia.
    rewrite list_lookup_fmap, lookup_seq_lt by done. simpl. f_equal. by apply Hg.
Qed.

(** An array of a well-formed buffer stays where it is when the store
    grows. *)
Lemma channel_app (h ext : heap) (b : AudioBuffer.t) (c : nat) a :
  channel h b c = Some a -> channel (h ++ ext) b c = Some a.
Proof.
  unfold channel. destruct (AudioBuffer.data b !! c) as [l|]; [|done]. simpl.
  apply lookup_app_l_Some.
Qed.

Lemma wf_app (h ext : heap) (b : AudioBuffer.t) : wf h b -> wf (h ++ ext) b.
Proof.
  intros (Hpos & Hlen & Hnd & Hall). split_and!; [done..|].
  eapply Forall_impl; [|exact Hall]. intros l Hl. simpl in Hl.
  destruct (h !! l) as [a|] eqn:Ha; [|done].
  by rewrite (lookup_app_l_Some _ _ _ _ Ha).
Qed.

(** ** [fill] with a constant, and [zero] *)

(** The descending loop [while (l--) data[l] = fn] overwrites the first
    [l] elements. *)
Lemma fill_const_loop_spec (v : value) (l : nat) (data : list sample) :
  (l <= length data)%nat ->
  fill_const_loop v l data = replicate l (to_number v) ++ drop l data.
Proof.
  revert data. induction l as [|l IH]; intros data Hl; [done|].
  cbn [fill_const_loop].
  rewrite ta_put_nat, IH by (rewrite length_insert; lia).
  rewrite replicate_S_end, <- app_assoc. f_equal.
  rewrite drop_insert_ge by lia. rewrite Nat.sub_diag.
  destruct (lookup_lt_is_Some_2 data l) as [x Hx]; [lia|].
  by rewrite (drop_S data x l Hx).
Qed.

Lemma fill_const_loop_all (v : value) (data : list sample) :
  fill_const_loop v (length data) data = replicate (length data) (to_number v).
Proof.
  rewrite fill_const_loop_spec by lia. by rewrite drop_all, app_nil_r.
Qed.

Lemma fill_Const_run (h : heap) (b : AudioBuffer.t) (v : value) :
  wf h b ->
  exists h' : heap,
    fill b (Const v) h = Returned b h'
    /\ length h' = length h
    /\ (forall ch, (ch < numberOfChannels b)%nat ->
          channel h' b ch = Some (replicate (AudioBuffer.length b) (to_number v)))
    /\ (forall l, l ∉ AudioBuffer.data b -> h' !! l = h !! l).
Proof.
  intros Hwf.
  destruct (in_place_wf b
              (fun _ a => fill_const_loop v (AudioBuffer.length b) a)
              (fun channel (_ : unit) =>
                 let* ref := getChannelData b channel in
                 let* data := read ref in
                 write ref (fill_const_loop v (AudioBuffer.length b) data))
              h Hwf) as (h' & Hrun & Hlen & Hin & Hout).
  { intros c l a h1 Hl Ha HL.
    read_channel Hl Ha.
    by eapply write_Some. }
  exists h'. split_and!; [|done| |done].
  - unfold fill. by rewrite (bind_Returned _ _ _ _ _ Hrun).
  - intros ch Hch.
    destruct (wf_channel_Some h b ch Hwf Hch) as (a & Ha & HL).
    rewrite (Hin ch a Ha). f_equal. rewrite <- HL. apply fill_const_loop_all.
Qed.



(** ** Operations that allocate one array per channel of their source *)

(** The body shared by [slice], [map] and the copy constructor: read the
    array of the channel, allocate its image under [T], push the new
    reference. *)
Lemma alloc_from_channel (b : AudioBuffer.t) (T : list sample -> list sample)
    (h ext : heap) (c : nat) (a : list sample) (data : list nat) :
  channel h b c = Some a ->
  (let* ref := getChannelData b c in
   let* a := read ref in
   let* ref' := alloc (T a) in
   ret (data ++ [ref'])) (h ++ ext)
  = Returned (data ++ [length (h ++ ext)]) (h ++ ext ++ [T a]).
Proof.
  intros Hch. unfold channel in Hch.
  destruct (AudioBuffer.data b !! c) as [l|] eqn:Hl; [|done]. simpl in Hch.
  rewrite (bind_Returned _ _ _ _ _ (getChannelData_Some _ _ _ _ Hl)).
  rewrite (bind_Returned _ _ _ _ _
             (read_Some _ _ _ (lookup_app_l_Some _ ext _ _ Hch))).
  unfold bind, alloc, ret. by rewrite <- app_assoc.
Qed.

(** What such an operation returns on a well-formed buffer: a buffer of
    fresh arrays, channel [c] being the image of channel [c] of the
    source, in a store that extends the old one. *)
Lemma per_channel_run (b : AudioBuffer.t)
    (T : nat -> list sample -> list sample) (h : heap) :
  wf h b ->
  exists (r : AudioBuffer.t) (ext : heap),
    bind (for_each (fun channel data =>
                      let* ref := getChannelData b channel in
                      let* a := read ref in
                      let* ref' := alloc (T channel a) in
                      ret (data ++ [ref']))
                   (seq 0 (numberOfChannels b)) [])
         (fun data => AudioBuffer_of_data (numberOfChannels b) data (sampleRate b))
         h
    = Returned r (h ++ ext)
    /\ numberOfChannels r = numberOfChannels b
    /\ sampleRate r = sampleRate b
    /\ AudioBuffer.data r = seq (length h) (numberOfChannels b)
    /\ length ext = numberOfChannels b
    /\ (forall a, channel h b 0 = Some a ->
                  AudioBuffer.length r = length (T 0%nat a))
    /\ (forall c a, channel h b c = Some a ->
                    channel (h ++ ext) r c = Some (T c a)).
Proof.
  intros Hwf.
  set (g := fun c => match channel h b c with
                     | Some a => T c a
                     | None => []
                     end).
  pose proof Hwf as (Hpos & _).
  eexists _, (g <$> seq 0 (numberOfChannels b)). split_and!.
  - apply (build_channels g); [done|].
    intros c data ext Hc.
    destruct (wf_channel_Some h b c Hwf Hc) as (a & Ha & _).
    rewrite (alloc_from_channel b (T c) h ext c a data Ha).
    unfold g. by rewrite Ha.
  - done.
  - done.
  - done.
  - by rewrite length_fmap, length_seq.
  - intros a Ha. simpl. unfold g. by rewrite Ha.
  - intros c a Ha. destruct (channel_lt h b c a Hwf Ha) as [Hc _].
    rewrite channel_built by done. unfold g. by rewrite Ha.
Qed.

(** The references of a buffer built in a store that extends [h] are not
    references of a buffer that is well formed in [h]. *)
Lemma fresh_not_in (h : heap) (b : AudioBuffer.t) (n : nat) (l : nat) :
  wf h b -> l ∈ seq (length h) n -> l ∉ AudioBuffer.data b.
Proof.
  intros (_ & _ & _ & Hall) Hl Hin. apply elem_of_seq in Hl.
  apply list_elem_of_lookup in Hin as [c Hc].
  rewrite Forall_lookup in Hall. specialize (Hall c l Hc).
  destruct (h !! l) as [a|] eqn:Ha; [|done].
  apply lookup_lt_Some in Ha. lia.
Qed.

(** ** [map] *)

Lemma for_each_snoc {A St} (body : A -> St -> M St) (xs : list A) (x : A)
    (s : St) (h : heap) :
  for_each body (xs ++ [x]) s h
  = (let* s' := for_each body xs s in body x s') h.
Proof.
  revert s h. induction xs as [|y xs IH]; intros s h; simpl.
  - unfold bind, ret. destruct (body x s h) as [a h'| |]; reflexivity.
  - unfold bind. destruct (body y s h) as [s1 h1| |]; [|done..].
    rewrite IH. reflexivity.
Qed.

(** The loop of the [map] of a typed array, for a callback without side
    effects whose results satisfy [P]: after [n] rounds the new array,
    which is the last of the store, holds a result of the callback for
    each of the first [n] elements of [a]. *)
Lemma ta_map_loop (callback : value -> nat -> M value)
    (P : nat -> value -> value -> Prop) (ref : nat) (a : list sample)
    (h : heap) :
  h !! ref = Some a ->
  (forall (h1 : heap) (v : value) (k : nat),
      exists r, callback v k h1 = Returned r h1 /\ P k v r) ->
  forall (n : nat) (z : list sample),
    (n <= length a)%nat -> length z = length a ->
    exists z' : list sample,
      for_each (fun k (_ : unit) =>
                  let* a := read ref in
                  let kValue := ta_get a (Z.of_nat k) in
                  let* mappedValue := callback kValue k in
                  let* target := read (length h) in
                  write (length h) (ta_put target (Z.of_nat k) mappedValue))
               (seq 0 n) tt (h ++ [z])
      = Returned tt (h ++ [z'])
      /\ length z' = length a
      /\ forall k x, (k < n)%nat -> a !! k = Some x ->
           exists r, P k (Number x) r /\ z' !! k = Some (to_number r).
Proof.
  intros Ha Hcb n z. induction n as [|n IH]; intros Hn Hz.
  - exists z. split_and!; [done..|]. intros k x Hk. lia.
  - destruct IH as (z1 & Hrun & Hlen & Hres); [lia|done|].
    rewrite seq_S, for_each_snoc. cbn [Nat.add].
    rewrite (bind_Returned _ _ _ _ _ Hrun).
    rewrite (bind_Returned _ _ _ _ _
               (read_Some _ _ _ (lookup_app_l_Some _ [z1] _ _ Ha))).
    cbv zeta. rewrite ta_get_nat.
    destruct (lookup_lt_is_Some_2 a n) as [x Hx]; [lia|]. rewrite Hx.
    destruct (Hcb (h ++ [z1]) (Number x) n) as (r & Hcall & HP).
    rewrite (bind_Returned _ _ _ _ _ Hcall).
    assert (Hlast : (h ++ [z1]) !! length h = Some z1).
    { by apply list_lookup_middle. }
    rewrite (bind_Returned _ _ _ _ _ (read_Some _ _ _ Hlast)).
    rewrite (write_Some _ _ _ _ Hlast).
    rewrite insert_app_r_alt, Nat.sub_diag by lia. cbn [insert list_insert].
    rewrite ta_put_nat.
    exists (<[n := to_number r]> z1). split_and!; [done| |].
    + by rewrite length_insert.
    + intros k y Hk Hy. destruct (decide (k = n)) as [->|Hne].
      * assert (y = x) as -> by congruence.
        exists r. split; [done|]. apply list_lookup_insert_eq. lia.
      * destruct (Hres k y) as (r' & HP' & Hz'); [lia|done|].
        exists r'. split; [done|]. by rewrite list_lookup_insert_ne.
Qed.

(** The [map] of a typed array, for such a callback: the new array is
    added to the store, and nothing else changes. *)
Lemma ta_map_run (callback : value -> nat -> M value)
    (P : nat -> value -> value -> Prop) (ref : nat) (a : list sample)
    (h : heap) :
  h !! ref = Some a ->
  (forall (h1 : heap) (v : value) (k : nat),
      exists r, callback v k h1 = Returned r h1 /\ P k v r) ->
  exists a' : list sample,
    ta_map callback ref h = Returned (length h) (h ++ [a'])
    /\ length a' = length a
    /\ forall k x, a !! k = Some x ->
         exists r, P k (Number x) r /\ a' !! k = Some (to_number r).
Proof.
  intros Ha Hcb.
  destruct (ta_map_loop callback P ref a h Ha Hcb (length a)
              (Float32Array_new (length a)))
    as (a' & Hrun & Hlen & Hres); [done|apply length_Float32Array_new|].
  exists a'. split_and!; [|done|].
  - unfold ta_map. rewrite (bind_Returned _ _ _ _ _ (read_Some _ _ _ Ha)).
    cbv zeta. unfold bind at 1. unfold alloc at 1.
    by rewrite (bind_Returned _ _ _ _ _ Hrun).
  - intros k x Hx. apply Hres; [|done]. by eapply lookup_lt_Some.
Qed.

(** A loop whose body allocates, for channel [c], an array that
    satisfies [Q c] and pushes its reference. *)
Lemma for_each_alloc_some (Q : nat -> list sample -> Prop)
    (body : nat -> list nat -> M (list nat)) (h0 : heap) :
  forall n c0 (data : list nat) (ext : heap),
    (forall c data' (ext' : heap), (c0 <= c < c0 + n)%nat ->
        exists g : list sample,
          body c data' (h0 ++ ext')
          = Returned (data' ++ [length (h0 ++ ext')]) (h0 ++ ext' ++ [g])
          /\ Q c g) ->
    exists gs : heap,
      for_each body (seq c0 n) data (h0 ++ ext)
      = Returned (data ++ seq (length (h0 ++ ext)) n) (h0 ++ ext ++ gs)
      /\ length gs = n
      /\ forall i g, gs !! i = Some g -> Q (c0 + i)%nat g.
Proof.
  induction n as [|n IH]; intros c0 data ext Hbody.
  - exists []. simpl. rewrite !app_nil_r. split_and!; [done..|].
    intros i g Hg. done.
  - destruct (Hbody c0 data ext) as (g0 & Hrun0 & HQ0); [lia|].
    destruct (IH (S c0) (data ++ [length (h0 ++ ext)]) (ext ++ [g0]))
      as (gs & Hrun & Hlen & HQ).
    { intros c data' ext' Hc. apply Hbody. lia. }
    exists (g0 :: gs). simpl. rewrite (bind_Returned _ _ _ _ _ Hrun0).
    rewrite Hrun. split_and!.
    + f_equal.
      * rewrite <- app_assoc. simpl. do 3 f_equal.
        rewrite !length_app. simpl. lia.
      * by rewrite <- !app_assoc.
    + by rewrite Hlen.
    + intros [|i] g Hg; simpl in Hg.
      * simplify_eq. by rewrite Nat.add_0_r.
      * replace (c0 + S i)%nat with (S c0 + i)%nat by lia. by apply HQ.
Qed.

(** [map] with a producer without side effects whose results satisfy
    [P]: a well-formed buffer of fresh arrays, each holding a result of
    the producer for each sample of the source, in a store that extends
    the old one. *)
Lemma map_run_rel (P : value -> nat -> nat -> value -> Prop) (h : heap)
    (b : AudioBuffer.t) (fn : producer) :
  wf h b ->
  (forall this v c i data (h1 : heap),
      exists r, fn this v c i data h1 = Returned r h1 /\ P v c i r) ->
  exists (r : AudioBuffer.t) (ext : heap),
    map b fn h = Returned r (h ++ ext)
    /\ numberOfChannels r = numberOfChannels b
    /\ sampleRate r = sampleRate b
    /\ AudioBuffer.length r = AudioBuffer.length b
    /\ wf (h ++ ext) r
    /\ (forall l, l ∈ AudioBuffer.data r ->
                  (length h <= l)%nat /\ l ∉ AudioBuffer.data b)
    /\ (forall c a, channel h b c = Some a ->
          exists a', channel (h ++ ext) r c = Some a'
            /\ length a' = length a
            /\ forall i x, a !! i = Some x ->
                 exists v, P (Number x) c i v
                           /\ a' !! i = Some (to_number v)).
Proof.
  intros Hwf Hfn. pose proof Hwf as (Hpos & Hdata & _).
  set (Q := fun (c : nat) (g : list sample) =>
              exists a, channel h b c = Some a /\ length g = length a
                /\ forall i x, a !! i = Some x ->
                     exists v, P (Number x) c i v
                               /\ g !! i = Some (to_number v)).
  destruct (for_each_alloc_some Q
              (fun channel data =>
                 let* ref := getChannelData b channel in
                 let* ref' := ta_map (fun value idx =>
                                        fn b value channel idx data) ref in
                 ret (data ++ [ref']))
              h (numberOfChannels b) 0%nat [] [])
    as (gs & Hrun & Hlen & HQ).
  { intros c data ext Hc.
    destruct (wf_channel h b c Hwf ltac:(lia)) as (l & a & Hl & Ha & HL).
    destruct (ta_map_run (fun value idx => fn b value c idx data)
                (fun i v r => P v c i r) l a (h ++ ext))
      as (a' & Hmap & Hlen' & Hres).
    { by apply lookup_app_l_Some. }
    { intros h1 v k. apply Hfn. }
    exists a'. split.
    - rewrite (bind_Returned _ _ _ _ _ (getChannelData_Some _ _ _ _ Hl)).
      rewrite (bind_Returned _ _ _ _ _ Hmap). unfold ret.
      by rewrite <- app_assoc.
    - exists a. split; [by eapply channel_Some|]. by split. }
  rewrite !app_nil_r in Hrun. simpl in Hrun.
  destruct gs as [|g0 gs0] eqn:Hgs; [simpl in Hlen; lia|]. rewrite <- Hgs in *.
  assert (Hg0 : length g0 = AudioBuffer.length b).
  { destruct (HQ 0%nat g0) as (a & Ha & HLg & _); [by rewrite Hgs|].
    rewrite HLg. by destruct (channel_lt h b 0 a Hwf Ha). }
  assert (Hlook : forall c, (c < numberOfChannels b)%nat ->
            (h ++ gs) !! (length h + c)%nat = gs !! c).
  { intros c Hc. rewrite lookup_app_r by lia. f_equal. lia. }
  exists (AudioBuffer.Build (numberOfChannels b) (length g0) (sampleRate b)
            (seq (length h) (numberOfChannels b))), gs.
  split_and!; simpl; [|done..| | |].
  - unfold map. rewrite (bind_Returned _ _ _ _ _ Hrun).
    destruct (numberOfChannels b) as [|n] eqn:Hn; [lia|]. simpl.
    erewrite (bind_Returned _ _ _ g0); [done|].
    apply read_Some. rewrite lookup_app_r by lia.
    by rewrite Nat.sub_diag, Hgs.
  - split_and!; simpl; [done|apply length_seq|apply NoDup_seq|].
    apply Forall_lookup. intros c l Hl. apply lookup_seq in Hl as [-> Hc].
    rewrite Hlook by done.
    destruct (lookup_lt_is_Some_2 gs c) as [g Hg]; [lia|]. rewrite Hg. simpl.
    destruct (HQ c g Hg) as (a & Ha & HLg & _). f_equal.
    rewrite HLg, Hg0. by destruct (channel_lt h b c a Hwf Ha).
  - intros l Hl. split.
    + apply elem_of_seq in Hl. lia.
    + by eapply fresh_not_in.
  - intros c a Ha. destruct (channel_lt h b c a Hwf Ha) as [Hc _].
    destruct (lookup_lt_is_Some_2 gs c) as [g Hg]; [lia|].
    destruct (HQ c g Hg) as (a1 & Ha1 & HLg & Hres). simpl in Ha1.
    assert (a1 = a) as -> by congruence.
    exists g. split_and!; [|done..].
    unfold channel. simpl. rewrite lookup_seq_lt by done. simpl.
    by rewrite Hlook.
Qed.

Lemma plain_side_effect_free (f : value -> nat -> nat -> value) :
  side_effect_free (plain f).
Proof. intros this v c i data h. by eexists. Qed.

(** C8, as the code has it: for a well-formed buffer [b] and a producer
    [fn] without side effects (each call returns and leaves the store as
    it was; the producer may read its receiver and the arrays it is
    given), [map(b, fn)] returns a buffer with the channel count, length
    and sample rate of [b]; its arrays are newly allocated, none of them
    is an array of [b], and each has the length of the channel of [b] it
    comes from.  Every array that was in the store before the call, so
    every sample of [b], is unchanged after it.  When the producer is a
    function [f] of the sample, its channel and its index, channel [c] of
    the result holds [f] of each sample of channel [c] of [b]. *)
Theorem map_keeps_shape_and_source (h : heap) (b : AudioBuffer.t)
    (fn : producer) :
  wf h b -> side_effect_free fn ->
  exists (r : AudioBuffer.t) (h' : heap),
    map b fn h = Returned r h'
    /\ numberOfChannels r = numberOfChannels b
    /\ AudioBuffer.length r = AudioBuffer.length b
    /\ sampleRate r = sampleRate b
    /\ wf h' r
    /\ (forall l a, h !! l = Some a -> h' !! l = Some a)
    /\ (forall c a, channel h b c = Some a -> channel h' b c = Some a)
    /\ (forall l, l ∈ AudioBuffer.data r ->
                  (length h <= l)%nat /\ l ∉ AudioBuffer.data b)
    /\ (forall c a, channel h b c = Some a ->
          exists a', channel h' r c = Some a' /\ length a' = length a)
    /\ (forall f : value -> nat -> nat -> value, fn = plain f ->
          forall c a, channel h b c = Some a ->
            exists a', channel h' r c = Some a'
              /\ forall i x, a !! i = Some x ->
                   a' !! i = Some (to_number (f (Number x) c i))).
Proof.
  intros Hwf Hfree.
  destruct (map_run_rel (fun _ _ _ _ => True) h b fn Hwf)
    as (r & ext & Hrun & Hnc & Hsr & HL & Hwfr & Hfresh & Hch).
  { intros this v c i data h1.
    destruct (Hfree this v c i data h1) as (x & Hx). by exists x. }
  exists r, (h ++ ext). split_and!; [done..| | | | |].
  - intros l a. apply lookup_app_l_Some.
  - intros c a. apply channel_app.
  - done.
  - intros c a Ha. destruct (Hch c a Ha) as (a' & Ha' & HLa & _). by exists a'.
  - intros f -> c a Ha.
    destruct (map_run_rel (fun v c i r => r = f v c i) h b (plain f) Hwf)
      as (r' & ext' & Hrun' & _ & _ & _ & _ & _ & Hch').
    { intros this v c' i data h1. by eexists. }
    rewrite Hrun in Hrun'. injection Hrun' as <- Hext.
    apply app_inv_head in Hext as <-.
    destruct (Hch' c a Ha) as (a' & Ha' & _ & Hres).
    exists a'. split; [done|]. intros i x Hx.
    by destruct (Hres i x Hx) as (v & -> & Hv).
Qed.

Lemma map_keeps_shape_and_source_witness :
  (wf store_1234 buffer_1234
   /\ side_effect_free (plain (fun v _ _ => or_zero v)))
  /\ exists (r : AudioBuffer.t) (h' : heap),
       map buffer_1234 (plain (fun v _ _ => or_zero v)) store_1234
       = Returned r h'
       /\ numberOfChannels r = numberOfChannels buffer_1234.
Proof.
  assert (Hwf : wf store_1234 buffer_1234).
  { apply (bool_decide_unpack _). vm_compute. exact I. }
  assert (Hfree : side_effect_free (plain (fun v _ _ => or_zero v))).
  { intros this v c i data h. eexists. reflexivity. }
  split; [by split|].
  destruct (map_keeps_shape_and_source store_1234 buffer_1234
              (plain (fun v _ _ => or_zero v)) Hwf Hfree)
    as (r & h' & Hrun & Hnc & _).
  by exists r, h'.
Defined.

(** C8, as it is stated, fails for a producer that writes to its
    receiver: on the one-channel buffer [1, 2, 3, 4], mapping with the
    producer that stores [9] at index 0 of channel 0 of [this] and
    returns the sample it was given returns a buffer [1, 2, 3, 4] and
    leaves the source holding [9, 2, 3, 4]. *)
Lemma map_with_writing_producer_changes_source :
  exists (r : AudioBuffer.t) (h' : heap),
    map buffer_1234 store_nine_in_receiver store_1234 = Returned r h'
    /\ wf store_1234 buffer_1234
    /\ channel store_1234 buffer_1234 0 = Some [f32 1; f32 2; f32 3; f32 4]
    /\ channel h' buffer_1234 0 = Some [f32 9; f32 2; f32 3; f32 4]
    /\ channel h' r 0 = Some [f32 1; f32 2; f32 3; f32 4].
Proof.
  eexists _, _. split; [vm_compute; reflexivity|].
  split; [apply (bool_decide_unpack _); vm_compute; exact I|].
  split_and!; vm_compute; reflexivity.
Qed.

(** ** [slice] *)

Lemma relative_index_range (len i : Z) :
  0 <= len -> 0 <= relative_index len i <= len.
Proof. intros Hlen. unfold relative_index. destruct (Z.ltb_spec i 0); lia. Qed.

(** The first and the last index of a slice, from its arguments. *)
Lemma ta_slice_lookup (a : list sample) (start end_ : option Z) (i : nat) :
  let len := Z.of_nat (length a) in
  let k := relative_index len (default 0 start) in
  let final := match end_ with
               | None => len
               | Some e => relative_index len e
               end in
  ta_slice a start end_ !! i
  = if decide (k + Z.of_nat i < final) then a !! (Z.to_nat k + i)%nat else None.
Proof.
  intros len k final. unfold ta_slice. fold len. fold k. fold final.
  pose proof (relative_index_range len (default 0 start) ltac:(lia)) as Hk.
  fold k in Hk. rewrite lookup_take, lookup_drop.
  repeat case_decide; try done; lia.
Qed.

Lemma length_ta_slice (a : list sample) (start end_ : option Z) :
  let len := Z.of_nat (length a) in
  let k := relative_index len (default 0 start) in
  let final := match end_ with
               | None => len
               | Some e => relative_index len e
               end in
  Z.of_nat (length (ta_slice a start end_)) = Z.max (final - k) 0.
Proof.
  intros len k final. unfold ta_slice. fold len. fold k. fold final.
  pose proof (relative_index_range len (default 0 start) ltac:(lia)) as Hk.
  fold k in Hk.
  assert (final <= len) as Hf.
  { unfold final. destruct end_ as [e|]; [|lia].
    apply relative_index_range. lia. }
  rewrite length_take, length_drop. lia.
Qed.

(** C6, as the code has it: for a well-formed buffer [b] and any [start]
    and [end] (integers, or omitted), [slice(b, start, end)] returns a
    buffer of newly allocated arrays with the channel count and sample
    rate of [b], and leaves every array of the store as it was.  Every
    channel of the result is the range [k, final) of the same channel of
    [b], where a negative [start] or [end] counts back from the end of the
    channel (the length is added to it, and the sum is raised to 0), a
    value above the length is lowered to the length, an omitted [start]
    is 0 and an omitted [end] is the length. *)
Theorem slice_subrange (h : heap) (b : AudioBuffer.t) (start end_ : option Z) :
  wf h b ->
  let len := Z.of_nat (AudioBuffer.length b) in
  let k := match start with
           | None => 0
           | Some s => if s <? 0 then Z.max (len + s) 0 else Z.min s len
           end in
  let final := match end_ with
               | None => len
               | Some e => if e <? 0 then Z.max (len + e) 0 else Z.min e len
               end in
  exists (r : AudioBuffer.t) (h' : heap),
    slice b start end_ h = Returned r h'
    /\ numberOfChannels r = numberOfChannels b
    /\ sampleRate r = sampleRate b
    /\ Z.of_nat (AudioBuffer.length r) = Z.max (final - k) 0
    /\ wf h' r
    /\ (forall l a, h !! l = Some a -> h' !! l = Some a)
    /\ (forall l, l ∈ AudioBuffer.data r ->
                  (length h <= l)%nat /\ l ∉ AudioBuffer.data b)
    /\ (forall c a, channel h b c = Some a ->
          exists a', channel h' r c = Some a'
                     /\ forall i : nat,
                          a' !! i = if decide (k + Z.of_nat i < final)
                                    then a !! (Z.to_nat k + i)%nat
                                    else None).
Proof.
  intros Hwf len k final.
  destruct (per_channel_run b (fun _ a => ta_slice a start end_) h Hwf)
    as (r & ext & Hrun & Hnc & Hsr & Hdata & Hext & Hlen & Hch).
  pose proof Hwf as (Hpos & _).
  assert (Hk : forall a : list sample, length a = AudioBuffer.length b ->
             relative_index (Z.of_nat (length a)) (default 0 start) = k).
  { intros a ->. unfold k, relative_index. fold len. destruct start; simpl; [done|unfold len; lia]. }
  assert (Hf : forall a : list sample, length a = AudioBuffer.length b ->
             match end_ with
             | None => Z.of_nat (length a)
             | Some e => relative_index (Z.of_nat (length a)) e
             end = final).
  { intros a ->. unfold final, relative_index. fold len. by destruct end_. }
  assert (Hslice : forall a : list sample, length a = AudioBuffer.length b ->
             Z.of_nat (length (ta_slice a start end_)) = Z.max (final - k) 0).
  { intros a Ha. rewrite length_ta_slice. cbv zeta. by rewrite Hk, Hf. }
  destruct (wf_channel_Some h b 0 Hwf Hpos) as (a0 & Ha0 & HL0).
  assert (HL : Z.of_nat (AudioBuffer.length r) = Z.max (final - k) 0).
  { rewrite (Hlen a0 Ha0). by apply Hslice. }
  exists r, (h ++ ext). split_and!; [done..| | | |].
  - destruct r as [n rlen rate data]. simpl in *. subst.
    split_and!; simpl; [done|by rewrite length_seq|apply NoDup_seq|].
    apply Forall_lookup. intros c l Hl. pose proof Hl as Hl'.
    apply lookup_seq in Hl' as [-> Hc].
    destruct (wf_channel_Some h b c Hwf Hc) as (a & Ha & HLa).
    specialize (Hch c a Ha). unfold channel in Hch. simpl in Hch.
    rewrite Hl in Hch. simpl in Hch. rewrite Hch. simpl. f_equal.
    apply Nat2Z.inj. rewrite HL. by apply Hslice.
  - intros l a. apply lookup_app_l_Some.
  - intros l Hl. rewrite Hdata in Hl. split.
    + apply elem_of_seq in Hl. lia.
    + by eapply fresh_not_in.
  - intros c a Ha. destruct (channel_lt h b c a Hwf Ha) as [_ HLa].
    eexists. split; [by apply Hch|].
    intros i. rewrite ta_slice_lookup. cbv zeta. by rewrite Hk, Hf.
Qed.

Lemma slice_subrange_witness :
  wf store_1234 buffer_1234
  /\ exists (r : AudioBuffer.t) (h' : heap),
       slice buffer_1234 (Some 1) (Some (-1)) store_1234 = Returned r h'
       /\ Z.of_nat (AudioBuffer.length r) = 2.
Proof.
  assert (Hwf : wf store_1234 buffer_1234).
  { apply (bool_decide_unpack _). vm_compute. exact I. }
  split; [exact Hwf|].
  destruct (slice_subrange store_1234 buffer_1234 (Some 1) (Some (-1)) Hwf)
    as (r & h' & Hrun & _ & _ & Hlen & _).
  by exists r, h'.
Defined.

(** C6, as it is stated, fails: a negative [end] does not mean "to the
    end".  On the one-channel buffer [1, 2, 3, 4], [slice(b, 0, -1)] is
    [1, 2, 3], while the slice to the end, [slice(b, 0)], is
    [1, 2, 3, 4]. *)
Lemma slice_negative_end_is_not_to_the_end :
  exists (r r0 : AudioBuffer.t) (h' h0 : heap),
    slice buffer_1234 (Some 0) (Some (-1)) store_1234 = Returned r h'
    /\ slice buffer_1234 (Some 0) None store_1234 = Returned r0 h0
    /\ channel h' r 0 = Some [f32 1; f32 2; f32 3]
    /\ channel h0 r0 0 = Some [f32 1; f32 2; f32 3; f32 4]
    /\ AudioBuffer.length r <> AudioBuffer.length r0.
Proof.
  eexists _, _, _, _. split_and!; [vm_compute; reflexivity..|].
  vm_compute. lia.
Qed.

(** ** [concat] *)

(** The whole numbers of the scenarios are values of binary32. *)
Example scenario_numbers_are_binary32 :
  Forall (fun z => fround (f32 z) = f32 z) [0; 1; 2; 3; 4; 5; 6; 7; 9; 10].
Proof. repeat constructor. Qed.

Lemma fround_zeros (n : nat) :
  fround <$> replicate n pos_zero = replicate n pos_zero.
Proof. by rewrite fmap_replicate. Qed.

Lemma ta_set_front (n m : nat) (a : list sample) :
  length a = n ->
  ta_set (Float32Array_new (n + m)) a 0
  = Some ((fround <$> a) ++ replicate m pos_zero).
Proof.
  intros Ha. unfold ta_set, Float32Array_new. rewrite length_replicate.
  destruct (Nat.ltb_spec (n + m) (length a + 0)); [lia|].
  simpl. rewrite Ha, drop_replicate. do 3 f_equal. lia.
Qed.

Lemma ta_set_back (n : nat) (front a : list sample) (rest : list sample) :
  length front = n -> length rest = length a ->
  ta_set (front ++ rest) a n = Some (front ++ (fround <$> a)).
Proof.
  intros Hf Hr. unfold ta_set. rewrite length_app.
  destruct (Nat.ltb_spec (length front + length rest) (length a + n)); [lia|].
  rewrite take_app_length' by done.
  rewrite drop_ge by (rewrite length_app; lia). by rewrite app_nil_r.
Qed.

Lemma span_Some (h : heap) (x : AudioBuffer.t) (c : nat) (a : list sample) :
  channel h x c = Some a -> span h x c = a.
Proof. intros Ha. unfold span. by rewrite Ha. Qed.

Lemma span_None (h : heap) (x : AudioBuffer.t) (c : nat) :
  wf h x -> (numberOfChannels x <= c)%nat ->
  span h x c = replicate (AudioBuffer.length x) pos_zero.
Proof.
  intros (_ & Hlen & _) Hc. unfold span, channel.
  rewrite (lookup_ge_None_2 (AudioBuffer.data x) c) by lia. done.
Qed.

Lemma length_span (h : heap) (x : AudioBuffer.t) (c : nat) :
  wf h x -> length (span h x c) = AudioBuffer.length x.
Proof.
  intros Hwf. destruct (decide (c < numberOfChannels x)%nat) as [Hc|Hc].
  - destruct (wf_channel_Some h x c Hwf Hc) as (a & Ha & HL).
    by rewrite (span_Some _ _ _ _ Ha).
  - rewrite span_None by (done || lia). apply length_replicate.
Qed.

(** One round of the loop of [concat]: the new array is the span of
    [bufferA] followed by the span of [bufferB], as a Float32Array holds
    them. *)
Lemma concat2_body (h ext : heap) (bufferA bufferB : AudioBuffer.t)
    (c : nat) (data : list nat) :
  wf h bufferA -> wf h bufferB ->
  (let channelData := Float32Array_new
       (AudioBuffer.length bufferA + AudioBuffer.length bufferB) in
   let* channelData :=
     if (c <? numberOfChannels bufferA)%nat then
       let* ref := getChannelData bufferA c in
       let* a := read ref in
       match ta_set channelData a 0 with
       | Some channelData' => ret channelData'
       | None => throw
       end
     else ret channelData in
   let* channelData :=
     if (c <? numberOfChannels bufferB)%nat then
       let* ref := getChannelData bufferB c in
       let* b := read ref in
       match ta_set channelData b (AudioBuffer.length bufferA) with
       | Some channelData' => ret channelData'
       | None => throw
       end
     else ret channelData in
   let* ref' := alloc channelData in
   ret (data ++ [ref'])) (h ++ ext)
  = Returned (data ++ [length (h ++ ext)])
             (h ++ ext ++ [fround <$> (span h bufferA c ++ span h bufferB c)]).
Proof.
  intros HwfA HwfB. cbv zeta. rewrite fmap_app.
  set (la := AudioBuffer.length bufferA). set (lb := AudioBuffer.length bufferB).
  assert (HA : exists front,
             length front = la /\ front = fround <$> span h bufferA c
             /\ (if (c <? numberOfChannels bufferA)%nat then
                   let* ref := getChannelData bufferA c in
                   let* a := read ref in
                   match ta_set (Float32Array_new (la + lb)) a 0 with
                   | Some channelData' => ret channelData'
                   | None => throw
                   end
                 else ret (Float32Array_new (la + lb))) (h ++ ext)
                = Returned (front ++ replicate lb pos_zero) (h ++ ext)).
  { destruct (Nat.ltb_spec c (numberOfChannels bufferA)) as [Hc|Hc].
    - destruct (wf_channel h bufferA c HwfA Hc) as (l & a & Hl & Ha & HL).
      exists (fround <$> a). split_and!; [by rewrite length_fmap|..].
      + f_equal. symmetry. apply span_Some. by eapply channel_Some.
      + rewrite (bind_Returned _ _ _ _ _ (getChannelData_Some _ _ _ _ Hl)).
        rewrite (bind_Returned _ _ _ _ _
                   (read_Some _ _ _ (lookup_app_l_Some _ ext _ _ Ha))).
        by rewrite ta_set_front.
    - exists (replicate la pos_zero). split_and!.
      + apply length_replicate.
      + by rewrite span_None, fround_zeros.
      + unfold Float32Array_new. by rewrite replicate_add. }
  destruct HA as (front & Hfront & -> & HA).
  rewrite (bind_Returned _ _ _ _ _ HA).
  assert (HB : (if (c <? numberOfChannels bufferB)%nat then
                  let* ref := getChannelData bufferB c in
                  let* b := read ref in
                  match ta_set ((fround <$> span h bufferA c)
                                ++ replicate lb pos_zero) b la with
                  | Some channelData' => ret channelData'
                  | None => throw
                  end
                else ret ((fround <$> span h bufferA c)
                          ++ replicate lb pos_zero)) (h ++ ext)
               = Returned ((fround <$> span h bufferA c)
                           ++ (fround <$> span h bufferB c)) (h ++ ext)).
  { destruct (Nat.ltb_spec c (numberOfChannels bufferB)) as [Hc|Hc].
    - destruct (wf_channel h bufferB c HwfB Hc) as (l & b & Hl & Hb & HL).
      rewrite (bind_Returned _ _ _ _ _ (getChannelData_Some _ _ _ _ Hl)).
      rewrite (bind_Returned _ _ _ _ _
                 (read_Some _ _ _ (lookup_app_l_Some _ ext _ _ Hb))).
      rewrite ta_set_back; [|done|by rewrite length_replicate].
      by rewrite (span_Some h bufferB c b (channel_Some _ _ _ _ _ Hl Hb)).
    - by rewrite (span_None h bufferB c HwfB Hc), fround_zeros. }
  rewrite (bind_Returned _ _ _ _ _ HB).
  unfold bind, alloc, ret. by rewrite <- app_assoc.
Qed.

Lemma concat2_run (h : heap) (bufferA bufferB : AudioBuffer.t) :
  wf h bufferA -> wf h bufferB ->
  let n := Nat.max (numberOfChannels bufferA) (numberOfChannels bufferB) in
  let len := (AudioBuffer.length bufferA + AudioBuffer.length bufferB)%nat in
  let g := fun c => fround <$> (span h bufferA c ++ span h bufferB c) in
  concat2 bufferA bufferB h
  = Returned (AudioBuffer.Build n len
                (Z.max (sampleRate bufferA) (sampleRate bufferB))
                (seq (length h) n))
             (h ++ (g <$> seq 0 n)).
Proof.
  intros HwfA HwfB n len g. unfold concat2. fold n.
  assert (Hn : (0 < n)%nat) by (destruct HwfA; lia).
  rewrite (build_channels g).
  - do 2 f_equal. unfold g. by rewrite length_fmap, length_app, !length_span.
  - done.
  - intros c data ext _. by apply concat2_body.
Qed.

(** C5, as the code has it: for two well-formed buffers [a] and [b],
    [concat(a, b)] returns a buffer of newly allocated arrays, with
    channel count the larger of the two channel counts, length the sum of
    the two lengths and sample rate the larger of the two sample rates.
    The arrays are Float32Arrays: in each channel of the result the first
    [a.length] samples are those of the same channel of [a], each rounded
    to binary32 (so the sample itself when it is a value of 32 bits), or
    zeros when [a] has no such channel, and the next [b.length] samples
    are those of the same channel of [b], rounded likewise, or zeros when
    [b] has no such channel.  Nothing that was in the store changes.
    With more than two arguments [concat] folds from the left:
    [concat(a, b, c, ...) = concat(concat(a, b), c, ...)]. *)
Theorem concat_pairwise_rule (h : heap) (a b : AudioBuffer.t) :
  wf h a -> wf h b ->
  (exists (r : AudioBuffer.t) (h' : heap),
      concat [a; b] h = Returned r h'
      /\ numberOfChannels r = Nat.max (numberOfChannels a) (numberOfChannels b)
      /\ AudioBuffer.length r = (AudioBuffer.length a + AudioBuffer.length b)%nat
      /\ sampleRate r = Z.max (sampleRate a) (sampleRate b)
      /\ wf h' r
      /\ (forall l x, h !! l = Some x -> h' !! l = Some x)
      /\ (forall l, l ∈ AudioBuffer.data r -> (length h <= l)%nat)
      /\ (forall c, (c < numberOfChannels r)%nat ->
            exists d, channel h' r c = Some d
              /\ length d = (AudioBuffer.length a + AudioBuffer.length b)%nat
              /\ (forall i, (i < AudioBuffer.length a)%nat ->
                    d !! i = match channel h a c with
                             | Some x => fround <$> x !! i
                             | None => Some pos_zero
                             end)
              /\ (forall i, (i < AudioBuffer.length b)%nat ->
                    d !! (AudioBuffer.length a + i)%nat
                    = match channel h b c with
                      | Some y => fround <$> y !! i
                      | None => Some pos_zero
                      end)))
  /\ (forall (c : AudioBuffer.t) (rest : list AudioBuffer.t) (h1 : heap),
        concat (a :: b :: c :: rest) h1
        = (let* r := concat [a; b] in concat (r :: c :: rest)) h1).
Proof.
  intros HwfA HwfB. split.
  - eexists _, _. split; [by apply concat2_run|].
    split_and!; simpl; [done..| | | |].
    + apply wf_built; [destruct HwfA; lia|].
      intros c _. by rewrite length_fmap, length_app, !length_span.
    + intros l x. apply lookup_app_l_Some.
    + intros l Hl. apply elem_of_seq in Hl. lia.
    + intros c Hc. eexists. split_and!.
      * by apply channel_built.
      * by rewrite length_fmap, length_app, !length_span.
      * intros i Hi. rewrite list_lookup_fmap.
        rewrite lookup_app_l by (rewrite length_span; done).
        unfold span. destruct (channel h a c); simpl; [done|].
        by rewrite lookup_replicate_2.
      * intros i Hi. rewrite list_lookup_fmap.
        rewrite lookup_app_r by (rewrite length_span; [lia|done]).
        rewrite length_span by done.
        replace (AudioBuffer.length a + i - AudioBuffer.length a)%nat
          with i by lia.
        unfold span. destruct (channel h b c); simpl; [done|].
        by rewrite lookup_replicate_2.
  - intros c rest h1. simpl. unfold bind.
    destruct (concat2 a b h1) as [r h2| |]; [|done..].
    destruct rest; simpl; [by destruct (concat2 r c h2)|done].
Qed.

Lemma concat_pairwise_rule_witness :
  (wf store_12_345 buffer_12 /\ wf store_12_345 buffer_345)
  /\ exists (r : AudioBuffer.t) (h' : heap),
       concat [buffer_12; buffer_345] store_12_345 = Returned r h'
       /\ AudioBuffer.length r = 5%nat.
Proof.
  assert (Hwf1 : wf store_12_345 buffer_12).
  { apply (bool_decide_unpack _). vm_compute. exact I. }
  assert (Hwf2 : wf store_12_345 buffer_345).
  { apply (bool_decide_unpack _). vm_compute. exact I. }
  split; [by split|].
  destruct (concat_pairwise_rule store_12_345 buffer_12 buffer_345 Hwf1 Hwf2)
    as [(r & h' & Hrun & _ & Hlen & _) _].
  by exists r, h'.
Defined.

(** C5, as it is stated, fails on a sample wider than 32 bits: the
    one-channel buffers [0.1, 1] and [2] give the one-channel buffer
    whose first sample is not [0.1] but its rounding to binary32,
    [0.100000001490116...], which [===] tells from [0.1]. *)
Lemma concat_rounds_wide_sample :
  exists (r : AudioBuffer.t) (h' : heap),
    concat [buffer_tenth; buffer_2] store_tenth = Returned r h'
    /\ wf store_tenth buffer_tenth /\ wf store_tenth buffer_2
    /\ channel store_tenth buffer_tenth 0 = Some [tenth; f32 1]
    /\ channel h' r 0 = Some [fround tenth; f32 1; f32 2]
    /\ tenth = S754_finite false 7205759403792794 (-56)
    /\ fround tenth = S754_finite false 7205759511166976 (-56)
    /\ number_eq (fround tenth) tenth = false.
Proof.
  eexists _, _. split; [vm_compute; reflexivity|].
  split; [apply (bool_decide_unpack _); vm_compute; exact I|].
  split; [apply (bool_decide_unpack _); vm_compute; exact I|].
  split_and!; vm_compute; reflexivity.
Qed.

(** The scenario of the specification: [1, 2] and [3, 4, 5] give the
    one-channel buffer [1, 2, 3, 4, 5]. *)
Example concat_12_345 :
  exists (r : AudioBuffer.t) (h' : heap),
    concat [buffer_12; buffer_345] store_12_345 = Returned r h'
    /\ numberOfChannels r = 1%nat /\ AudioBuffer.length r = 5%nat
    /\ channel h' r 0 = Some [f32 1; f32 2; f32 3; f32 4; f32 5].
Proof. eexists _, _. split_and!; vm_compute; reflexivity. Qed.

(** ** [resize] *)

Lemma AudioBuffer_of_length_run (d : defaults) (n : nat) (h : heap) :
  AudioBuffer_of_length d n h
  = Returned (AudioBuffer.Build (default_channels d) n (default_rate d)
                (seq (length h) (default_channels d)))
             (h ++ ((fun _ => Float32Array_new n) <$> seq 0 (default_channels d))).
Proof.
  unfold AudioBuffer_of_length.
  pose proof (for_each_alloc (fun _ => Float32Array_new n)
                (fun (_ : nat) data => let* l := alloc (Float32Array_new n) in
                                       ret (data ++ [l]))
                h (default_channels d) 0%nat [] []) as Hrun.
  rewrite !app_nil_r in Hrun. simpl in Hrun.
  rewrite (bind_Returned _ _ _ _ _ (Hrun ltac:(intros; unfold bind, alloc, ret;
                                               by rewrite <- app_assoc))).
  done.
Qed.

(** The growing branch of [resize], run. *)
Lemma resize_grow_result (d : defaults) (h : heap) (b : AudioBuffer.t) (n : Z) :
  wf h b -> (0 < default_channels d)%nat ->
  Z.of_nat (AudioBuffer.length b) <= n ->
  exists (r : AudioBuffer.t) (h' : heap),
    resize d b n h = Returned r h'
    /\ numberOfChannels r = Nat.max (numberOfChannels b) (default_channels d)
    /\ sampleRate r = Z.max (sampleRate b) (default_rate d)
    /\ Z.of_nat (AudioBuffer.length r) = n
    /\ (forall l x, h !! l = Some x -> h' !! l = Some x)
    /\ (forall l, l ∈ AudioBuffer.data r -> (length h <= l)%nat)
    /\ (forall c, (c < numberOfChannels r)%nat ->
          exists a, channel h' r c = Some a
            /\ Z.of_nat (length a) = n
            /\ (forall i x, channel h b c = Some x ->
                  (i < AudioBuffer.length b)%nat -> a !! i = fround <$> x !! i)
            /\ (forall i, (AudioBuffer.length b <= i)%nat -> Z.of_nat i < n ->
                  a !! i = Some pos_zero)).
Proof.
  intros Hwf Hd Hn. unfold resize.
  destruct (Z.ltb_spec n (Z.of_nat (AudioBuffer.length b))) as [|_]; [lia|].
  set (k := Z.to_nat (n - Z.of_nat (AudioBuffer.length b))).
  rewrite (bind_Returned _ _ _ _ _ (AudioBuffer_of_length_run d k h)).
  set (padding := AudioBuffer.Build (default_channels d) k (default_rate d)
                    (seq (length h) (default_channels d))).
  set (h1 := h ++ ((fun _ => Float32Array_new k) <$> seq 0 (default_channels d))).
  assert (Hwfb : wf h1 b) by by apply wf_app.
  assert (Hwfp : wf h1 padding).
  { apply wf_built; [done|]. intros c _. apply length_Float32Array_new. }
  assert (Hpad : forall c, span h1 padding c = replicate k pos_zero).
  { intros c. destruct (decide (c < default_channels d)%nat) as [Hc|Hc].
    - apply span_Some. unfold h1, padding. by rewrite channel_built.
    - rewrite span_None; [done..|simpl; lia]. }
  simpl. rewrite (concat2_run h1 b padding Hwfb Hwfp). cbv zeta.
  eexists _, _. split; [done|]. simpl. split_and!; [done..| | | |].
  - unfold k. lia.
  - intros l x Hx. apply lookup_app_l_Some. unfold h1. by apply lookup_app_l_Some.
  - intros l Hl. apply elem_of_seq in Hl. unfold h1 in Hl.
    rewrite length_app in Hl. lia.
  - intros c Hc. eexists. split_and!.
    + by apply channel_built.
    + rewrite length_fmap, length_app, !length_span by done.
      simpl. unfold k. lia.
    + intros i x Hx Hi. rewrite list_lookup_fmap.
      rewrite lookup_app_l by (rewrite length_span; done).
      by rewrite (span_Some h1 b c x (channel_app _ _ _ _ _ Hx)).
    + intros i Hi Hin. rewrite list_lookup_fmap.
      rewrite lookup_app_r by (rewrite length_span; done).
      rewrite length_span by done. rewrite Hpad.
      rewrite lookup_replicate_2; [done|]. unfold k. lia.
Qed.

(** X16.  Growing: the result of [resize(b, n)] for [n > b.length],
    whatever the defaults [d] of the one-argument constructor are.  The
    length is [n]; the samples of [b] come first, each rounded to binary32
    since [concat] copies them into a Float32Array (so the sample itself
    when it is a value of 32 bits), and zeros follow; but the channel
    count and the sample rate are the larger of those of [b] and of the
    defaults, since the padding buffer is built from a length alone. *)
Lemma resize_grow (d : defaults) (h : heap) (b : AudioBuffer.t) (n : Z) :
  wf h b -> (0 < default_channels d)%nat ->
  Z.of_nat (AudioBuffer.length b) < n ->
  exists (r : AudioBuffer.t) (h' : heap),
    resize d b n h = Returned r h'
    /\ numberOfChannels r = Nat.max (numberOfChannels b) (default_channels d)
    /\ sampleRate r = Z.max (sampleRate b) (default_rate d)
    /\ Z.of_nat (AudioBuffer.length r) = n
    /\ (forall l x, h !! l = Some x -> h' !! l = Some x)
    /\ (forall l, l ∈ AudioBuffer.data r -> (length h <= l)%nat)
    /\ (forall c, (c < numberOfChannels r)%nat ->
          exists a, channel h' r c = Some a
            /\ Z.of_nat (length a) = n
            /\ (forall i x, channel h b c = Some x ->
                  (i < AudioBuffer.length b)%nat ->
                  a !! i = fround <$> x !! i
                  /\ (forall s, x !! i = Some s -> fround s = s ->
                                a !! i = Some s))
            /\ (forall i, (AudioBuffer.length b <= i)%nat -> Z.of_nat i < n ->
                  a !! i = Some pos_zero)).
Proof.
  intros Hwf Hd Hn.
  destruct (resize_grow_result d h b n Hwf Hd ltac:(lia))
    as (r & h' & Hrun & Hnc & Hsr & HL & Hframe & Hfresh & Hch).
  exists r, h'. split_and!; [done..|].
  intros c Hc. destruct (Hch c Hc) as (a & Ha & HLa & Hlow & Hhigh).
  exists a. split_and!; [done..| |done].
  intros i x Hx Hi. split; [by apply Hlow|].
  intros s Hs Hfix. by rewrite (Hlow i x Hx Hi), Hs; simpl; rewrite Hfix.
Qed.

(** So the shape of [b] is kept exactly when [b] has at least as many
    channels as the defaults and at least their sample rate. *)
Lemma resize_grow_keeps_shape_iff (d : defaults) (h : heap)
    (b : AudioBuffer.t) (n : Z) :
  wf h b -> (0 < default_channels d)%nat ->
  Z.of_nat (AudioBuffer.length b) <= n ->
  exists (r : AudioBuffer.t) (h' : heap),
    resize d b n h = Returned r h'
    /\ (numberOfChannels r = numberOfChannels b /\ sampleRate r = sampleRate b
        <-> (default_channels d <= numberOfChannels b)%nat
            /\ default_rate d <= sampleRate b).
Proof.
  intros Hwf Hd Hn.
  destruct (resize_grow_result d h b n Hwf Hd Hn)
    as (r & h' & Hrun & Hnc & Hsr & _).
  exists r, h'. split; [done|]. rewrite Hnc, Hsr. lia.
Qed.

(** C1 at the failing input: with the defaults of the audio-buffer
    package (two channels), [resize(b, 3)] of the one-channel buffer
    [1, 2] is a buffer of two channels, [1, 2, 0] and [0, 0, 0]: the
    channel count of [b] is not kept. *)
Theorem resize_grow_changes_channel_count :
  exists (r : AudioBuffer.t) (h' : heap),
    resize audio_buffer_defaults buffer_12 3 store_12_345 = Returned r h'
    /\ numberOfChannels buffer_12 = 1%nat
    /\ numberOfChannels r = 2%nat
    /\ channel h' r 0 = Some [f32 1; f32 2; pos_zero]
    /\ channel h' r 1 = Some [pos_zero; pos_zero; pos_zero].
Proof. eexists _, _. split_and!; vm_compute; reflexivity. Qed.

(** ** [rotate] *)

(** Beyond the safe integers the sum of two Numbers is rounded:
    [2^53 + 1] is [2^53], so that [i++] leaves [i] where it is, and
    [2^53 + 3] is [2^53 + 4]. *)
Example sums_beyond_the_safe_integers :
  SFadd 53 1024 (f32 (2 ^ 53)) (f32 1) = f32 (2 ^ 53)
  /\ SFadd 53 1024 (f32 (2 ^ 53)) (f32 3) = f32 (2 ^ 53 + 4)
  /\ SFadd 53 1024 (f32 max_safe_integer) (f32 1) = f32 (max_safe_integer + 1).
Proof. split_and!; vm_compute; reflexivity. Qed.

(** For an offset that [rotate_exact] admits, the numbers that the loop
    of [rotate] forms at index [i] are safe integers. *)
Lemma rotate_exact_sums (l offset i : Z) :
  rotate_exact l offset -> 0 <= i < l ->
  Z.abs (offset + i) <= max_safe_integer
  /\ Z.abs (l + i) <= max_safe_integer
  /\ Z.abs (offset + (l + i)) <= max_safe_integer
  /\ Z.abs (rotate_index offset l i) <= max_safe_integer.
Proof.
  unfold rotate_exact, rotate_index. intros Hexact Hi.
  split_and!; [lia..|].
  destruct (offset + i <? 0).
  - pose proof (Z.rem_bound_abs (offset + (l + i)) l ltac:(lia)). lia.
  - pose proof (Z.rem_bound_abs (offset + i) l ltac:(lia)). lia.
Qed.

(** When the offset is not below [-l], the index formula is the
    remainder of [i + offset] in [0, l). *)
Lemma rotate_index_mod (offset l i : Z) :
  0 <= i < l -> - l <= offset ->
  rotate_index offset l i = (i + offset) mod l.
Proof.
  intros Hi Ho. unfold rotate_index.
  destruct (Z.ltb_spec (offset + i) 0) as [Hneg|Hpos].
  - rewrite Z.rem_small by lia.
    replace (i + offset) with ((offset + (l + i)) + (-1) * l) by lia.
    rewrite Z_mod_plus_full. symmetry. apply Z.mod_small. lia.
  - rewrite Z.rem_mod_nonneg by lia. f_equal. lia.
Qed.

Lemma mod_shift_back (l o j : Z) :
  0 <= j < l -> ((j - o) mod l + o) mod l = j.
Proof.
  intros Hj. rewrite Zplus_mod_idemp_l.
  replace (j - o + o) with j by lia. apply Z.mod_small. lia.
Qed.

Lemma mod_shift_forth (l o i : Z) :
  0 <= i < l -> ((i + o) mod l - o) mod l = i.
Proof.
  intros Hi. rewrite Zminus_mod_idemp_l.
  replace (i + o - o) with i by lia. apply Z.mod_small. lia.
Qed.

(** The state of the live array after the first [n] rounds of the loop:
    index [j] has received the sample of the snapshot that maps to it,
    if that sample has been reached. *)
Lemma rotate_loop_prefix (offset : Z) (srcData cData : list sample) (n : nat) :
  let l := Z.of_nat (length cData) in
  length srcData = length cData -> - l <= offset -> (n <= length cData)%nat ->
  let r := foldl (fun cData i =>
                    ta_put cData (rotate_index offset l (Z.of_nat i))
                           (ta_get srcData (Z.of_nat i)))
                 cData (seq 0 n) in
  length r = length cData
  /\ forall j : nat, (j < length cData)%nat ->
       r !! j = if decide ((Z.of_nat j - offset) mod l < Z.of_nat n)
                then srcData !! Z.to_nat ((Z.of_nat j - offset) mod l)
                else cData !! j.
Proof.
  intros l Hsrc Ho.
  assert (Hl : l = Z.of_nat (length cData)) by done. clearbody l.
  induction n as [|n IH]; intros Hn r.
  - split; [done|]. intros j Hj. unfold r. simpl.
    case_decide as Hlt; [|done].
    pose proof (Z.mod_pos_bound (Z.of_nat j - offset) l ltac:(lia)). lia.
  - destruct IH as [IHlen IH]; [lia|].
    unfold r. rewrite seq_S, foldl_app. simpl.
    set (r0 := foldl _ cData (seq 0 n)) in *.
    rewrite rotate_index_mod by lia.
    pose proof (Z.mod_pos_bound (Z.of_nat n + offset) l ltac:(lia)) as Hp.
    rewrite <- (Z2Nat.id ((Z.of_nat n + offset) mod l)) by lia.
    rewrite ta_put_nat, ta_get_nat.
    destruct (lookup_lt_is_Some_2 srcData n) as [x Hx]; [lia|].
    rewrite Hx. simpl. split; [by rewrite length_insert|].
    intros j Hj.
    destruct (decide (Z.to_nat ((Z.of_nat n + offset) mod l) = j)) as [Heq|Hne].
    + rewrite <- Heq at 1. rewrite list_lookup_insert_eq by lia.
      assert ((Z.of_nat j - offset) mod l = Z.of_nat n) as ->.
      { rewrite <- Heq. rewrite Z2Nat.id by lia. apply mod_shift_forth. lia. }
      rewrite decide_True by lia. by rewrite Nat2Z.id.
    + rewrite list_lookup_insert_ne by done. rewrite IH by done.
      assert ((Z.of_nat j - offset) mod l <> Z.of_nat n) as Hn'.
      { intros Heq. apply Hne. rewrite <- Heq.
        rewrite mod_shift_back by lia. apply Nat2Z.id. }
      repeat case_decide; try done; lia.
Qed.

(** The whole loop, for an offset that is not below [-l]: a circular
    shift. *)
Lemma rotate_loop_spec (offset : Z) (cData : list sample) :
  let l := Z.of_nat (length cData) in
  - l <= offset ->
  length (rotate_loop offset cData cData) = length cData
  /\ forall j : nat, (j < length cData)%nat ->
       rotate_loop offset cData cData !! j
       = cData !! Z.to_nat ((Z.of_nat j - offset) mod l).
Proof.
  intros l Ho.
  destruct (rotate_loop_prefix offset cData cData (length cData))
    as [Hlen Hr]; [done..|].
  split; [done|]. intros j Hj. unfold rotate_loop. rewrite Hr by done.
  rewrite decide_True; [done|].
  apply Z.mod_pos_bound. unfold l. lia.
Qed.

(** The sample at index [i] moves to index [(i + offset) mod l]. *)
Lemma rotate_loop_moves (offset : Z) (cData : list sample) (i : nat) :
  let l := Z.of_nat (length cData) in
  - l <= offset -> (i < length cData)%nat ->
  rotate_loop offset cData cData !! Z.to_nat ((Z.of_nat i + offset) mod l)
  = cData !! i.
Proof.
  intros l Ho Hi. destruct (rotate_loop_spec offset cData Ho) as [_ Hr].
  fold l in Hr. assert (Hl : l = Z.of_nat (length cData)) by done. clearbody l.
  pose proof (Z.mod_pos_bound (Z.of_nat i + offset) l ltac:(lia)) as Hp.
  rewrite Hr by lia. rewrite Z2Nat.id by lia.
  rewrite mod_shift_forth by lia. by rewrite Nat2Z.id.
Qed.

(** Rotating by [k] and then by [-k] gives the array back, when [k] is
    between [-l] and [l]. *)
Lemma rotate_loop_inverse (k : Z) (cData : list sample) :
  let l := Z.of_nat (length cData) in
  - l <= k <= l ->
  let r := rotate_loop k cData cData in
  rotate_loop (- k) r r = cData.
Proof.
  intros l Hk r.
  assert (Hl : l = Z.of_nat (length cData)) by done.
  destruct (rotate_loop_spec k cData) as [Hlen Hr]; [lia|].
  fold r in Hlen, Hr. fold l in Hr.
  destruct (rotate_loop_spec (- k) r) as [Hlen' Hr']; [lia|].
  rewrite Hlen in Hr'. fold l in Hr'. clearbody l r.
  apply list_eq_same_length with (length cData); [done|lia|].
  intros j x y Hj Hx Hy. rewrite Hr' in Hx by lia.
  pose proof (Z.mod_pos_bound (Z.of_nat j - - k) l ltac:(lia)) as Hp.
  rewrite Hr in Hx by lia. rewrite Z2Nat.id in Hx by lia.
  replace (Z.of_nat j - - k) with (Z.of_nat j + k) in Hx by lia.
  rewrite mod_shift_forth in Hx by lia. rewrite Nat2Z.id in Hx. congruence.
Qed.

Lemma rotate_run (h : heap) (b : AudioBuffer.t) (offset : Z) :
  wf h b ->
  exists h' : heap,
    rotate b offset h = Returned b h'
    /\ length h' = length h
    /\ (forall c a, channel h b c = Some a ->
                    channel h' b c = Some (rotate_loop offset a a))
    /\ (forall l, l ∉ AudioBuffer.data b -> h' !! l = h !! l).
Proof.
  intros Hwf.
  destruct (in_place_wf b (fun _ a => rotate_loop offset a a)
              (fun channel (_ : unit) =>
                 let* ref := getChannelData b channel in
                 let* cData := read ref in
                 let srcData := ta_slice cData None None in
                 write ref (rotate_loop offset srcData cData))
              h Hwf) as (h' & Hrun & Hlen & Hin & Hout).
  { intros c l a h1 Hl Ha HL.
    read_channel Hl Ha.
    cbv zeta. rewrite ta_slice_whole. by eapply write_Some. }
  exists h'. split_and!; [|done..].
  unfold rotate. by rewrite (bind_Returned _ _ _ _ _ Hrun).
Qed.

(** C3 at the failing input: [rotate(b, -5)] on the one-channel buffer
    [1, 2, 3, 4].  The sample at index 0 should move to index
    [(0 - 5) mod 4 = 3]; the formula gives [-1] for it, the write is
    dropped, and the result is [2, 3, 4, 4]: the sample [1] is lost and
    index 3 keeps its old value. *)
Theorem rotate_below_minus_length_loses_sample :
  exists h' : heap,
    rotate buffer_1234 (-5) store_1234 = Returned buffer_1234 h'
    /\ channel h' buffer_1234 0 = Some [f32 2; f32 3; f32 4; f32 4]
    /\ rotate_index (-5) 4 0 = -1
    /\ (0 + -5) mod 4 = 3.
Proof. eexists. split_and!; vm_compute; reflexivity. Qed.

(** The scenario of the specification: [rotate(b, 1)] and
    [rotate(b, -1)] on [1, 2, 3, 4]. *)
Example rotate_1234_by_1 :
  exists h' : heap,
    rotate buffer_1234 1 store_1234 = Returned buffer_1234 h'
    /\ channel h' buffer_1234 0 = Some [f32 4; f32 1; f32 2; f32 3].
Proof. eexists. split; vm_compute; reflexivity. Qed.

Example rotate_1234_by_minus_1 :
  exists h' : heap,
    rotate buffer_1234 (-1) store_1234 = Returned buffer_1234 h'
    /\ channel h' buffer_1234 0 = Some [f32 2; f32 3; f32 4; f32 1].
Proof. eexists. split; vm_compute; reflexivity. Qed.

(** X18: for an offset that is not below minus the length, and that
    keeps the sums of the index formula within the safe integers,
    [rotate] is the circular shift: the sample at index [i] moves to
    [(i + offset) mod l]. *)
Lemma rotate_moves (h : heap) (b : AudioBuffer.t) (offset : Z) :
  wf h b -> - Z.of_nat (AudioBuffer.length b) <= offset ->
  rotate_exact (Z.of_nat (AudioBuffer.length b)) offset ->
  exists h' : heap,
    rotate b offset h = Returned b h'
    /\ forall c a, channel h b c = Some a ->
         exists a', channel h' b c = Some a'
           /\ length a' = length a
           /\ forall i : nat, (i < AudioBuffer.length b)%nat ->
                a' !! Z.to_nat ((Z.of_nat i + offset)
                                mod Z.of_nat (AudioBuffer.length b))
                = a !! i.
Proof.
  intros Hwf Ho _.
  destruct (rotate_run h b offset Hwf) as (h' & Hrun & _ & Hin & _).
  exists h'. split; [done|]. intros c a Ha.
  destruct (channel_lt h b c a Hwf Ha) as [_ HL].
  exists (rotate_loop offset a a). split_and!; [by apply Hin|..].
  - apply rotate_loop_spec. lia.
  - intros i Hi. rewrite <- HL. apply rotate_loop_moves; lia.
Qed.

(** ** [equal] *)

Lemma first_mismatch_seq (dataA dataB : list sample) (n s : nat) :
  match first_mismatch dataA dataB (seq s n) with
  | None => forall i, (s <= i < s + n)%nat ->
              strict_neq (ta_get dataA (Z.of_nat i)) (ta_get dataB (Z.of_nat i))
              = false
  | Some i => (s <= i < s + n)%nat
              /\ strict_neq (ta_get dataA (Z.of_nat i)) (ta_get dataB (Z.of_nat i))
                 = true
              /\ forall j, (s <= j < i)%nat ->
                   strict_neq (ta_get dataA (Z.of_nat j)) (ta_get dataB (Z.of_nat j))
                   = false
  end.
Proof.
  revert s. induction n as [|n IH]; intros s; cbn [first_mismatch seq].
  - intros i Hi. lia.
  - destruct (strict_neq (ta_get dataA (Z.of_nat s)) (ta_get dataB (Z.of_nat s)))
      eqn:Hs.
    + split; [lia|split; [done|]]. intros j Hj. lia.
    + specialize (IH (S s)).
      destruct (first_mismatch dataA dataB (seq (S s) n)) as [i|].
      * destruct IH as (Hi & Hne & Hbefore). split; [lia|split; [done|]].
        intros j Hj. destruct (decide (j = s)) as [->|]; [done|].
        apply Hbefore. lia.
      * intros i Hi. destruct (decide (i = s)) as [->|]; [done|].
        apply IH. lia.
Qed.

Lemma compared_indices_seq (dataA dataB : list sample) (n s : nat) :
  compared_indices dataA dataB (seq s n)
  = match first_mismatch dataA dataB (seq s n) with
    | None => seq s n
    | Some i => seq s (S i - s)
    end.
Proof.
  revert s. induction n as [|n IH]; intros s;
    cbn [first_mismatch compared_indices seq]; [done|].
  destruct (strict_neq (ta_get dataA (Z.of_nat s)) (ta_get dataB (Z.of_nat s))).
  - by replace (S s - s)%nat with 1%nat by lia.
  - rewrite IH. pose proof (first_mismatch_seq dataA dataB n (S s)) as Hfm.
    destruct (first_mismatch dataA dataB (seq (S s) n)) as [i|]; [|done].
    destruct Hfm as (Hi & _).
    replace (S i - s)%nat with (S (S i - S s)) by lia. done.
Qed.

Lemma strict_neq_false (xs ys : list sample) (i : nat) :
  length xs = length ys ->
  strict_neq (ta_get xs (Z.of_nat i)) (ta_get ys (Z.of_nat i)) = false
  <-> forall x y, xs !! i = Some x -> ys !! i = Some y -> number_eq x y = true.
Proof.
  intros Hlen. rewrite !ta_get_nat.
  destruct (xs !! i) as [x|] eqn:Hx.
  - destruct (lookup_lt_is_Some_2 ys i) as [y Hy].
    { apply lookup_lt_Some in Hx. lia. }
    rewrite Hy. simpl. split.
    + intros Hne x' y' [= <-] [= <-]. by destruct (number_eq x y).
    + intros Heq. by rewrite (Heq x y).
  - rewrite (lookup_ge_None_2 ys i).
    { simpl. split; [by intros|done]. }
    apply lookup_ge_None_1 in Hx. lia.
Qed.

Lemma positions_cons (c0 n len : nat) :
  positions c0 (S n) len = (pair c0 <$> seq 0 len) ++ positions (S c0) n len.
Proof. done. Qed.

Lemma mismatch_inv (h : heap) (a b : AudioBuffer.t) (c i : nat)
    (xs ys : list sample) :
  channel h a c = Some xs -> channel h b c = Some ys ->
  mismatch h a b c i
  <-> strict_neq (ta_get xs (Z.of_nat i)) (ta_get ys (Z.of_nat i)) = true.
Proof.
  intros Hx Hy. split.
  - intros (x & y & Hx' & Hy' & Hne). congruence.
  - intros Hne. by exists xs, ys.
Qed.

(** The two loops of [equal] on buffers of the same shape: they stop at
    the first position, channel by channel and index by index, at which
    the buffers differ, having compared the positions up to it and no
    other; they run through when there is none. *)
Lemma scan_channels_spec (h : heap) (a b : AudioBuffer.t) (n : nat) :
  wf h a -> wf h b ->
  numberOfChannels a = numberOfChannels b ->
  AudioBuffer.length a = AudioBuffer.length b ->
  forall c0, (c0 + n <= numberOfChannels a)%nat ->
  exists stop,
    scan_channels a b (seq c0 n) h = Returned stop h
    /\ compared a b (seq c0 n) h
       = Returned (match stop with
                   | None => positions c0 n (AudioBuffer.length a)
                   | Some (c, i) =>
                       positions c0 (c - c0) (AudioBuffer.length a)
                       ++ (pair c <$> seq 0 (S i))
                   end) h
    /\ match stop with
       | None => forall c i, (c0 <= c < c0 + n)%nat -> ~ mismatch h a b c i
       | Some (c, i) =>
           (c0 <= c < c0 + n)%nat /\ (i < AudioBuffer.length a)%nat
           /\ mismatch h a b c i
           /\ forall c' i', (c0 <= c')%nat -> before c' i' c i ->
                            ~ mismatch h a b c' i'
       end.
Proof.
  intros Hwfa Hwfb Hnc Hlen. induction n as [|n IH]; intros c0 Hc0.
  - exists None. split_and!; [done..|]. intros c i Hc. lia.
  - destruct (wf_channel h a c0 Hwfa) as (la & xs & Hla & Hxs & HLx); [lia|].
    destruct (wf_channel h b c0 Hwfb) as (lb & ys & Hlb & Hys & HLy); [lia|].
    pose proof (channel_Some _ _ _ _ _ Hla Hxs) as Hcx.
    pose proof (channel_Some _ _ _ _ _ Hlb Hys) as Hcy.
    cbn [seq scan_channels compared].
    rewrite !(bind_Returned _ _ _ _ _ (getChannelData_Some _ _ _ _ Hla)).
    rewrite !(bind_Returned _ _ _ _ _ (read_Some _ _ _ Hxs)).
    rewrite !(bind_Returned _ _ _ _ _ (getChannelData_Some _ _ _ _ Hlb)).
    rewrite !(bind_Returned _ _ _ _ _ (read_Some _ _ _ Hys)).
    rewrite compared_indices_seq.
    pose proof (first_mismatch_seq xs ys (length xs) 0) as Hfm.
    destruct (first_mismatch xs ys (seq 0 (length xs))) as [i|].
    + destruct Hfm as (Hi & Hne & Hbefore).
      exists (Some (c0, i)). rewrite Nat.sub_diag, Nat.sub_0_r.
      split; [done|]. split; [done|]. split; [lia|]. split; [lia|]. split.
      * by apply (mismatch_inv h a b c0 i xs ys).
      * intros c' i' Hc' [Hlt|[-> Hlt]]; [lia|].
        rewrite (mismatch_inv h a b c0 i' xs ys) by done.
        rewrite Hbefore by lia. done.
    + destruct (IH (S c0)) as (stop & Hscan & Hcmp & Hstop); [lia|].
      exists stop. split; [done|]. split.
      * rewrite (bind_Returned _ _ _ _ _ Hcmp). unfold ret. f_equal.
        destruct stop as [[c i]|].
        -- destruct Hstop as (Hc & _).
           replace (c - c0)%nat with (S (c - S c0)) by lia.
           rewrite positions_cons, HLx. by rewrite <- app_assoc.
        -- by rewrite positions_cons, HLx.
      * destruct stop as [[c i]|].
        -- destruct Hstop as (Hc & Hi & Hmis & Hbefore).
           split; [lia|]. split; [done|]. split; [done|].
           intros c' i' Hc' Hb.
           destruct (decide (c' = c0)) as [->|Hne].
           ++ rewrite (mismatch_inv h a b c0 i' xs ys) by done.
              destruct (decide (i' < length xs)%nat) as [Hi'|Hi'].
              ** rewrite Hfm by lia. done.
              ** rewrite !ta_get_nat.
                 rewrite (lookup_ge_None_2 xs i') by lia.
                 rewrite (lookup_ge_None_2 ys i') by lia. done.
           ++ apply Hbefore; [lia|done].
        -- intros c i Hc. destruct (decide (c = c0)) as [->|Hne].
           ++ rewrite (mismatch_inv h a b c0 i xs ys) by done.
              destruct (decide (i < length xs)%nat) as [Hi'|Hi'].
              ** rewrite Hfm by lia. done.
              ** rewrite !ta_get_nat.
                 rewrite (lookup_ge_None_2 xs i) by lia.
                 rewrite (lookup_ge_None_2 ys i) by lia. done.
           ++ apply Hstop. lia.
Qed.

Lemma no_mismatch_samples (h : heap) (a b : AudioBuffer.t) :
  wf h a -> wf h b -> AudioBuffer.length a = AudioBuffer.length b ->
  (forall c i, ~ mismatch h a b c i)
  <-> (forall c i xs ys x y,
         channel h a c = Some xs -> channel h b c = Some ys ->
         xs !! i = Some x -> ys !! i = Some y -> number_eq x y = true).
Proof.
  intros Hwfa Hwfb Hlen. split.
  - intros Hno c i xs ys x y Hxs Hys Hx Hy.
    specialize (Hno c i). rewrite (mismatch_inv h a b c i xs ys) in Hno by done.
    rewrite !ta_get_nat, Hx, Hy in Hno. simpl in Hno.
    by destruct (number_eq x y).
  - intros Hall c i (xs & ys & Hxs & Hys & Hne).
    destruct (channel_lt h a c xs Hwfa Hxs) as [_ HLx].
    destruct (channel_lt h b c ys Hwfb Hys) as [_ HLy].
    assert (strict_neq (ta_get xs (Z.of_nat i)) (ta_get ys (Z.of_nat i)) = false)
      as Hfalse.
    { apply strict_neq_false; [lia|]. intros x y. by apply (Hall c i xs ys). }
    congruence.
Qed.

Lemma equal2_spec (h : heap) (a b : AudioBuffer.t) :
  wf h a -> wf h b ->
  exists res : bool,
    equal2 a b h = Returned res h
    /\ (res = true
        <-> AudioBuffer.length a = AudioBuffer.length b
            /\ numberOfChannels a = numberOfChannels b
            /\ forall c i, ~ mismatch h a b c i).
Proof.
  intros Hwfa Hwfb. unfold equal2.
  destruct (Nat.eqb_spec (AudioBuffer.length a) (AudioBuffer.length b)) as [Hlen|Hlen];
    simpl.
  2: { exists false. split; [done|]. split; [done|]. by intros (? & _). }
  destruct (Nat.eqb_spec (numberOfChannels a) (numberOfChannels b)) as [Hnc|Hnc];
    simpl.
  2: { exists false. split; [done|]. split; [done|]. by intros (_ & ? & _). }
  destruct (scan_channels_spec h a b (numberOfChannels a) Hwfa Hwfb Hnc Hlen 0%nat)
    as (stop & Hscan & _ & Hstop); [lia|].
  rewrite (bind_Returned _ _ _ _ _ Hscan).
  destruct stop as [[c i]|].
  - exists false. split; [done|]. split; [done|].
    intros (_ & _ & Hno). destruct Hstop as (_ & _ & Hmis & _).
    by destruct (Hno c i).
  - exists true. split; [done|]. split; [|done]. intros _.
    split; [done|]. split; [done|]. intros c i Hmis.
    destruct (decide (c < numberOfChannels a)%nat) as [Hc|Hc].
    + apply (Hstop c i); [lia|done].
    + destruct Hmis as (xs & _ & Hxs & _).
      destruct (channel_lt h a c xs Hwfa Hxs). lia.
Qed.

Lemma equal_adjacent_spec (h : heap) (rest : list AudioBuffer.t) :
  forall first : AudioBuffer.t,
    wf h first -> Forall (wf h) rest ->
    exists res : bool,
      equal_adjacent first rest h = Returned res h
      /\ (res = true
          <-> forall k x y, (first :: rest) !! k = Some x ->
                            (first :: rest) !! S k = Some y ->
                            equal2 x y h = Returned true h).
Proof.
  induction rest as [|next rest IH]; intros first Hwf Hrest.
  - exists true. split; [done|]. split; [|done].
    intros _ k x y Hx Hy. by destruct k.
  - apply Forall_cons_1 in Hrest as [Hnext Hrest].
    destruct (equal2_spec h first next Hwf Hnext) as (same & Hsame & _).
    cbn [equal_adjacent]. rewrite (bind_Returned _ _ _ _ _ Hsame).
    destruct same.
    + destruct (IH next Hnext Hrest) as (res & Hres & Hiff).
      exists res. split; [done|]. rewrite Hiff. split.
      * intros Hall [|k] x y Hx Hy.
        -- simpl in Hx, Hy. by simplify_eq.
        -- by apply (Hall k).
      * intros Hall k x y Hx Hy. by apply (Hall (S k)).
    + exists false. split; [done|]. split; [done|].
      intros Hall. specialize (Hall 0%nat first next eq_refl eq_refl).
      congruence.
Qed.

(** C7: [equal] on well-formed buffers.  Called with exactly two, it
    returns true exactly when they have the same length, the same channel
    count, and at every index of every channel samples that are equal
    under [===] (equality of the values with no tolerance; as for every
    JavaScript number, [NaN] is not equal to itself and [+0] equals
    [-0]).  Called with more than two, it returns true exactly when each
    argument is equal to the next.  When two buffers of the same shape
    differ, the loops return false at the first position at which they
    differ, channel by channel and index by index, and the positions they
    have compared are those up to that one: no later sample is
    examined. *)
Theorem equal_pairwise_chained (h : heap) (arguments : list AudioBuffer.t) :
  Forall (wf h) arguments -> (2 <= length arguments)%nat ->
  exists res : bool,
    equal arguments h = Returned res h
    /\ (forall a b, arguments = [a; b] ->
          (res = true
           <-> AudioBuffer.length a = AudioBuffer.length b
               /\ numberOfChannels a = numberOfChannels b
               /\ forall c i xs ys x y,
                    channel h a c = Some xs -> channel h b c = Some ys ->
                    xs !! i = Some x -> ys !! i = Some y ->
                    number_eq x y = true))
    /\ ((2 < length arguments)%nat ->
          (res = true
           <-> forall k x y, arguments !! k = Some x ->
                             arguments !! S k = Some y ->
                             equal [x; y] h = Returned true h))
    /\ (forall a b c i, arguments = [a; b] ->
          AudioBuffer.length a = AudioBuffer.length b ->
          numberOfChannels a = numberOfChannels b ->
          mismatch h a b c i ->
          (forall c' i', before c' i' c i -> ~ mismatch h a b c' i') ->
          res = false
          /\ scan_channels a b (seq 0 (numberOfChannels a)) h
             = Returned (Some (c, i)) h
          /\ compared a b (seq 0 (numberOfChannels a)) h
             = Returned (positions 0 c (AudioBuffer.length a)
                         ++ (pair c <$> seq 0 (S i))) h).
Proof.
  intros Hwf Hlen.
  destruct arguments as [|a [|b rest]]; [simpl in Hlen; lia..|].
  apply Forall_cons_1 in Hwf as [Hwfa Hwf].
  pose proof Hwf as Hwf'. apply Forall_cons_1 in Hwf' as [Hwfb Hrest].
  destruct rest as [|c0 rest].
  - destruct (equal2_spec h a b Hwfa Hwfb) as (res & Hres & Hiff).
    exists res. split; [done|]. split; [|split].
    + intros a' b' [= <- <-]. rewrite Hiff. split.
      * intros (HL & Hnc & Hno). split; [done|]. split; [done|].
        by apply no_mismatch_samples.
      * intros (HL & Hnc & Hall). split; [done|]. split; [done|].
        by apply no_mismatch_samples.
    + simpl. lia.
    + intros a' b' c i [= <- <-] HL Hnc Hmis Hbefore.
      destruct (scan_channels_spec h a b (numberOfChannels a) Hwfa Hwfb Hnc HL 0%nat)
        as (stop & Hscan & Hcmp & Hstop); [lia|].
      destruct stop as [[c' i']|].
      * destruct Hstop as (Hc' & Hi' & Hmis' & Hbefore').
        assert (c' = c /\ i' = i) as [-> ->].
        { destruct (decide (c' = c)) as [->|Hne].
          - split; [done|]. destruct (decide (i' = i)) as [|Hne]; [done|].
            destruct (decide (i' < i)%nat).
            + destruct (Hbefore c i'); [right; lia|done].
            + destruct (Hbefore' c i); [lia|right; lia|done].
          - destruct (decide (c' < c)%nat).
            + destruct (Hbefore c' i'); [left; lia|done].
            + destruct (Hbefore' c i); [lia|left; lia|done]. }
        rewrite Nat.sub_0_r in Hcmp. split; [|done].
        destruct res; [|done].
        destruct (proj1 Hiff eq_refl) as (_ & _ & Hno).
        by destruct (Hno c i).
      * destruct Hmis as (xs & ys & Hxs & Hys & Hne).
        destruct (channel_lt h a c xs Hwfa Hxs) as [Hc _].
        destruct (Hstop c i); [lia|]. by exists xs, ys.
  - destruct (equal_adjacent_spec h (b :: c0 :: rest) a Hwfa Hwf)
      as (res & Hres & Hiff).
    exists res. split; [done|]. split; [|split].
    + intros a' b' [=].
    + intros _. done.
    + intros a' b' c i [=].
Qed.

Lemma equal_pairwise_chained_witness :
  (Forall (wf store_12_345) [buffer_12; buffer_345; buffer_345]
   /\ (2 <= length [buffer_12; buffer_345; buffer_345])%nat)
  /\ exists res : bool,
       equal [buffer_12; buffer_345; buffer_345] store_12_345
       = Returned res store_12_345.
Proof.
  assert (Hwf1 : wf store_12_345 buffer_12).
  { apply (bool_decide_unpack _). vm_compute. exact I. }
  assert (Hwf2 : wf store_12_345 buffer_345).
  { apply (bool_decide_unpack _). vm_compute. exact I. }
  assert (Hall : Forall (wf store_12_345) [buffer_12; buffer_345; buffer_345]).
  { apply Forall_cons_2; [exact Hwf1|].
    apply Forall_cons_2; [exact Hwf2|].
    apply Forall_cons_2; [exact Hwf2|]. apply Forall_nil_2. }
  assert (Hlen : (2 <= length [buffer_12; buffer_345; buffer_345])%nat).
  { simpl. lia. }
  split; [by split|].
  destruct (equal_pairwise_chained store_12_345
              [buffer_12; buffer_345; buffer_345] Hall Hlen) as (res & Hrun & _).
  by exists res.
Defined.

(** ** The round trip of [rotate] *)

Lemma number_eq_refl (x : sample) : is_nan x = false -> number_eq x x = true.
Proof.
  intros Hx. unfold number_eq, SFeqb, SFcompare.
  destruct x as [s|s| |s m e]; [done|by destruct s|done|].
  destruct s; rewrite Z.compare_refl, Pos.compare_cont_refl; done.
Qed.

Lemma nan_free_channel (h : heap) (b : AudioBuffer.t) (c : nat)
    (a : list sample) (i : nat) (x : sample) :
  nan_free h b -> channel h b c = Some a -> a !! i = Some x -> is_nan x = false.
Proof.
  intros Hfree Ha Hx. unfold channel in Ha.
  destruct (AudioBuffer.data b !! c) as [l|] eqn:Hl; [|done]. simpl in Ha.
  unfold nan_free in Hfree. rewrite Forall_lookup in Hfree.
  specialize (Hfree c l Hl). rewrite Ha in Hfree. simpl in Hfree.
  rewrite forallb_forall in Hfree.
  specialize (Hfree x). destruct (is_nan x); [|done].
  assert (In x a) as Hin by (apply list_elem_of_In, list_elem_of_lookup; eauto).
  by specialize (Hfree Hin).
Qed.

Lemma length_foldl_put {A} (f : list sample -> A -> Z)
    (g : list sample -> A -> value) (xs : list A) (c : list sample) :
  length (foldl (fun c x => ta_put c (f c x) (g c x)) c xs) = length c.
Proof.
  revert c. induction xs as [|x xs IH]; intros c; simpl; [done|].
  by rewrite IH, length_ta_put.
Qed.

Lemma length_rotate_loop (offset : Z) (srcData cData : list sample) :
  length (rotate_loop offset srcData cData) = length cData.
Proof.
  unfold rotate_loop.
  apply (length_foldl_put
           (fun _ i => rotate_index offset (Z.of_nat (length cData)) (Z.of_nat i))
           (fun _ i => ta_get srcData (Z.of_nat i))).
Qed.

(** A buffer stays well formed, with the same samples, when none of its
    arrays is touched. *)
Lemma wf_frame (h h' : heap) (b : AudioBuffer.t) :
  wf h b -> (forall l, l ∈ AudioBuffer.data b -> h' !! l = h !! l) ->
  wf h' b /\ forall c, channel h' b c = channel h b c.
Proof.
  intros (Hpos & Hlen & Hnd & Hall) Hsame. split.
  - split_and!; [done..|]. apply Forall_lookup. intros c l Hl.
    rewrite Forall_lookup in Hall. rewrite Hsame; [by apply (Hall c)|].
    apply list_elem_of_lookup. by exists c.
  - intros c. unfold channel.
    destruct (AudioBuffer.data b !! c) as [l|] eqn:Hl; [|done]. simpl.
    apply Hsame. apply list_elem_of_lookup. by exists c.
Qed.

Lemma clone_run (h : heap) (b : AudioBuffer.t) :
  wf h b ->
  exists (r : AudioBuffer.t) (ext : heap),
    clone b h = Returned r (h ++ ext)
    /\ numberOfChannels r = numberOfChannels b
    /\ AudioBuffer.length r = AudioBuffer.length b
    /\ sampleRate r = sampleRate b
    /\ wf (h ++ ext) r
    /\ (forall l, l ∈ AudioBuffer.data r -> l ∉ AudioBuffer.data b)
    /\ (forall c a, channel h b c = Some a -> channel (h ++ ext) r c = Some a).
Proof.
  intros Hwf.
  destruct (per_channel_run b (fun _ a => a) h Hwf)
    as (r & ext & Hrun & Hnc & Hsr & Hdata & Hext & Hlen & Hch).
  pose proof Hwf as (Hpos & _).
  destruct (wf_channel_Some h b 0 Hwf Hpos) as (a0 & Ha0 & HL0).
  assert (HL : AudioBuffer.length r = AudioBuffer.length b).
  { by rewrite (Hlen a0 Ha0). }
  exists r, ext. split_and!; [done..| | |done].
  - destruct r as [n len rate data]. simpl in *. subst.
    split_and!; simpl; [done|by rewrite length_seq|apply NoDup_seq|].
    apply Forall_lookup. intros c l Hl. pose proof Hl as Hl'.
    apply lookup_seq in Hl' as [-> Hc].
    destruct (wf_channel_Some h b c Hwf Hc) as (a & Ha & HLa).
    specialize (Hch c a Ha). unfold channel in Hch. simpl in Hch.
    rewrite Hl in Hch. simpl in Hch. rewrite Hch. simpl. f_equal. congruence.
  - intros l Hl. rewrite Hdata in Hl. by eapply fresh_not_in.
Qed.

(** [rotate] on one buffer leaves another buffer alone when they share
    no array. *)
Lemma rotate_frame (h : heap) (r b : AudioBuffer.t) (k : Z) :
  wf h r -> wf h b ->
  (forall l, l ∈ AudioBuffer.data r -> l ∉ AudioBuffer.data b) ->
  exists h' : heap,
    rotate r k h = Returned r h'
    /\ wf h' r /\ wf h' b
    /\ (forall c a, channel h r c = Some a ->
                    channel h' r c = Some (rotate_loop k a a))
    /\ (forall c, channel h' b c = channel h b c).
Proof.
  intros Hwfr Hwfb Hdisj.
  destruct (rotate_run h r k Hwfr) as (h' & Hrun & Hlen & Hin & Hout).
  destruct (wf_frame h h' b Hwfb) as [Hwfb' Hsame].
  { intros l Hl. apply Hout. intros Hr. by apply (Hdisj l). }
  exists h'. split_and!; [done| |done..].
  apply (wf_in_place r (fun _ a => rotate_loop k a a) h h'); [done| |done].
  intros c a Ha. by rewrite length_rotate_loop.
Qed.


(** C2, as the code has it: for a well-formed buffer [b] none of whose
    samples is [NaN], and an integer [k] whose absolute value is at most
    the length of [b], [equal(rotate(rotate(clone(b), k), -k), b)]
    returns true, and [b] itself is not changed. *)
Theorem rotate_round_trip_equal (h : heap) (b : AudioBuffer.t) (k : Z) :
  wf h b -> nan_free h b ->
  - Z.of_nat (AudioBuffer.length b) <= k <= Z.of_nat (AudioBuffer.length b) ->
  exists h' : heap,
    rotate_round_trip b k h = Returned true h'
    /\ forall c a, channel h b c = Some a -> channel h' b c = Some a.
Proof.
  intros Hwf Hfree Hk. unfold rotate_round_trip.
  destruct (clone_run h b Hwf)
    as (r & ext & Hclone & Hnc & HL & Hsr & Hwfr & Hdisj & Hcopy).
  rewrite (bind_Returned _ _ _ _ _ Hclone).
  pose proof (wf_app h ext b Hwf) as Hwfb1.
  destruct (rotate_frame (h ++ ext) r b k Hwfr Hwfb1 Hdisj)
    as (h2 & Hrun2 & Hwfr2 & Hwfb2 & Hin2 & Hsame2).
  rewrite (bind_Returned _ _ _ _ _ Hrun2).
  destruct (rotate_frame h2 r b (- k) Hwfr2 Hwfb2 Hdisj)
    as (h3 & Hrun3 & Hwfr3 & Hwfb3 & Hin3 & Hsame3).
  rewrite (bind_Returned _ _ _ _ _ Hrun3).
  assert (Hb3 : forall c a, channel h b c = Some a -> channel h3 b c = Some a).
  { intros c a Ha. rewrite Hsame3, Hsame2. by apply channel_app. }
  assert (Hr3 : forall c a, channel h b c = Some a -> channel h3 r c = Some a).
  { intros c a Ha. destruct (channel_lt h b c a Hwf Ha) as [_ HLa].
    rewrite (Hin3 c (rotate_loop k a a)); [|by apply Hin2, Hcopy].
    f_equal. apply rotate_loop_inverse. lia. }
  destruct (equal2_spec h3 r b Hwfr3 Hwfb3) as (res & Hres & Hiff).
  exists h3. split; [|done]. simpl. rewrite Hres. f_equal.
  apply Hiff. split; [done|]. split; [done|].
  intros c i (xs & ys & Hxs & Hys & Hne).
  destruct (channel_lt h3 b c ys Hwfb3 Hys) as [Hc _].
  destruct (wf_channel_Some h b c Hwf Hc) as (a & Ha & _).
  rewrite (Hr3 c a Ha) in Hxs. rewrite (Hb3 c a Ha) in Hys.
  injection Hxs as <-. injection Hys as <-.
  rewrite ta_get_nat in Hne. destruct (a !! i) as [x|] eqn:Hx; [|done].
  simpl in Hne. rewrite number_eq_refl in Hne; [done|].
  by eapply nan_free_channel.
Qed.

Lemma rotate_round_trip_equal_witness :
  (wf store_1234 buffer_1234 /\ nan_free store_1234 buffer_1234
   /\ - Z.of_nat (AudioBuffer.length buffer_1234) <= -3
      <= Z.of_nat (AudioBuffer.length buffer_1234))
  /\ exists h' : heap,
       rotate_round_trip buffer_1234 (-3) store_1234 = Returned true h'.
Proof.
  assert (Hwf : wf store_1234 buffer_1234).
  { apply (bool_decide_unpack _). vm_compute. exact I. }
  assert (Hfree : nan_free store_1234 buffer_1234).
  { apply (bool_decide_unpack _). vm_compute. exact I. }
  assert (Hk : - Z.of_nat (AudioBuffer.length buffer_1234) <= -3
               <= Z.of_nat (AudioBuffer.length buffer_1234)).
  { simpl. lia. }
  split; [by split_and!|].
  destruct (rotate_round_trip_equal store_1234 buffer_1234 (-3) Hwf Hfree Hk)
    as (h' & Hrun & _).
  by exists h'.
Defined.

(** C2, as it is stated, fails: on the one-channel buffer whose only
    sample is [NaN], rotating by 1 and back gives the same samples, and
    [equal] returns false, since [NaN !== NaN]. *)
Lemma rotate_round_trip_nan_not_equal :
  exists h' : heap,
    rotate_round_trip buffer_nan 1 store_nan = Returned false h'
    /\ channel h' buffer_nan 0 = Some [NaN]
    /\ wf store_nan buffer_nan.
Proof.
  eexists. split_and!; [vm_compute; reflexivity..|].
  apply (bool_decide_unpack _). vm_compute. exact I.
Qed.

(** ** [shift] *)

(** For an offset up to the length that [shift_exact] admits, the numbers
    that the loops of [shift] form are safe integers: the bound
    [l - offset], and at each index [i] that a loop visits, [i] itself
    and the destination [i + offset]. *)
Lemma shift_exact_sums (l offset i : Z) :
  shift_exact l offset -> 0 <= l -> offset <= l ->
  (if 0 <? offset then 0 <= i <= l - offset else - offset <= i <= l - offset) ->
  Z.abs (l - offset) <= max_safe_integer
  /\ Z.abs (- offset) <= max_safe_integer
  /\ Z.abs i <= max_safe_integer
  /\ Z.abs (i + 1) <= max_safe_integer + 1
  /\ Z.abs (i + offset) <= max_safe_integer.
Proof.
  unfold shift_exact. intros Hexact Hl Ho Hi.
  destruct (Z.ltb_spec 0 offset); lia.
Qed.

(** The descending loop of the positive branch, entered at [i = n] with
    the samples from [n + o] on already moved: it ends, with the first
    [o] samples as they were and every other sample moved up by [o]. *)
Lemma shift_right_loop_inv (o : nat) (d : list sample) :
  forall (n fuel : nat) (c : list sample),
    (n < fuel)%nat -> (n + o <= length d)%nat -> length c = length d ->
    (forall j, (j < n + o)%nat -> c !! j = d !! j) ->
    (forall j, (n + o <= j < length d)%nat -> c !! j = d !! (j - o)%nat) ->
    exists c',
      shift_right_loop fuel (Z.of_nat o) (Z.of_nat n) c = Some c'
      /\ length c' = length d
      /\ (forall j, (j < o)%nat -> c' !! j = d !! j)
      /\ (forall j, (o <= j < length d)%nat -> c' !! j = d !! (j - o)%nat).
Proof.
  induction n as [|n IH]; intros fuel c Hfuel Hn Hlen Hlow Hhigh.
  - destruct fuel as [|fuel]; [lia|]. exists c. simpl.
    split_and!; [done..| |]; intros j Hj; [apply Hlow|apply Hhigh]; lia.
  - destruct fuel as [|fuel]; [lia|]. cbn [shift_right_loop].
    destruct (Z.eqb_spec (Z.of_nat (S n)) 0) as [|_]; [lia|].
    replace (Z.of_nat (S n) - 1) with (Z.of_nat n) by lia.
    rewrite <- Nat2Z.inj_add, ta_put_nat, ta_get_nat.
    destruct (lookup_lt_is_Some_2 d n) as [x Hx]; [lia|].
    rewrite (Hlow n), Hx by lia. simpl.
    apply IH; [lia|lia|by rewrite length_insert| |].
    + intros j Hj. rewrite list_lookup_insert_ne by lia. apply Hlow. lia.
    + intros j Hj. destruct (decide (j = n + o)%nat) as [->|Hne].
      * rewrite list_lookup_insert_eq by lia.
        replace (n + o - o)%nat with n by lia. done.
      * rewrite list_lookup_insert_ne by lia. apply Hhigh. lia.
Qed.

Lemma shift_right_loop_spec (offset : Z) (d : list sample) (fuel : nat) :
  0 < offset <= Z.of_nat (length d) ->
  Z.of_nat (length d) - offset < Z.of_nat fuel ->
  exists c',
    shift_right_loop fuel offset (Z.of_nat (length d) - offset) d = Some c'
    /\ length c' = length d
    /\ (forall j : nat, Z.of_nat j < offset -> c' !! j = d !! j)
    /\ (forall j : nat, offset <= Z.of_nat j < Z.of_nat (length d) ->
          c' !! j = d !! Z.to_nat (Z.of_nat j - offset)).
Proof.
  intros Ho Hfuel.
  destruct (shift_right_loop_inv (Z.to_nat offset) d
              (length d - Z.to_nat offset) fuel d)
    as (c' & Hrun & Hlen & Hlow & Hhigh); [lia|lia|done|done| |].
  { intros j Hj. lia. }
  exists c'. rewrite Z2Nat.id in Hrun by lia.
  replace (Z.of_nat (length d - Z.to_nat offset))
    with (Z.of_nat (length d) - offset) in Hrun by lia.
  split_and!; [done..| |].
  - intros j Hj. apply Hlow. lia.
  - intros j Hj. rewrite Hhigh by lia. f_equal. lia.
Qed.

(** Entered with a negative [i], which is what [cData.length - offset]
    is when the offset exceeds the length, the loop never reaches
    [i = 0]: whatever the bound, it has not returned. *)
Lemma shift_right_loop_diverges (fuel : nat) (offset i : Z) (c : list sample) :
  i < 0 -> shift_right_loop fuel offset i c = None.
Proof.
  revert i c. induction fuel as [|fuel IH]; intros i c Hi; [done|].
  cbn [shift_right_loop].
  destruct (Z.eqb_spec i 0) as [|_]; [lia|]. apply IH. lia.
Qed.

(** The ascending loop of the other branch, after [k] rounds. *)
Lemma shift_left_loop_prefix (o : nat) (d : list sample) (k : nat) :
  (k <= length d)%nat ->
  let r := foldl (fun cData i =>
                    ta_put cData (i + - Z.of_nat o) (or_zero (ta_get cData i)))
                 d (seqZ (Z.of_nat o) (Z.of_nat k)) in
  length r = length d
  /\ (forall j, (j < k)%nat ->
        r !! j = Some (to_number (or_zero (ta_get d (Z.of_nat (j + o))))))
  /\ (forall j, (k <= j)%nat -> r !! j = d !! j).
Proof.
  induction k as [|k IH]; intros Hk r.
  - split_and!; [done| |done]. intros j Hj. lia.
  - destruct IH as (IHlen & IHlow & IHhigh); [lia|].
    unfold r. rewrite seqZ_S, foldl_app. simpl.
    set (r0 := foldl _ d (seqZ (Z.of_nat o) (Z.of_nat k))) in *.
    replace (Z.of_nat o + Z.of_nat k + - Z.of_nat o) with (Z.of_nat k) by lia.
    rewrite <- Nat2Z.inj_add, ta_put_nat, !ta_get_nat.
    rewrite IHhigh by lia.
    split_and!.
    + by rewrite length_insert.
    + intros j Hj. destruct (decide (j = k)) as [->|Hne].
      * rewrite list_lookup_insert_eq by lia.
        rewrite ta_get_nat. by rewrite (Nat.add_comm k o).
      * rewrite list_lookup_insert_ne by lia. apply IHlow. lia.
    + intros j Hj. rewrite list_lookup_insert_ne by lia. apply IHhigh. lia.
Qed.

Lemma shift_left_loop_spec (offset : Z) (d : list sample) :
  offset <= 0 ->
  length (shift_left_loop offset d) = length d
  /\ forall j : nat, (j < length d)%nat ->
       shift_left_loop offset d !! j
       = Some (to_number (or_zero (ta_get d (Z.of_nat j - offset)))).
Proof.
  intros Ho. unfold shift_left_loop.
  replace (Z.of_nat (length d) - offset - - offset)
    with (Z.of_nat (length d)) by lia.
  destruct (shift_left_loop_prefix (Z.to_nat (- offset)) d (length d))
    as (Hlen & Hlow & _); [done|].
  rewrite Z2Nat.id in Hlen, Hlow by lia.
  replace (- - offset) with offset in Hlen, Hlow by lia.
  split; [done|]. intros j Hj. rewrite Hlow by done.
  do 4 f_equal. lia.
Qed.

Lemma shift_left_run (fuel : nat) (h : heap) (b : AudioBuffer.t) (offset : Z) :
  wf h b -> offset <= 0 ->
  exists h' : heap,
    shift fuel b offset h = Returned b h'
    /\ length h' = length h
    /\ (forall c a, channel h b c = Some a ->
                    channel h' b c = Some (shift_left_loop offset a))
    /\ (forall l, l ∉ AudioBuffer.data b -> h' !! l = h !! l).
Proof.
  intros Hwf Ho.
  destruct (in_place_wf b (fun _ a => shift_left_loop offset a)
              (fun channel (_ : unit) =>
                 let* ref := getChannelData b channel in
                 let* cData := read ref in
                 if 0 <? offset then
                   match shift_right_loop fuel offset
                           (Z.of_nat (length cData) - offset) cData with
                   | Some cData' => write ref cData'
                   | None => fun _ => Unfinished
                   end
                 else write ref (shift_left_loop offset cData))
              h Hwf) as (h' & Hrun & Hlen & Hin & Hout).
  { intros c l a h1 Hl Ha HL.
    read_channel Hl Ha.
    destruct (Z.ltb_spec 0 offset); [lia|]. by eapply write_Some. }
  exists h'. split_and!; [|done..].
  unfold shift. by rewrite (bind_Returned _ _ _ _ _ Hrun).
Qed.

Lemma shift_right_run (fuel : nat) (h : heap) (b : AudioBuffer.t) (offset : Z) :
  wf h b -> 0 < offset <= Z.of_nat (AudioBuffer.length b) ->
  Z.of_nat (AudioBuffer.length b) - offset < Z.of_nat fuel ->
  exists h' : heap,
    shift fuel b offset h = Returned b h'
    /\ length h' = length h
    /\ (forall c a, channel h b c = Some a ->
          exists a', channel h' b c = Some a'
            /\ shift_right_loop fuel offset (Z.of_nat (length a) - offset) a
               = Some a')
    /\ (forall l, l ∉ AudioBuffer.data b -> h' !! l = h !! l).
Proof.
  intros Hwf Ho Hfuel.
  set (f := fun (_ : nat) (a : list sample) =>
              default a (shift_right_loop fuel offset
                           (Z.of_nat (length a) - offset) a)).
  assert (Hf : forall (c : nat) (a : list sample),
             length a = AudioBuffer.length b ->
             shift_right_loop fuel offset (Z.of_nat (length a) - offset) a
             = Some (f c a)).
  { intros c a HL.
    destruct (shift_right_loop_spec offset a fuel) as (c' & Hc' & _); [lia..|].
    unfold f. by rewrite Hc'. }
  destruct (in_place_wf b f
              (fun channel (_ : unit) =>
                 let* ref := getChannelData b channel in
                 let* cData := read ref in
                 if 0 <? offset then
                   match shift_right_loop fuel offset
                           (Z.of_nat (length cData) - offset) cData with
                   | Some cData' => write ref cData'
                   | None => fun _ => Unfinished
                   end
                 else write ref (shift_left_loop offset cData))
              h Hwf) as (h' & Hrun & Hlen & Hin & Hout).
  { intros c l a h1 Hl Ha HL.
    read_channel Hl Ha.
    destruct (Z.ltb_spec 0 offset); [|lia].
    rewrite (Hf c a HL). by eapply write_Some. }
  exists h'. split_and!; [|done| |done].
  - unfold shift. by rewrite (bind_Returned _ _ _ _ _ Hrun).
  - intros c a Ha. destruct (channel_lt h b c a Hwf Ha) as [_ HL].
    exists (f c a). split; [by apply Hin|by apply Hf].
Qed.

(** X21: with an offset above the length the call does not return: the
    loop of the first channel starts from a negative [i] and counts down,
    so whatever the bound on the iterations it is used up. *)
Lemma shift_beyond_length_unfinished (fuel : nat) (h : heap)
    (b : AudioBuffer.t) (offset : Z) :
  wf h b -> Z.of_nat (AudioBuffer.length b) < offset ->
  shift fuel b offset h = Unfinished.
Proof.
  intros Hwf Ho. pose proof Hwf as (Hpos & _).
  destruct (wf_channel h b 0 Hwf Hpos) as (l & a & Hl & Ha & HL).
  unfold shift. destruct (numberOfChannels b) as [|n]; [lia|].
  cbn [seq for_each]. unfold bind at 1 2.
  read_channel Hl Ha.
  destruct (Z.ltb_spec 0 offset); [|lia].
  by rewrite shift_right_loop_diverges by lia.
Qed.

Lemma shift_beyond_length_unfinished_witness :
  (wf store_1234 buffer_1234 /\ Z.of_nat (AudioBuffer.length buffer_1234) < 5)
  /\ shift 1000 buffer_1234 5 store_1234 = Unfinished.
Proof.
  assert (Hwf : wf store_1234 buffer_1234).
  { apply (bool_decide_unpack _). vm_compute. exact I. }
  assert (Ho : Z.of_nat (AudioBuffer.length buffer_1234) < 5).
  { simpl. lia. }
  split; [by split|].
  exact (shift_beyond_length_unfinished 1000 store_1234 buffer_1234 5 Hwf Ho).
Defined.

(** C4, as the code has it: for a well-formed buffer and an integer
    offset that is at most the length and that keeps the numbers of the
    loops within the safe integers (its magnitude and the length add up
    to [2^53 - 1] at most), [shift(buffer, offset)] returns
    the buffer, and in each channel: when [offset > 0], the samples at the
    indices below [offset] are as they were before the call, and every
    other index [j] holds the sample that was at [j - offset]; when
    [offset <= 0], every index [j] holds [data[j - offset] || 0] of the
    samples before the call: [0] when [j - offset] is past the end, so the
    vacated trailing positions are zero-filled, [0] too when the sample
    there is [NaN] or a zero, and the sample itself otherwise. *)
Theorem shift_asymmetric (fuel : nat) (h : heap) (b : AudioBuffer.t)
    (offset : Z) :
  wf h b -> offset <= Z.of_nat (AudioBuffer.length b) ->
  shift_exact (Z.of_nat (AudioBuffer.length b)) offset ->
  (0 < offset -> Z.of_nat (AudioBuffer.length b) - offset < Z.of_nat fuel) ->
  exists h' : heap,
    shift fuel b offset h = Returned b h'
    /\ (forall l, l ∉ AudioBuffer.data b -> h' !! l = h !! l)
    /\ forall c a, channel h b c = Some a ->
         exists a', channel h' b c = Some a'
           /\ length a' = length a
           /\ (0 < offset ->
                 (forall j : nat, Z.of_nat j < offset -> a' !! j = a !! j)
                 /\ (forall j : nat,
                       offset <= Z.of_nat j < Z.of_nat (AudioBuffer.length b) ->
                       a' !! j = a !! Z.to_nat (Z.of_nat j - offset)))
           /\ (offset <= 0 ->
                 forall j : nat, (j < AudioBuffer.length b)%nat ->
                   a' !! j = Some (to_number
                                     (or_zero (ta_get a (Z.of_nat j - offset))))
                   /\ (Z.of_nat (AudioBuffer.length b) <= Z.of_nat j - offset ->
                         a' !! j = Some pos_zero)
                   /\ (forall x, a !! Z.to_nat (Z.of_nat j - offset) = Some x ->
                         truthy (Number x) = true -> a' !! j = Some x)).
Proof.
  intros Hwf Ho _ Hfuel. destruct (Z.ltb_spec 0 offset) as [Hpos|Hneg].
  - destruct (shift_right_run fuel h b offset Hwf) as (h' & Hrun & _ & Hin & Hout);
      [lia|by apply Hfuel|].
    exists h'. split; [done|]. split; [done|]. intros c a Ha.
    destruct (channel_lt h b c a Hwf Ha) as [_ HL].
    destruct (Hin c a Ha) as (a' & Ha' & Hloop).
    destruct (shift_right_loop_spec offset a fuel)
      as (c' & Hc' & Hlen & Hlow & Hhigh); [lia|specialize (Hfuel Hpos); lia|].
    assert (c' = a') as -> by congruence.
    exists a'. split; [done|]. split; [done|]. split; [|lia].
    intros _. split; [done|]. intros j Hj. apply Hhigh. lia.
  - destruct (shift_left_run fuel h b offset Hwf Hneg)
      as (h' & Hrun & _ & Hin & Hout).
    exists h'. split; [done|]. split; [done|]. intros c a Ha.
    destruct (channel_lt h b c a Hwf Ha) as [_ HL].
    destruct (shift_left_loop_spec offset a Hneg) as [Hlen Hspec].
    exists (shift_left_loop offset a).
    split; [by apply Hin|]. split; [done|]. split; [lia|].
    intros _ j Hj. rewrite Hspec by lia. split; [done|]. split.
    + intros Hpast. unfold ta_get.
      destruct (Z.ltb_spec (Z.of_nat j - offset) 0); [done|].
      rewrite lookup_ge_None_2 by lia. done.
    + intros x Hx Htruthy. unfold ta_get.
      destruct (Z.ltb_spec (Z.of_nat j - offset) 0); [lia|].
      rewrite Hx. unfold or_zero. by rewrite Htruthy.
Qed.

Lemma shift_asymmetric_witness :
  (wf store_1234 buffer_1234
   /\ 1 <= Z.of_nat (AudioBuffer.length buffer_1234)
   /\ shift_exact (Z.of_nat (AudioBuffer.length buffer_1234)) 1
   /\ (0 < 1 -> Z.of_nat (AudioBuffer.length buffer_1234) - 1 < Z.of_nat 4))
  /\ exists h' : heap,
       shift 4 buffer_1234 1 store_1234 = Returned buffer_1234 h'.
Proof.
  assert (Hwf : wf store_1234 buffer_1234).
  { apply (bool_decide_unpack _). vm_compute. exact I. }
  assert (Ho : 1 <= Z.of_nat (AudioBuffer.length buffer_1234)).
  { simpl. lia. }
  assert (He : shift_exact (Z.of_nat (AudioBuffer.length buffer_1234)) 1).
  { unfold shift_exact, max_safe_integer. simpl. lia. }
  assert (Hfuel : 0 < 1 ->
            Z.of_nat (AudioBuffer.length buffer_1234) - 1 < Z.of_nat 4).
  { simpl. lia. }
  split; [by split_and!|].
  destruct (shift_asymmetric 4 store_1234 buffer_1234 1 Hwf Ho He Hfuel)
    as (h' & Hrun & _).
  by exists h'.
Defined.

(** C4, as it is stated, fails: on the one-channel buffer [1, NaN, 2],
    [shift(b, -1)] reads index 1, which is in range, for destination 0,
    and stores [0] there, not the sample read: the result is [0, 2, 0]. *)
Lemma shift_left_replaces_in_range_sample :
  exists h' : heap,
    shift 0 buffer_1_nan_2 (-1) store_1_nan_2 = Returned buffer_1_nan_2 h'
    /\ channel store_1_nan_2 buffer_1_nan_2 0 = Some [f32 1; NaN; f32 2]
    /\ channel h' buffer_1_nan_2 0 = Some [pos_zero; f32 2; pos_zero]
    /\ [pos_zero; f32 2; pos_zero] <> [NaN; f32 2; pos_zero].
Proof. eexists. split_and!; [vm_compute; reflexivity..|done]. Qed.

(** C10, as the code has it: for a well-formed buffer and an offset
    that is not positive and keeps the numbers of the loop within the
    safe integers, [shift] stores [cData[i] || 0] at each destination, so
    a [NaN] that is read is written as [0].  For [offset = 0] every
    sample [x] of the buffer becomes [x || 0]: every [NaN] becomes [0], so
    does every [-0] (it becomes [+0]), and every other sample is left as
    it is; so [shift(b, 0)] changes every channel that holds a [NaN]. *)
Theorem shift_nonpositive_writes_nan_as_zero (fuel : nat) (h : heap)
    (b : AudioBuffer.t) (offset : Z) :
  wf h b -> offset <= 0 ->
  shift_exact (Z.of_nat (AudioBuffer.length b)) offset ->
  exists h' : heap,
    shift fuel b offset h = Returned b h'
    /\ forall c a, channel h b c = Some a ->
         exists a', channel h' b c = Some a'
           /\ length a' = length a
           /\ (forall j : nat, (j < length a)%nat ->
                 a' !! j = Some (to_number
                                   (or_zero (ta_get a (Z.of_nat j - offset)))))
           /\ (forall j : nat, (j < length a)%nat ->
                 a !! Z.to_nat (Z.of_nat j - offset) = Some NaN ->
                 a' !! j = Some pos_zero)
           /\ (offset = 0 ->
                 (forall j x, a !! j = Some x ->
                    a' !! j = Some (if truthy (Number x) then x else pos_zero))
                 /\ (forall j, a !! j = Some NaN -> a' !! j = Some pos_zero)
                 /\ (forall j, a !! j = Some neg_zero -> a' !! j = Some pos_zero)
                 /\ (forall j x, a !! j = Some x -> x <> NaN -> x <> neg_zero ->
                       a' !! j = Some x)
                 /\ (NaN ∈ a -> a' <> a)).
Proof.
  intros Hwf Ho _.
  destruct (shift_left_run fuel h b offset Hwf Ho) as (h' & Hrun & _ & Hin & _).
  exists h'. split; [done|]. intros c a Ha.
  destruct (shift_left_loop_spec offset a Ho) as [Hlen Hspec].
  exists (shift_left_loop offset a).
  split; [by apply Hin|]. split; [done|]. split; [done|].
  assert (Hzero : forall j x, offset = 0 -> a !! j = Some x ->
            shift_left_loop offset a !! j
            = Some (if truthy (Number x) then x else pos_zero)).
  { intros j x -> Hx. rewrite Hspec by (by eapply lookup_lt_Some).
    rewrite Z.sub_0_r, ta_get_nat, Hx. unfold or_zero.
    by destruct (truthy (Number x)). }
  split; [|intros Hoffset; split_and!].
  - intros j Hj Hnan. rewrite Hspec by done. unfold ta_get.
    destruct (Z.ltb_spec (Z.of_nat j - offset) 0); [lia|]. by rewrite Hnan.
  - intros j x Hx. by apply Hzero.
  - intros j Hj. by rewrite (Hzero j NaN).
  - intros j Hj. by rewrite (Hzero j neg_zero).
  - intros j x Hx Hnan Hneg. rewrite (Hzero j x) by done.
    destruct x as [s|s| |s m e]; simpl; [|done..]. by destruct s.
  - intros Hin' Heq. apply list_elem_of_lookup in Hin' as [j Hj].
    pose proof (Hzero j NaN Hoffset Hj) as Hz. rewrite Heq, Hj in Hz. done.
Qed.

Lemma shift_nonpositive_writes_nan_as_zero_witness :
  (wf store_1_nan_2 buffer_1_nan_2 /\ 0 <= 0
   /\ shift_exact (Z.of_nat (AudioBuffer.length buffer_1_nan_2)) 0)
  /\ exists h' : heap,
       shift 0 buffer_1_nan_2 0 store_1_nan_2 = Returned buffer_1_nan_2 h'.
Proof.
  assert (Hwf : wf store_1_nan_2 buffer_1_nan_2).
  { apply (bool_decide_unpack _). vm_compute. exact I. }
  assert (Ho : 0 <= 0) by lia.
  assert (He : shift_exact (Z.of_nat (AudioBuffer.length buffer_1_nan_2)) 0).
  { unfold shift_exact, max_safe_integer. simpl. lia. }
  split; [by split_and!|].
  destruct (shift_nonpositive_writes_nan_as_zero 0 store_1_nan_2
              buffer_1_nan_2 0 Hwf Ho He) as (h' & Hrun & _).
  by exists h'.
Defined.

(** C10, as it is stated, fails: [shift(b, 0)] does not leave every
    sample other than [NaN] unchanged.  On the two-channel buffer
    [1, -0, NaN] and [4, 5, 6] it stores [+0] where channel 0 held [-0]:
    the channel becomes [1, +0, +0]. *)
Lemma shift_by_zero_rewrites_negative_zero :
  exists h' : heap,
    shift 0 buffer_stereo 0 store_stereo = Returned buffer_stereo h'
    /\ wf store_stereo buffer_stereo
    /\ channel store_stereo buffer_stereo 0 = Some [f32 1; neg_zero; NaN]
    /\ channel h' buffer_stereo 0 = Some [f32 1; pos_zero; pos_zero]
    /\ is_nan neg_zero = false
    /\ neg_zero <> pos_zero.
Proof.
  eexists. split; [vm_compute; reflexivity|].
  split; [apply (bool_decide_unpack _); vm_compute; exact I|].
  split_and!; [vm_compute; reflexivity..|done].
Qed.

(** [shift(b, 0)] on [1, NaN, 2] gives [1, 0, 2]. *)
Example shift_1_nan_2_by_0 :
  exists h' : heap,
    shift 0 buffer_1_nan_2 0 store_1_nan_2 = Returned buffer_1_nan_2 h'
    /\ channel h' buffer_1_nan_2 0 = Some [f32 1; pos_zero; f32 2].
Proof. eexists. split; vm_compute; reflexivity. Qed.

(** * Further properties *)

(** ** [fill] with a function, [invert] and [map] *)

(** The ascending loop of the callable branch, after [k] rounds: the
    first [k] samples have been replaced, each by the producer's result
    on the sample that was there. *)
Lemma fill_fn_loop_spec (f : value -> nat -> nat -> value) (channel k : nat)
    (data : list sample) :
  length (fill_fn_loop f channel k data) = length data
  /\ (forall j, (j < k)%nat ->
        fill_fn_loop f channel k data !! j
        = (fun x => to_number (f (Number x) channel j)) <$> data !! j)
  /\ (forall j, (k <= j)%nat -> fill_fn_loop f channel k data !! j = data !! j).
Proof.
  unfold fill_fn_loop. induction k as [|k IH].
  - split_and!; [done| |done]. intros j Hj. lia.
  - destruct IH as (IHlen & IHlow & IHhigh).
    rewrite seq_S, foldl_app. cbn [foldl Nat.add].
    set (r := foldl _ data (seq 0 k)) in *.
    rewrite ta_put_nat, ta_get_nat, IHhigh by lia.
    split_and!.
    + by rewrite length_insert.
    + intros j Hj. destruct (decide (j = k)) as [->|Hne].
      * destruct (data !! k) as [x|] eqn:Hx.
        -- rewrite list_lookup_insert_eq; [done|].
           apply lookup_lt_Some in Hx. lia.
        -- rewrite list_insert_ge; [by rewrite IHhigh, Hx|].
           apply lookup_ge_None_1 in Hx. lia.
      * rewrite list_lookup_insert_ne by lia. apply IHlow. lia.
    + intros j Hj. rewrite list_lookup_insert_ne by lia. apply IHhigh. lia.
Qed.

Lemma fill_Fn_run (h : heap) (b : AudioBuffer.t)
    (f : value -> nat -> nat -> value) :
  wf h b ->
  exists h' : heap,
    fill b (Fn f) h = Returned b h'
    /\ length h' = length h
    /\ (forall c a, channel h b c = Some a ->
          channel h' b c
          = Some (fill_fn_loop f c (AudioBuffer.length b) a))
    /\ (forall l, l ∉ AudioBuffer.data b -> h' !! l = h !! l).
Proof.
  intros Hwf.
  destruct (in_place_wf b
              (fun c a => fill_fn_loop f c (AudioBuffer.length b) a)
              (fun channel (_ : unit) =>
                 let* ref := getChannelData b channel in
                 let* data := read ref in
                 write ref (fill_fn_loop f channel (AudioBuffer.length b) data))
              h Hwf) as (h' & Hrun & Hlen & Hin & Hout).
  { intros c l a h1 Hl Ha HL. read_channel Hl Ha. by eapply write_Some. }
  exists h'. split_and!; [|done..].
  unfold fill. by rewrite (bind_Returned _ _ _ _ _ Hrun).
Qed.

(** The image of a channel under a producer. *)
Lemma fill_fn_loop_imap (f : value -> nat -> nat -> value) (c : nat)
    (a : list sample) :
  fill_fn_loop f c (length a) a = mapped (fun v i => f v c i) a.
Proof.
  destruct (fill_fn_loop_spec f c (length a) a) as (Hlen & Hlow & _).
  apply list_eq_same_length with (length a); [|done|].
  { unfold mapped. by rewrite length_imap. }
  intros i x y Hi Hx Hy. rewrite Hlow in Hx by done.
  unfold mapped in Hy. rewrite list_lookup_imap in Hy.
  destruct (a !! i); simpl in *; congruence.
Qed.

Lemma length_mapped (f : value -> nat -> value) (a : list sample) :
  length (mapped f a) = length a.
Proof. unfold mapped. apply length_imap. Qed.

Lemma lookup_mapped (f : value -> nat -> value) (a : list sample) (i : nat) :
  mapped f a !! i = (fun x => to_number (f (Number x) i)) <$> a !! i.
Proof. unfold mapped. apply list_lookup_imap. Qed.

(** [fill] with a function on a well-formed buffer: every channel is
    replaced by its image. *)
Lemma fill_Fn_map (h : heap) (b : AudioBuffer.t)
    (f : value -> nat -> nat -> value) :
  wf h b ->
  exists h' : heap,
    fill b (Fn f) h = Returned b h'
    /\ wf h' b
    /\ (forall l, l ∉ AudioBuffer.data b -> h' !! l = h !! l)
    /\ (forall c a, channel h b c = Some a ->
          channel h' b c = Some (mapped (fun v i => f v c i) a)).
Proof.
  intros Hwf. destruct (fill_Fn_run h b f Hwf) as (h' & Hrun & _ & Hin & Hout).
  assert (Hmap : forall c a, channel h b c = Some a ->
            channel h' b c = Some (mapped (fun v i => f v c i) a)).
  { intros c a Ha. destruct (channel_lt h b c a Hwf Ha) as [_ HL].
    rewrite (Hin c a Ha), <- HL. by rewrite fill_fn_loop_imap. }
  exists h'. split; [done|]. split; [|by split].
  apply (wf_in_place b (fun c a => mapped (fun v i => f v c i) a) h h');
    [done| |done].
  intros c a HL. by rewrite length_mapped.
Qed.



(** What [slice], [map] and the copy constructor return on a well-formed
    buffer when the images of the channels have one length: a well-formed
    buffer of fresh arrays. *)
Lemma per_channel_built (b : AudioBuffer.t)
    (T : nat -> list sample -> list sample) (h : heap) (len : nat) :
  wf h b ->
  (forall c (a : list sample), length a = AudioBuffer.length b ->
                               length (T c a) = len) ->
  exists (r : AudioBuffer.t) (ext : heap),
    bind (for_each (fun channel data =>
                      let* ref := getChannelData b channel in
                      let* a := read ref in
                      let* ref' := alloc (T channel a) in
                      ret (data ++ [ref']))
                   (seq 0 (numberOfChannels b)) [])
         (fun data => AudioBuffer_of_data (numberOfChannels b) data (sampleRate b))
         h
    = Returned r (h ++ ext)
    /\ numberOfChannels r = numberOfChannels b
    /\ sampleRate r = sampleRate b
    /\ AudioBuffer.length r = len
    /\ wf (h ++ ext) r
    /\ (forall l, l ∈ AudioBuffer.data r ->
                  (length h <= l)%nat /\ l ∉ AudioBuffer.data b)
    /\ (forall c a, channel h b c = Some a ->
                    channel (h ++ ext) r c = Some (T c a)).
Proof.
  intros Hwf HT.
  destruct (per_channel_run b T h Hwf)
    as (r & ext & Hrun & Hnc & Hsr & Hdata & Hext & Hlen & Hch).
  pose proof Hwf as (Hpos & _).
  destruct (wf_channel_Some h b 0 Hwf Hpos) as (a0 & Ha0 & HL0).
  assert (HL : AudioBuffer.length r = len).
  { rewrite (Hlen a0 Ha0). by apply HT. }
  exists r, ext. split_and!; [done..| | |done].
  - destruct r as [n rlen rate data]. simpl in *. subst.
    split_and!; simpl; [done|by rewrite length_seq|apply NoDup_seq|].
    apply Forall_lookup. intros c l Hl. pose proof Hl as Hl'.
    apply lookup_seq in Hl' as [-> Hc].
    destruct (wf_channel_Some h b c Hwf Hc) as (a & Ha & HLa).
    specialize (Hch c a Ha). unfold channel in Hch. simpl in Hch.
    rewrite Hl in Hch. simpl in Hch. rewrite Hch. simpl. f_equal.
    by apply HT.
  - intros l Hl. rewrite Hdata in Hl. split.
    + apply elem_of_seq in Hl. lia.
    + by eapply fresh_not_in.
Qed.

(** [map] with a producer that is a function of the sample, its channel
    and its index: every channel of the result is the image of the
    channel of the source. *)
Lemma map_run (h : heap) (b : AudioBuffer.t)
    (fn : value -> nat -> nat -> value) :
  wf h b ->
  exists (r : AudioBuffer.t) (ext : heap),
    map b (plain fn) h = Returned r (h ++ ext)
    /\ numberOfChannels r = numberOfChannels b
    /\ sampleRate r = sampleRate b
    /\ AudioBuffer.length r = AudioBuffer.length b
    /\ wf (h ++ ext) r
    /\ (forall l, l ∈ AudioBuffer.data r ->
                  (length h <= l)%nat /\ l ∉ AudioBuffer.data b)
    /\ (forall c a, channel h b c = Some a ->
          channel (h ++ ext) r c = Some (mapped (fun v i => fn v c i) a)).
Proof.
  intros Hwf.
  destruct (map_run_rel (fun v c i r => r = fn v c i) h b (plain fn) Hwf)
    as (r & ext & Hrun & Hnc & Hsr & HL & Hwfr & Hfresh & Hch).
  { intros this v c i data h1. by eexists. }
  exists r, ext. split_and!; [done..|].
  intros c a Ha. destruct (Hch c a Ha) as (a' & Ha' & HLa & Hres).
  rewrite Ha'. f_equal.
  apply list_eq_same_length with (length a);
    [by rewrite length_mapped|done|].
  intros i x y Hi Hx Hy. rewrite lookup_mapped in Hy.
  destruct (a !! i) as [x0|] eqn:Hx0; [|done]. simpl in Hy.
  destruct (Hres i x0 Hx0) as (v & -> & Hv). congruence.
Qed.

(** X2: [map] and [fill] compute the same samples when the producer is
    a function of the sample, its channel and its index: for a
    well-formed buffer [b] and such a producer [f], every channel of the
    buffer that [map(b, f)] returns holds what the same channel of [b]
    holds after [fill(b, f)]. *)
Theorem map_agrees_with_fill (h : heap) (b : AudioBuffer.t)
    (f : value -> nat -> nat -> value) :
  wf h b ->
  exists (r : AudioBuffer.t) (hm hf : heap),
    map b (plain f) h = Returned r hm
    /\ fill b (Fn f) h = Returned b hf
    /\ numberOfChannels r = numberOfChannels b
    /\ forall c, (c < numberOfChannels b)%nat ->
         exists a', channel hm r c = Some a' /\ channel hf b c = Some a'.
Proof.
  intros Hwf.
  destruct (map_run h b f Hwf) as (r & ext & Hmap & Hnc & _ & _ & _ & _ & Hch).
  destruct (fill_Fn_map h b f Hwf) as (hf & Hfill & _ & _ & Hin).
  exists r, (h ++ ext), hf. split; [done|]. split; [done|]. split; [done|].
  intros c Hc. destruct (wf_channel_Some h b c Hwf Hc) as (a & Ha & _).
  eexists. split; [by apply Hch|by apply Hin].
Qed.

Lemma map_agrees_with_fill_witness :
  wf store_stereo buffer_stereo
  /\ exists (r : AudioBuffer.t) (hm hf : heap),
       map buffer_stereo (plain (fun v _ _ => negate v)) store_stereo
       = Returned r hm
       /\ fill buffer_stereo (Fn (fun v _ _ => negate v)) store_stereo
          = Returned buffer_stereo hf.
Proof.
  assert (Hwf : wf store_stereo buffer_stereo).
  { apply (bool_decide_unpack _). vm_compute. exact I. }
  split; [exact Hwf|].
  destruct (map_agrees_with_fill store_stereo buffer_stereo
              (fun v _ _ => negate v) Hwf) as (r & hm & hf & Hmap & Hfill & _).
  by exists r, hm, hf.
Defined.



Lemma SFopp_involutive (x : spec_float) : SFopp (SFopp x) = x.
Proof. destruct x as [s|s| |s m e]; simpl; by rewrite ?negb_involutive. Qed.

(** X4: [invert] flips the sign of every sample in place ([NaN] stays
    [NaN]), and inverting twice gives every sample back exactly, zeros
    and [NaN] included. *)
Theorem invert_twice_restores (h : heap) (b : AudioBuffer.t) :
  wf h b ->
  exists h1 h2 : heap,
    invert b h = Returned b h1
    /\ invert b h1 = Returned b h2
    /\ (forall c a, channel h b c = Some a ->
          (exists a1, channel h1 b c = Some a1
                      /\ length a1 = length a
                      /\ forall i (x : sample), a !! i = Some x ->
                           a1 !! i = Some (SFopp x))
          /\ channel h2 b c = Some a)
    /\ (forall l, l ∉ AudioBuffer.data b -> h2 !! l = h !! l).
Proof.
  intros Hwf. unfold invert.
  destruct (fill_Fn_map h b (fun sample _ _ => negate sample) Hwf)
    as (h1 & Hrun1 & Hwf1 & Hout1 & Hin1).
  destruct (fill_Fn_map h1 b (fun sample _ _ => negate sample) Hwf1)
    as (h2 & Hrun2 & Hwf2 & Hout2 & Hin2).
  exists h1, h2. split; [done|]. split; [done|]. split.
  - intros c a Ha. split.
    + eexists. split; [by apply Hin1|]. split; [apply length_mapped|].
      intros i x Hx. by rewrite lookup_mapped, Hx.
    + rewrite (Hin2 c _ (Hin1 c a Ha)). f_equal. apply list_eq. intros i.
      rewrite !lookup_mapped. destruct (a !! i) as [x|]; [|done]. simpl.
      by rewrite SFopp_involutive.
  - intros l Hl. by rewrite Hout2, Hout1.
Qed.

Lemma invert_twice_restores_witness :
  wf store_stereo buffer_stereo
  /\ exists h1 h2 : heap,
       invert buffer_stereo store_stereo = Returned buffer_stereo h1
       /\ invert buffer_stereo h1 = Returned buffer_stereo h2.
Proof.
  assert (Hwf : wf store_stereo buffer_stereo).
  { apply (bool_decide_unpack _). vm_compute. exact I. }
  split; [exact Hwf|].
  destruct (invert_twice_restores store_stereo buffer_stereo Hwf)
    as (h1 & h2 & Hrun1 & Hrun2 & _).
  by exists h1, h2.
Defined.

(** ** [reverse] *)

(** The exchange loop after [k] rounds: the [k] samples at either end
    are in reversed position, the middle is as it was. *)
Lemma reverse_loop_prefix (d : list sample) (k : nat) :
  (k <= length d / 2)%nat ->
  let r := foldl (fun d' lower =>
                    let upper := (length d - lower - 1)%nat in
                    let lowerValue := ta_get d' (Z.of_nat lower) in
                    let upperValue := ta_get d' (Z.of_nat upper) in
                    ta_put (ta_put d' (Z.of_nat lower) upperValue)
                           (Z.of_nat upper) lowerValue)
                 d (seq 0 k) in
  length r = length d
  /\ forall j, (j < length d)%nat ->
       r !! j = if decide (j < k \/ length d - k <= j)%nat
                then d !! (length d - 1 - j)%nat
                else d !! j.
Proof.
  induction k as [|k IH]; intros Hk r.
  - split; [done|]. intros j Hj. unfold r. simpl.
    case_decide as Hc; [lia|done].
  - pose proof (Nat.Div0.mul_div_le (length d) 2) as Hhalf.
    destruct IH as [IHlen IH]; [lia|].
    unfold r. rewrite seq_S, foldl_app. cbn [foldl Nat.add]. cbv zeta.
    set (r0 := foldl _ d (seq 0 k)) in *.
    rewrite !ta_get_nat, !ta_put_nat.
    destruct (lookup_lt_is_Some_2 d k) as [x Hx]; [lia|].
    destruct (lookup_lt_is_Some_2 d (length d - k - 1)) as [y Hy]; [lia|].
    rewrite (IH k), (IH (length d - k - 1)%nat) by lia.
    rewrite !decide_False by lia. rewrite Hx, Hy. simpl.
    split; [by rewrite !length_insert|].
    intros j Hj.
    destruct (decide (j = length d - k - 1)%nat) as [->|Hne1].
    + rewrite list_lookup_insert_eq by (rewrite length_insert; lia).
      rewrite decide_True by lia. rewrite <- Hx. f_equal. lia.
    + rewrite list_lookup_insert_ne by lia.
      destruct (decide (j = k)) as [->|Hne2].
      * rewrite list_lookup_insert_eq by lia.
        rewrite decide_True by lia. rewrite <- Hy. f_equal. lia.
      * rewrite list_lookup_insert_ne by lia. rewrite IH by done.
        repeat case_decide; try done; lia.
Qed.

(** The exchange loop reverses the array. *)
Lemma reverse_loop_spec (d : list sample) :
  length (reverse_loop d) = length d
  /\ forall j, (j < length d)%nat ->
       reverse_loop d !! j = d !! (length d - 1 - j)%nat.
Proof.
  destruct (reverse_loop_prefix d (length d / 2)) as [Hlen Hr]; [done|].
  split; [done|]. intros j Hj. unfold reverse_loop. cbv zeta.
  rewrite Hr by done.
  pose proof (Nat.div_mod_eq (length d) 2) as Hdm.
  pose proof (Nat.mod_upper_bound (length d) 2 ltac:(lia)) as Hm.
  case_decide as Hc; [done|]. f_equal. lia.
Qed.

Lemma reverse_loop_involutive (d : list sample) :
  reverse_loop (reverse_loop d) = d.
Proof.
  destruct (reverse_loop_spec d) as [Hlen Hr].
  destruct (reverse_loop_spec (reverse_loop d)) as [Hlen' Hr'].
  apply list_eq_same_length with (length d); [done|lia|].
  intros j x y Hj Hx Hy. rewrite Hr' in Hx by lia.
  rewrite Hlen, Hr in Hx by lia.
  replace (length d - 1 - (length d - 1 - j))%nat with j in Hx by lia.
  congruence.
Qed.

Lemma reverse_run (h : heap) (b : AudioBuffer.t) :
  wf h b ->
  exists h' : heap,
    reverse b h = Returned b h'
    /\ wf h' b
    /\ (forall c a, channel h b c = Some a ->
                    channel h' b c = Some (reverse_loop a))
    /\ (forall l, l ∉ AudioBuffer.data b -> h' !! l = h !! l).
Proof.
  intros Hwf.
  destruct (in_place_wf b (fun _ a => reverse_loop a)
              (fun i (_ : unit) =>
                 let* ref := getChannelData b i in
                 let* d := read ref in
                 write ref (reverse_loop d))
              h Hwf) as (h' & Hrun & Hlen & Hin & Hout).
  { intros c l a h1 Hl Ha HL. read_channel Hl Ha. by eapply write_Some. }
  exists h'. split_and!; [| |done..].
  - unfold reverse. by rewrite (bind_Returned _ _ _ _ _ Hrun).
  - apply (wf_in_place b (fun _ a => reverse_loop a) h h'); [done| |done].
    intros c a HL. by rewrite (proj1 (reverse_loop_spec a)).
Qed.

(** X5: for a well-formed buffer, [reverse(b)] returns [b] itself and
    reverses every channel in place: the sample at index [i] is the one
    that was at index [length - 1 - i].  Lengths are kept and no other
    array of the store changes. *)
Theorem reverse_mirrors_every_channel (h : heap) (b : AudioBuffer.t) :
  wf h b ->
  exists h' : heap,
    reverse b h = Returned b h'
    /\ wf h' b
    /\ (forall l, l ∉ AudioBuffer.data b -> h' !! l = h !! l)
    /\ forall c a, channel h b c = Some a ->
         exists a', channel h' b c = Some a'
           /\ length a' = length a
           /\ forall i, (i < AudioBuffer.length b)%nat ->
                a' !! i = a !! (AudioBuffer.length b - 1 - i)%nat.
Proof.
  intros Hwf. destruct (reverse_run h b Hwf) as (h' & Hrun & Hwf' & Hin & Hout).
  exists h'. split; [done|]. split; [done|]. split; [done|].
  intros c a Ha. destruct (channel_lt h b c a Hwf Ha) as [_ HL].
  destruct (reverse_loop_spec a) as [Hlen Hr].
  exists (reverse_loop a). split; [by apply Hin|]. split; [done|].
  intros i Hi. rewrite <- HL. apply Hr. lia.
Qed.

Lemma reverse_mirrors_every_channel_witness :
  wf store_stereo buffer_stereo
  /\ exists h' : heap,
       reverse buffer_stereo store_stereo = Returned buffer_stereo h'.
Proof.
  assert (Hwf : wf store_stereo buffer_stereo).
  { apply (bool_decide_unpack _). vm_compute. exact I. }
  split; [exact Hwf|].
  destruct (reverse_mirrors_every_channel store_stereo buffer_stereo Hwf)
    as (h' & Hrun & _).
  by exists h'.
Defined.

(** X6: reversing a well-formed buffer twice leaves the store exactly as
    it was before the first call. *)
Theorem reverse_twice_restores (h : heap) (b : AudioBuffer.t) :
  wf h b ->
  exists h1 : heap,
    reverse b h = Returned b h1 /\ reverse b h1 = Returned b h.
Proof.
  intros Hwf.
  destruct (reverse_run h b Hwf) as (h1 & Hrun1 & Hwf1 & Hin1 & Hout1).
  destruct (reverse_run h1 b Hwf1) as (h2 & Hrun2 & Hwf2 & Hin2 & Hout2).
  exists h1. split; [done|]. rewrite Hrun2. f_equal.
  apply list_eq. intros l.
  destruct (decide (l ∈ AudioBuffer.data b)) as [Hl|Hl].
  - apply list_elem_of_lookup in Hl as [c Hc].
    destruct (wf_channel h b c Hwf) as (l' & a & Hl' & Ha & _).
    { apply lookup_lt_Some in Hc. destruct Hwf as (_ & ? & _). lia. }
    simplify_eq.
    pose proof (Hin2 c _ (Hin1 c a (channel_Some _ _ _ _ _ Hc Ha))) as H2.
    unfold channel in H2. rewrite Hc in H2. simpl in H2.
    by rewrite H2, reverse_loop_involutive.
  - by rewrite Hout2, Hout1.
Qed.

Lemma reverse_twice_restores_witness :
  wf store_stereo buffer_stereo
  /\ exists h1 : heap,
       reverse buffer_stereo store_stereo = Returned buffer_stereo h1
       /\ reverse buffer_stereo h1 = Returned buffer_stereo store_stereo.
Proof.
  assert (Hwf : wf store_stereo buffer_stereo).
  { apply (bool_decide_unpack _). vm_compute. exact I. }
  split; [exact Hwf|].
  exact (reverse_twice_restores store_stereo buffer_stereo Hwf).
Defined.

(** ** [equal] as a relation *)

(** [x === y] holds for two numbers when they are the same number and
    not [NaN], or when both are zeros. *)
Lemma number_eq_true (x y : sample) :
  number_eq x y = true
  <-> (is_nan x = false /\ x = y)
      \/ (exists s t, x = S754_zero s /\ y = S754_zero t).
Proof.
  split.
  - unfold number_eq, SFeqb, SFcompare. intros H.
    destruct x as [s|s| |s m e], y as [t|t| |t n e'];
      try discriminate H; try (destruct s; discriminate H);
      try (destruct t; discriminate H).
    + right. by eauto.
    + left. split; [done|]. by destruct s, t.
    + left. split; [done|].
      change (Pos.compare_cont Eq m n) with (Pos.compare m n) in H.
      destruct s, t; try discriminate H;
        destruct (Z.compare_spec e e'); try discriminate H;
        destruct (Pos.compare_spec m n); try discriminate H; congruence.
  - intros [[Hn <-]|(s & t & -> & ->)]; [by apply number_eq_refl|done].
Qed.

Lemma number_eq_sym (x y : sample) : number_eq x y = number_eq y x.
Proof.
  assert (forall u v, number_eq u v = true -> number_eq v u = true) as Hsym.
  { intros u v. rewrite !number_eq_true.
    intros [[Hn ->]|(s & t & -> & ->)]; [by left|right; by eauto]. }
  destruct (number_eq x y) eqn:Hxy.
  - symmetry. by apply Hsym.
  - destruct (number_eq y x) eqn:Hyx; [|done].
    apply Hsym in Hyx. congruence.
Qed.

Lemma number_eq_trans (x y z : sample) :
  number_eq x y = true -> number_eq y z = true -> number_eq x z = true.
Proof.
  intros Hxy Hyz. apply number_eq_true in Hxy, Hyz. apply number_eq_true.
  destruct Hxy as [[Hn Hxy]|(s & t & Hx & Hy)],
           Hyz as [[Hn' Hyz]|(s' & t' & Hy' & Hz)]; subst.
  - by left.
  - right. by eauto.
  - right. by eauto.
  - right. by eauto.
Qed.

Lemma equal2_true_iff (h : heap) (a b : AudioBuffer.t) :
  wf h a -> wf h b ->
  (exists res : bool, equal2 a b h = Returned res h)
  /\ (equal2 a b h = Returned true h <-> same_samples h a b).
Proof.
  intros Hwfa Hwfb.
  destruct (equal2_spec h a b Hwfa Hwfb) as (res & Hres & Hiff).
  split; [by exists res|]. rewrite Hres. unfold same_samples. split.
  - intros [= ->]. destruct (proj1 Hiff eq_refl) as (HL & Hnc & Hno).
    split; [done|]. split; [done|]. by apply no_mismatch_samples.
  - intros (HL & Hnc & Hall). f_equal. apply Hiff.
    split; [done|]. split; [done|]. by apply no_mismatch_samples.
Qed.

Lemma same_samples_sym (h : heap) (a b : AudioBuffer.t) :
  same_samples h a b -> same_samples h b a.
Proof.
  intros (HL & Hnc & Hall). split; [done|]. split; [done|].
  intros c i xs ys x y Hxs Hys Hx Hy. rewrite number_eq_sym.
  by apply (Hall c i ys xs).
Qed.

Lemma same_samples_trans (h : heap) (a b c : AudioBuffer.t) :
  wf h a -> wf h b ->
  same_samples h a b -> same_samples h b c -> same_samples h a c.
Proof.
  intros Hwfa Hwfb (HL & Hnc & Hab) (HL' & Hnc' & Hbc).
  split; [congruence|]. split; [congruence|].
  intros ch i xs zs x z Hxs Hzs Hx Hz.
  destruct (channel_lt h a ch xs Hwfa Hxs) as [Hch HLx].
  destruct (wf_channel_Some h b ch Hwfb) as (ys & Hys & HLy); [lia|].
  destruct (lookup_lt_is_Some_2 ys i) as [y Hy].
  { apply lookup_lt_Some in Hx. lia. }
  apply (number_eq_trans x y z).
  - by apply (Hab ch i xs ys).
  - by apply (Hbc ch i ys zs).
Qed.

Lemma same_samples_refl (h : heap) (a : AudioBuffer.t) :
  wf h a -> (same_samples h a a <-> nan_free h a).
Proof.
  intros Hwf. split.
  - intros (_ & _ & Hall). unfold nan_free. apply Forall_lookup.
    intros c l Hl.
    destruct (wf_channel h a c Hwf) as (l' & xs & Hl' & Hxs & _).
    { apply lookup_lt_Some in Hl. destruct Hwf as (_ & ? & _). lia. }
    simplify_eq. rewrite Hxs. simpl. apply forallb_forall. intros x Hin.
    apply list_elem_of_In, list_elem_of_lookup in Hin as [i Hi].
    pose proof (Hall c i xs xs x x (channel_Some _ _ _ _ _ Hl Hxs)
                  (channel_Some _ _ _ _ _ Hl Hxs) Hi Hi) as Heq.
    apply number_eq_true in Heq as [[Hn _]|(s & t & -> & _)]; [|done].
    by rewrite Hn.
  - intros Hfree. split; [done|]. split; [done|].
    intros c i xs ys x y Hxs Hys Hx Hy. simplify_eq.
    apply number_eq_refl. by eapply nan_free_channel.
Qed.

(** X7: for a well-formed buffer [a], [equal(a, a)] returns true exactly
    when no sample of [a] is [NaN]; a buffer that holds a [NaN] is not
    equal to itself. *)
Theorem equal_reflexive_iff_nan_free (h : heap) (a : AudioBuffer.t) :
  wf h a ->
  (equal [a; a] h = Returned true h <-> nan_free h a)
  /\ (~ nan_free h a -> equal [a; a] h = Returned false h).
Proof.
  intros Hwf. destruct (equal2_true_iff h a a Hwf Hwf) as [[res Hres] Hiff].
  assert (Hrefl : equal [a; a] h = Returned true h <-> nan_free h a).
  { simpl. rewrite Hiff. by apply same_samples_refl. }
  split; [done|]. intros Hnan. simpl in *. rewrite Hres. f_equal.
  destruct res; [|done]. destruct Hnan. by apply Hrefl.
Qed.

Lemma equal_reflexive_iff_nan_free_witness :
  wf store_stereo buffer_stereo
  /\ equal [buffer_stereo; buffer_stereo] store_stereo
     = Returned false store_stereo.
Proof.
  assert (Hwf : wf store_stereo buffer_stereo).
  { apply (bool_decide_unpack _). vm_compute. exact I. }
  split; [exact Hwf|].
  apply (equal_reflexive_iff_nan_free store_stereo buffer_stereo Hwf).
  intros Hfree. apply (bool_decide_pack _) in Hfree. vm_compute in Hfree.
  exact Hfree.
Defined.

(** X8: [equal] does not depend on the order of its two arguments. *)
Theorem equal_symmetric (h : heap) (a b : AudioBuffer.t) :
  wf h a -> wf h b -> equal [a; b] h = equal [b; a] h.
Proof.
  intros Hwfa Hwfb. simpl.
  destruct (equal2_true_iff h a b Hwfa Hwfb) as [[r1 Hr1] Hiff1].
  destruct (equal2_true_iff h b a Hwfb Hwfa) as [[r2 Hr2] Hiff2].
  rewrite Hr1, Hr2. f_equal.
  destruct r1, r2; try done.
  - apply Hiff1, same_samples_sym, Hiff2 in Hr1. congruence.
  - apply Hiff2, same_samples_sym, Hiff1 in Hr2. congruence.
Qed.

Lemma equal_symmetric_witness :
  (wf store_12_345 buffer_12 /\ wf store_12_345 buffer_345)
  /\ equal [buffer_12; buffer_345] store_12_345
     = equal [buffer_345; buffer_12] store_12_345.
Proof.
  assert (Hwf1 : wf store_12_345 buffer_12).
  { apply (bool_decide_unpack _). vm_compute. exact I. }
  assert (Hwf2 : wf store_12_345 buffer_345).
  { apply (bool_decide_unpack _). vm_compute. exact I. }
  split; [by split|].
  exact (equal_symmetric store_12_345 buffer_12 buffer_345 Hwf1 Hwf2).
Defined.

Lemma equal2_sym (h : heap) (a b : AudioBuffer.t) :
  wf h a -> wf h b ->
  equal2 a b h = Returned true h -> equal2 b a h = Returned true h.
Proof.
  intros Hwfa Hwfb Hab.
  apply (equal2_true_iff h b a Hwfb Hwfa), same_samples_sym.
  by apply (equal2_true_iff h a b Hwfa Hwfb).
Qed.

Lemma equal2_trans (h : heap) (a b c : AudioBuffer.t) :
  wf h a -> wf h b -> wf h c ->
  equal2 a b h = Returned true h -> equal2 b c h = Returned true h ->
  equal2 a c h = Returned true h.
Proof.
  intros Hwfa Hwfb Hwfc Hab Hbc.
  apply (equal2_true_iff h a c Hwfa Hwfc).
  apply (same_samples_trans h a b c); [done..| |].
  - by apply (equal2_true_iff h a b Hwfa Hwfb).
  - by apply (equal2_true_iff h b c Hwfb Hwfc).
Qed.

(** X9: when [equal], called with two or more well-formed buffers,
    returns true, any two of its arguments are equal, whatever their
    positions and their order, not only the neighbours. *)
Theorem equal_chain_relates_all (h : heap) (arguments : list AudioBuffer.t) :
  Forall (wf h) arguments ->
  equal arguments h = Returned true h ->
  forall i j x y, arguments !! i = Some x -> arguments !! j = Some y ->
                  equal [x; y] h = Returned true h.
Proof.
  intros Hwf Hrun.
  assert (Hadj : forall k x y, arguments !! k = Some x ->
                   arguments !! S k = Some y -> equal2 x y h = Returned true h).
  { destruct arguments as [|a [|b [|c rest]]]; [done..| |].
    - intros [|[|k]] x y Hx Hy; simpl in *; simplify_eq; done.
    - apply Forall_cons_1 in Hwf as [Hwfa Hwf].
      destruct (equal_adjacent_spec h (b :: c :: rest) a Hwfa Hwf)
        as (res & Hres & Hiff).
      simpl in Hrun. simpl in Hres. rewrite Hres in Hrun.
      injection Hrun as ->. by apply Hiff. }
  assert (Hlen : (2 <= length arguments)%nat).
  { destruct arguments as [|a [|b rest]]; [done..|simpl; lia]. }
  assert (Hwfk : forall k x, arguments !! k = Some x -> wf h x).
  { intros k x Hx. rewrite Forall_lookup in Hwf. by apply (Hwf k). }
  assert (Hup : forall d i x y, arguments !! i = Some x ->
                  arguments !! (i + S d)%nat = Some y ->
                  equal2 x y h = Returned true h).
  { induction d as [|d IH]; intros i x y Hx Hy.
    - apply (Hadj i); [done|]. by rewrite Nat.add_1_r in Hy.
    - destruct (lookup_lt_is_Some_2 arguments (i + S d)) as [z Hz].
      { apply lookup_lt_Some in Hy. lia. }
      apply (equal2_trans h x z y); eauto.
      apply (Hadj (i + S d)%nat); [done|].
      by replace (S (i + S d)) with (i + S (S d))%nat by lia. }
  assert (Hself : forall i x, arguments !! i = Some x ->
                    equal2 x x h = Returned true h).
  { intros i x Hx. destruct i as [|i].
    - destruct (lookup_lt_is_Some_2 arguments 1) as [y Hy]; [lia|].
      pose proof (Hadj 0%nat x y Hx Hy) as Hxy.
      apply (equal2_trans h x y x); eauto using equal2_sym.
    - destruct (lookup_lt_is_Some_2 arguments i) as [y Hy].
      { apply lookup_lt_Some in Hx. lia. }
      pose proof (Hadj i y x Hy Hx) as Hyx.
      apply (equal2_trans h x y x); eauto using equal2_sym. }
  intros i j x y Hx Hy. simpl.
  destruct (lt_eq_lt_dec i j) as [[Hlt| ->]|Hgt].
  - apply (Hup (j - i - 1)%nat i); [done|].
    by replace (i + S (j - i - 1))%nat with j by lia.
  - simplify_eq. by apply (Hself j).
  - apply equal2_sym; eauto.
    apply (Hup (i - j - 1)%nat j); [done|].
    by replace (j + S (i - j - 1))%nat with i by lia.
Qed.

Lemma equal_chain_relates_all_witness :
  (Forall (wf store_12_345) [buffer_345; buffer_345; buffer_345]
   /\ equal [buffer_345; buffer_345; buffer_345] store_12_345
      = Returned true store_12_345)
  /\ equal [buffer_345; buffer_345] store_12_345 = Returned true store_12_345.
Proof.
  assert (Hwf2 : wf store_12_345 buffer_345).
  { apply (bool_decide_unpack _). vm_compute. exact I. }
  assert (Hall : Forall (wf store_12_345) [buffer_345; buffer_345; buffer_345]).
  { apply Forall_cons_2; [exact Hwf2|].
    apply Forall_cons_2; [exact Hwf2|].
    apply Forall_cons_2; [exact Hwf2|]. apply Forall_nil_2. }
  assert (Hrun : equal [buffer_345; buffer_345; buffer_345] store_12_345
                 = Returned true store_12_345).
  { vm_compute. reflexivity. }
  split; [by split|].
  exact (equal_chain_relates_all store_12_345
           [buffer_345; buffer_345; buffer_345] Hall Hrun 0%nat 2%nat
           buffer_345 buffer_345 eq_refl eq_refl).
Defined.

(** ** [slice] and [concat] together *)

(** The length of a slice depends on the length of the array only. *)
Lemma length_ta_slice_eq (a a' : list sample) (start end_ : option Z) :
  length a = length a' ->
  length (ta_slice a start end_) = length (ta_slice a' start end_).
Proof.
  intros Heq. apply Nat2Z.inj. rewrite !length_ta_slice. cbv zeta.
  by rewrite Heq.
Qed.

Lemma slice_run (h : heap) (b : AudioBuffer.t) (start end_ : option Z) :
  wf h b ->
  exists (r : AudioBuffer.t) (ext : heap),
    slice b start end_ h = Returned r (h ++ ext)
    /\ numberOfChannels r = numberOfChannels b
    /\ sampleRate r = sampleRate b
    /\ AudioBuffer.length r
       = length (ta_slice (replicate (AudioBuffer.length b) pos_zero)
                          start end_)
    /\ wf (h ++ ext) r
    /\ (forall l, l ∈ AudioBuffer.data r ->
                  (length h <= l)%nat /\ l ∉ AudioBuffer.data b)
    /\ (forall c a, channel h b c = Some a ->
                    channel (h ++ ext) r c = Some (ta_slice a start end_)).
Proof.
  intros Hwf.
  apply (per_channel_built b (fun _ a => ta_slice a start end_) h); [done|].
  intros c a HL. apply length_ta_slice_eq. by rewrite length_replicate.
Qed.

(** A slice between two indices in range, in order. *)
Lemma ta_slice_range (a : list sample) (s e : Z) :
  0 <= s <= e -> e <= Z.of_nat (length a) ->
  ta_slice a (Some s) (Some e) = take (Z.to_nat (e - s)) (drop (Z.to_nat s) a).
Proof.
  intros Hs He. unfold ta_slice, relative_index. simpl.
  destruct (Z.ltb_spec s 0); [lia|]. destruct (Z.ltb_spec e 0); [lia|].
  rewrite !Z.min_l by lia. by rewrite Z.max_l by lia.
Qed.

Lemma ta_slice_from (a : list sample) (s : Z) :
  0 <= s <= Z.of_nat (length a) ->
  ta_slice a (Some s) None = drop (Z.to_nat s) a.
Proof.
  intros Hs. unfold ta_slice, relative_index. simpl.
  destruct (Z.ltb_spec s 0); [lia|].
  rewrite Z.min_l by lia. rewrite Z.max_l by lia.
  apply take_ge. rewrite length_drop. lia.
Qed.

(** X10: [slice(b)], without a start and an end, is a copy of [b]: a
    buffer of the same shape whose arrays are new and hold the samples of
    [b], which stays as it is. *)
Theorem slice_without_bounds_copies (h : heap) (b : AudioBuffer.t) :
  wf h b ->
  exists (r : AudioBuffer.t) (h' : heap),
    slice b None None h = Returned r h'
    /\ numberOfChannels r = numberOfChannels b
    /\ AudioBuffer.length r = AudioBuffer.length b
    /\ sampleRate r = sampleRate b
    /\ wf h' r
    /\ (forall l, l ∈ AudioBuffer.data r ->
                  (length h <= l)%nat /\ l ∉ AudioBuffer.data b)
    /\ (forall l a, h !! l = Some a -> h' !! l = Some a)
    /\ (forall c a, channel h b c = Some a -> channel h' r c = Some a).
Proof.
  intros Hwf.
  destruct (slice_run h b None None Hwf)
    as (r & ext & Hrun & Hnc & Hsr & HL & Hwfr & Hfresh & Hch).
  exists r, (h ++ ext). split_and!; [done..| |done|done| | |]; [|done| |].
  - by rewrite HL, ta_slice_whole, length_replicate.
  - intros l a. apply lookup_app_l_Some.
  - intros c a Ha. rewrite (Hch c a Ha). by rewrite ta_slice_whole.
Qed.

Lemma slice_without_bounds_copies_witness :
  wf store_stereo buffer_stereo
  /\ exists (r : AudioBuffer.t) (h' : heap),
       slice buffer_stereo None None store_stereo = Returned r h'
       /\ AudioBuffer.length r = AudioBuffer.length buffer_stereo.
Proof.
  assert (Hwf : wf store_stereo buffer_stereo).
  { apply (bool_decide_unpack _). vm_compute. exact I. }
  split; [exact Hwf|].
  destruct (slice_without_bounds_copies store_stereo buffer_stereo Hwf)
    as (r & h' & Hrun & _ & HL & _).
  by exists r, h'.
Defined.

(** X11: slices compose: for indices in range and in order, with
    [0 <= s1 <= e1 <= length] and [0 <= s2 <= e2 <= e1 - s1], every channel
    of [slice(slice(b, s1, e1), s2, e2)] is that of
    [slice(b, s1 + s2, s1 + e2)], and the two results have the same
    shape. *)
Theorem slice_of_slice (h : heap) (b : AudioBuffer.t) (s1 e1 s2 e2 : Z) :
  wf h b ->
  0 <= s1 <= e1 -> e1 <= Z.of_nat (AudioBuffer.length b) ->
  0 <= s2 <= e2 -> e2 <= e1 - s1 ->
  exists (r1 r2 r3 : AudioBuffer.t) (h1 h2 h3 : heap),
    slice b (Some s1) (Some e1) h = Returned r1 h1
    /\ slice r1 (Some s2) (Some e2) h1 = Returned r2 h2
    /\ slice b (Some (s1 + s2)) (Some (s1 + e2)) h = Returned r3 h3
    /\ numberOfChannels r2 = numberOfChannels r3
    /\ AudioBuffer.length r2 = AudioBuffer.length r3
    /\ Z.of_nat (AudioBuffer.length r2) = e2 - s2
    /\ sampleRate r2 = sampleRate r3
    /\ forall c, (c < numberOfChannels b)%nat ->
         exists a', channel h2 r2 c = Some a' /\ channel h3 r3 c = Some a'.
Proof.
  intros Hwf Hs1 He1 Hs2 He2.
  destruct (slice_run h b (Some s1) (Some e1) Hwf)
    as (r1 & ext1 & Hrun1 & Hnc1 & Hsr1 & HL1 & Hwf1 & _ & Hch1).
  destruct (slice_run (h ++ ext1) r1 (Some s2) (Some e2) Hwf1)
    as (r2 & ext2 & Hrun2 & Hnc2 & Hsr2 & HL2 & _ & _ & Hch2).
  destruct (slice_run h b (Some (s1 + s2)) (Some (s1 + e2)) Hwf)
    as (r3 & ext3 & Hrun3 & Hnc3 & Hsr3 & HL3 & _ & _ & Hch3).
  assert (HL1' : Z.of_nat (AudioBuffer.length r1) = e1 - s1).
  { rewrite HL1, ta_slice_range by (rewrite ?length_replicate; lia).
    rewrite length_take, length_drop, length_replicate. lia. }
  assert (HL2' : Z.of_nat (AudioBuffer.length r2) = e2 - s2).
  { rewrite HL2, ta_slice_range by (rewrite ?length_replicate; lia).
    rewrite length_take, length_drop, length_replicate. lia. }
  assert (HL3' : Z.of_nat (AudioBuffer.length r3) = e2 - s2).
  { rewrite HL3, ta_slice_range by (rewrite ?length_replicate; lia).
    rewrite length_take, length_drop, length_replicate. lia. }
  exists r1, r2, r3, (h ++ ext1), ((h ++ ext1) ++ ext2), (h ++ ext3).
  split; [done|]. split; [done|]. split; [done|].
  split; [congruence|]. split; [lia|]. split; [done|]. split; [congruence|].
  intros c Hc. destruct (wf_channel_Some h b c Hwf Hc) as (a & Ha & HLa).
  eexists. split; [by apply Hch2, Hch1|].
  rewrite (Hch3 c a Ha).
  rewrite (ta_slice_range a s1 e1), (ta_slice_range a (s1 + s2) (s1 + e2))
    by lia.
  rewrite ta_slice_range by (rewrite ?length_take, ?length_drop; lia).
  f_equal. apply list_eq. intros i.
  rewrite !lookup_take, !lookup_drop, lookup_take, lookup_drop.
  repeat case_decide; try lia; try done. f_equal. lia.
Qed.

Lemma slice_of_slice_witness :
  (wf store_1234 buffer_1234
   /\ 0 <= 1 <= 4 /\ 4 <= Z.of_nat (AudioBuffer.length buffer_1234)
   /\ 0 <= 1 <= 2 /\ 2 <= 4 - 1)
  /\ exists (r1 r2 r3 : AudioBuffer.t) (h1 h2 h3 : heap),
       slice buffer_1234 (Some 1) (Some 4) store_1234 = Returned r1 h1
       /\ slice r1 (Some 1) (Some 2) h1 = Returned r2 h2.
Proof.
  assert (Hwf : wf store_1234 buffer_1234).
  { apply (bool_decide_unpack _). vm_compute. exact I. }
  assert (H1 : 0 <= 1 <= 4) by lia.
  assert (H2 : 4 <= Z.of_nat (AudioBuffer.length buffer_1234)) by (simpl; lia).
  assert (H3 : 0 <= 1 <= 2) by lia.
  assert (H4 : 2 <= 4 - 1) by lia.
  split; [by split_and!|].
  destruct (slice_of_slice store_1234 buffer_1234 1 4 1 2 Hwf H1 H2 H3 H4)
    as (r1 & r2 & r3 & h1 & h2 & h3 & Hrun1 & Hrun2 & _).
  by exists r1, r2, r3, h1, h2, h3.
Defined.

(** The span of a buffer does not change when the store grows. *)
Lemma span_app (h ext : heap) (x : AudioBuffer.t) (c : nat) :
  wf h x -> span (h ++ ext) x c = span h x c.
Proof.
  intros Hwf. destruct (decide (c < numberOfChannels x)%nat) as [Hc|Hc].
  - destruct (wf_channel_Some h x c Hwf Hc) as (a & Ha & _).
    by rewrite (span_Some _ _ _ _ Ha), (span_Some _ _ _ _ (channel_app _ ext _ _ _ Ha)).
  - rewrite !span_None; [done..|lia| |lia]. by apply wf_app.
Qed.

(** What [concat] of two well-formed buffers returns and leaves. *)
Lemma concat2_built (h : heap) (a b : AudioBuffer.t) :
  wf h a -> wf h b ->
  exists (r : AudioBuffer.t) (ext : heap),
    concat2 a b h = Returned r (h ++ ext)
    /\ numberOfChannels r = Nat.max (numberOfChannels a) (numberOfChannels b)
    /\ AudioBuffer.length r = (AudioBuffer.length a + AudioBuffer.length b)%nat
    /\ sampleRate r = Z.max (sampleRate a) (sampleRate b)
    /\ wf (h ++ ext) r
    /\ (forall c, (c < numberOfChannels r)%nat ->
          channel (h ++ ext) r c = Some (fround <$> (span h a c ++ span h b c)))
    /\ (forall c, span (h ++ ext) r c = fround <$> (span h a c ++ span h b c)).
Proof.
  intros Hwfa Hwfb. eexists _, _. split; [by apply concat2_run|].
  assert (Hn : (0 < Nat.max (numberOfChannels a) (numberOfChannels b))%nat).
  { destruct Hwfa. lia. }
  assert (Hwfr : wf (h ++ ((fun c => fround <$> (span h a c ++ span h b c))
                            <$> seq 0 (Nat.max (numberOfChannels a)
                                               (numberOfChannels b))))
                    (AudioBuffer.Build
                       (Nat.max (numberOfChannels a) (numberOfChannels b))
                       (AudioBuffer.length a + AudioBuffer.length b)
                       (Z.max (sampleRate a) (sampleRate b))
                       (seq (length h) (Nat.max (numberOfChannels a)
                                                (numberOfChannels b))))).
  { apply wf_built; [done|]. intros c _.
    by rewrite length_fmap, length_app, !length_span. }
  simpl. split_and!; [done..| |].
  - intros c Hc. by apply channel_built.
  - intros c.
    destruct (decide (c < Nat.max (numberOfChannels a) (numberOfChannels b))%nat)
      as [Hc|Hc].
    + apply span_Some. by apply channel_built.
    + rewrite span_None; [|done|simpl; lia]. simpl.
      rewrite !span_None by (done || lia).
      by rewrite <- replicate_add, fround_zeros.
Qed.

(** The spans of a buffer of 32-bit samples are their own roundings. *)
Lemma binary32_channel (h : heap) (b : AudioBuffer.t) (c : nat)
    (a : list sample) :
  binary32 h b -> channel h b c = Some a -> fround <$> a = a.
Proof.
  intros Hb Ha. unfold channel in Ha.
  destruct (AudioBuffer.data b !! c) as [l|] eqn:Hl; [|done]. simpl in Ha.
  unfold binary32 in Hb. rewrite Forall_lookup in Hb.
  specialize (Hb c l Hl). rewrite Ha in Hb. simpl in Hb.
  apply list_eq. intros i. rewrite list_lookup_fmap.
  destruct (a !! i) as [x|] eqn:Hx; [|done]. simpl. f_equal.
  rewrite Forall_lookup in Hb. by apply (Hb i).
Qed.

Lemma binary32_span (h : heap) (b : AudioBuffer.t) (c : nat) :
  binary32 h b -> fround <$> span h b c = span h b c.
Proof.
  intros Hb. unfold span.
  destruct (channel h b c) as [a|] eqn:Ha; simpl.
  - by eapply binary32_channel.
  - apply fround_zeros.
Qed.

(** X12: cutting a buffer in two and joining the parts gives the buffer
    back, as a Float32Array holds it: for [0 <= k <= length],
    [concat(slice(b, 0, k), slice(b, k))] has the shape of [b] and, in
    every channel, the samples of [b] rounded to binary32; so the samples
    of [b] themselves when they are values of 32 bits.  [b] is
    unchanged. *)
Theorem concat_of_slices_restores (h : heap) (b : AudioBuffer.t) (k : Z) :
  wf h b -> 0 <= k <= Z.of_nat (AudioBuffer.length b) ->
  exists (r : AudioBuffer.t) (h' : heap),
    (let* p := slice b (Some 0) (Some k) in
     let* q := slice b (Some k) None in
     concat [p; q]) h = Returned r h'
    /\ numberOfChannels r = numberOfChannels b
    /\ AudioBuffer.length r = AudioBuffer.length b
    /\ sampleRate r = sampleRate b
    /\ (forall c a, channel h b c = Some a ->
          channel h' r c = Some (fround <$> a) /\ channel h' b c = Some a)
    /\ (binary32 h b ->
        forall c a, channel h b c = Some a -> channel h' r c = Some a).
Proof.
  intros Hwf Hk.
  destruct (slice_run h b (Some 0) (Some k) Hwf)
    as (p & ext1 & Hrun1 & Hncp & Hsrp & HLp & Hwfp & _ & Hchp).
  pose proof (wf_app h ext1 b Hwf) as Hwf1.
  destruct (slice_run (h ++ ext1) b (Some k) None Hwf1)
    as (q & ext2 & Hrun2 & Hncq & Hsrq & HLq & Hwfq & _ & Hchq).
  pose proof (wf_app (h ++ ext1) ext2 p Hwfp) as Hwfp2.
  destruct (concat2_built ((h ++ ext1) ++ ext2) p q Hwfp2 Hwfq)
    as (r & ext3 & Hrun3 & Hnc & HL & Hsr & _ & Hch & _).
  exists r, (((h ++ ext1) ++ ext2) ++ ext3).
  rewrite (bind_Returned _ _ _ _ _ Hrun1), (bind_Returned _ _ _ _ _ Hrun2).
  assert (Hr : forall c a, channel h b c = Some a ->
            channel (((h ++ ext1) ++ ext2) ++ ext3) r c = Some (fround <$> a)).
  { intros c a Ha. destruct (channel_lt h b c a Hwf Ha) as [Hc HLa].
    rewrite Hch by lia.
    rewrite (span_Some _ _ _ _ (channel_app _ ext2 _ _ _ (Hchp c a Ha))).
    rewrite (span_Some _ _ _ _ (Hchq c a (channel_app _ ext1 _ _ _ Ha))).
    rewrite ta_slice_range, ta_slice_from by lia.
    rewrite Z.sub_0_r. simpl. by rewrite take_drop. }
  split; [done|]. split; [lia|]. split; [|split; [lia|split]].
  - rewrite HL, HLp, HLq.
    rewrite ta_slice_range, ta_slice_from by (rewrite ?length_replicate; lia).
    rewrite length_take, !length_drop, !length_replicate. lia.
  - intros c a Ha. split; [by apply Hr|by do 3 apply channel_app].
  - intros Hb c a Ha. by rewrite (Hr c a Ha), (binary32_channel h b c a Hb Ha).
Qed.

Lemma concat_of_slices_restores_witness :
  (wf store_stereo buffer_stereo
   /\ 0 <= 2 <= Z.of_nat (AudioBuffer.length buffer_stereo))
  /\ exists (r : AudioBuffer.t) (h' : heap),
       (let* p := slice buffer_stereo (Some 0) (Some 2) in
        let* q := slice buffer_stereo (Some 2) None in
        concat [p; q]) store_stereo = Returned r h'
       /\ AudioBuffer.length r = AudioBuffer.length buffer_stereo.
Proof.
  assert (Hwf : wf store_stereo buffer_stereo).
  { apply (bool_decide_unpack _). vm_compute. exact I. }
  assert (Hk : 0 <= 2 <= Z.of_nat (AudioBuffer.length buffer_stereo)).
  { simpl. lia. }
  split; [by split|].
  destruct (concat_of_slices_restores store_stereo buffer_stereo 2 Hwf Hk)
    as (r & h' & Hrun & _ & HL & _).
  by exists r, h'.
Defined.

(** X13: the two inputs can be cut out of a concatenation, as a
    Float32Array holds them: with [r = concat(a, b)], every channel that
    [a] has is found again, rounded to binary32, in
    [slice(r, 0, a.length)], and every channel that [b] has in
    [slice(r, a.length)]; so the samples themselves when they are values
    of 32 bits. *)
Theorem slices_of_concat_recover (h : heap) (a b : AudioBuffer.t) :
  wf h a -> wf h b ->
  exists (r pa pb : AudioBuffer.t) (h1 h2 h3 : heap),
    concat [a; b] h = Returned r h1
    /\ slice r (Some 0) (Some (Z.of_nat (AudioBuffer.length a))) h1
       = Returned pa h2
    /\ slice r (Some (Z.of_nat (AudioBuffer.length a))) None h2
       = Returned pb h3
    /\ AudioBuffer.length pa = AudioBuffer.length a
    /\ AudioBuffer.length pb = AudioBuffer.length b
    /\ (forall c x, channel h a c = Some x ->
          channel h2 pa c = Some (fround <$> x))
    /\ (forall c y, channel h b c = Some y ->
          channel h3 pb c = Some (fround <$> y))
    /\ (binary32 h a ->
        forall c x, channel h a c = Some x -> channel h2 pa c = Some x)
    /\ (binary32 h b ->
        forall c y, channel h b c = Some y -> channel h3 pb c = Some y).
Proof.
  intros Hwfa Hwfb.
  destruct (concat2_built h a b Hwfa Hwfb)
    as (r & ext1 & Hrun1 & Hnc & HL & Hsr & Hwfr & Hch & _).
  destruct (slice_run (h ++ ext1) r (Some 0)
              (Some (Z.of_nat (AudioBuffer.length a))) Hwfr)
    as (pa & ext2 & Hrun2 & _ & _ & HLpa & _ & _ & Hchpa).
  pose proof (wf_app (h ++ ext1) ext2 r Hwfr) as Hwfr2.
  destruct (slice_run ((h ++ ext1) ++ ext2) r
              (Some (Z.of_nat (AudioBuffer.length a))) None Hwfr2)
    as (pb & ext3 & Hrun3 & _ & _ & HLpb & _ & _ & Hchpb).
  exists r, pa, pb, (h ++ ext1), ((h ++ ext1) ++ ext2),
         (((h ++ ext1) ++ ext2) ++ ext3).
  assert (Hpa : forall c x, channel h a c = Some x ->
            channel ((h ++ ext1) ++ ext2) pa c = Some (fround <$> x)).
  { intros c x Hx. destruct (channel_lt h a c x Hwfa Hx) as [Hc HLx].
    rewrite (Hchpa c _ (Hch c ltac:(lia))). rewrite fmap_app.
    rewrite ta_slice_range
      by (rewrite ?length_app, ?length_fmap, ?length_span; done || lia).
    rewrite Z.sub_0_r, Nat2Z.id. rewrite (span_Some _ _ _ _ Hx).
    change (Z.to_nat 0) with 0%nat. rewrite drop_0.
    rewrite take_app_length'; [done|]. by rewrite length_fmap. }
  assert (Hpb : forall c y, channel h b c = Some y ->
            channel (((h ++ ext1) ++ ext2) ++ ext3) pb c = Some (fround <$> y)).
  { intros c y Hy. destruct (channel_lt h b c y Hwfb Hy) as [Hc HLy].
    rewrite (Hchpb c _ (channel_app _ ext2 _ _ _ (Hch c ltac:(lia)))).
    rewrite fmap_app.
    rewrite ta_slice_from
      by (rewrite ?length_app, ?length_fmap, ?length_span; done || lia).
    rewrite Nat2Z.id. rewrite (span_Some _ _ _ _ Hy).
    rewrite drop_app_length'; [done|]. by rewrite length_fmap, length_span. }
  split; [done|]. split; [done|]. split; [done|]. split_and!.
  - rewrite HLpa, ta_slice_range by (rewrite ?length_replicate; lia).
    rewrite length_take, length_drop, length_replicate. lia.
  - rewrite HLpb, ta_slice_from by (rewrite ?length_replicate; lia).
    rewrite length_drop, length_replicate. lia.
  - done.
  - done.
  - intros Hb c x Hx. by rewrite (Hpa c x Hx), (binary32_channel h a c x Hb Hx).
  - intros Hb c y Hy. by rewrite (Hpb c y Hy), (binary32_channel h b c y Hb Hy).
Qed.

Lemma slices_of_concat_recover_witness :
  (wf store_12_345 buffer_12 /\ wf store_12_345 buffer_345)
  /\ exists (r : AudioBuffer.t) (h1 : heap),
       concat [buffer_12; buffer_345] store_12_345 = Returned r h1.
Proof.
  assert (Hwf1 : wf store_12_345 buffer_12).
  { apply (bool_decide_unpack _). vm_compute. exact I. }
  assert (Hwf2 : wf store_12_345 buffer_345).
  { apply (bool_decide_unpack _). vm_compute. exact I. }
  split; [by split|].
  destruct (slices_of_concat_recover store_12_345 buffer_12 buffer_345 Hwf1 Hwf2)
    as (r & pa & pb & h1 & h2 & h3 & Hrun & _).
  by exists r, h1.
Defined.

(** X14: on buffers of 32-bit samples [concat] is associative in what it
    builds: [concat(a, b, c)], which is [concat(concat(a, b), c)], and
    [concat(a, concat(b, c))] return buffers of the same shape whose
    channels hold the same samples: the span of [a], then that of [b],
    then that of [c]. *)
Theorem concat_associative (h : heap) (a b c : AudioBuffer.t) :
  wf h a -> wf h b -> wf h c ->
  binary32 h a -> binary32 h b -> binary32 h c ->
  exists (l r : AudioBuffer.t) (hl hr : heap),
    concat [a; b; c] h = Returned l hl
    /\ (let* bc := concat [b; c] in concat [a; bc]) h = Returned r hr
    /\ numberOfChannels l = numberOfChannels r
    /\ AudioBuffer.length l = AudioBuffer.length r
    /\ sampleRate l = sampleRate r
    /\ forall ch, (ch < numberOfChannels l)%nat ->
         channel hl l ch = Some (span h a ch ++ span h b ch ++ span h c ch)
         /\ channel hr r ch = Some (span h a ch ++ span h b ch ++ span h c ch).
Proof.
  intros Hwfa Hwfb Hwfc Hba Hbb Hbc.
  destruct (concat2_built h a b Hwfa Hwfb)
    as (ab & ext1 & Hrun1 & Hnc1 & HL1 & Hsr1 & Hwfab & _ & Hspan1).
  pose proof (wf_app h ext1 c Hwfc) as Hwfc1.
  destruct (concat2_built (h ++ ext1) ab c Hwfab Hwfc1)
    as (l & ext2 & Hrun2 & Hnc2 & HL2 & Hsr2 & _ & Hch2 & _).
  destruct (concat2_built h b c Hwfb Hwfc)
    as (bc & ext3 & Hrun3 & Hnc3 & HL3 & Hsr3 & Hwfbc & _ & Hspan3).
  pose proof (wf_app h ext3 a Hwfa) as Hwfa3.
  destruct (concat2_built (h ++ ext3) a bc Hwfa3 Hwfbc)
    as (r & ext4 & Hrun4 & Hnc4 & HL4 & Hsr4 & _ & Hch4 & _).
  exists l, r, ((h ++ ext1) ++ ext2), ((h ++ ext3) ++ ext4).
  split_and!.
  - simpl. by rewrite (bind_Returned _ _ _ _ _ Hrun1),
                      (bind_Returned _ _ _ _ _ Hrun2).
  - simpl. by rewrite (bind_Returned _ _ _ _ _ Hrun3).
  - lia.
  - lia.
  - lia.
  - intros ch Hch. split.
    + rewrite Hch2 by done. rewrite Hspan1, span_app by done.
      rewrite !fmap_app.
      rewrite !(binary32_span h a ch Hba), !(binary32_span h b ch Hbb),
              !(binary32_span h c ch Hbc).
      by rewrite <- app_assoc.
    + rewrite Hch4 by lia. rewrite Hspan3, span_app by done.
      rewrite !fmap_app.
      by rewrite !(binary32_span h a ch Hba), !(binary32_span h b ch Hbb),
                 !(binary32_span h c ch Hbc).
Qed.

Lemma concat_associative_witness :
  (wf store_12_345 buffer_12 /\ wf store_12_345 buffer_345
   /\ wf store_12_345 buffer_12
   /\ binary32 store_12_345 buffer_12 /\ binary32 store_12_345 buffer_345
   /\ binary32 store_12_345 buffer_12)
  /\ exists (l : AudioBuffer.t) (hl : heap),
       concat [buffer_12; buffer_345; buffer_12] store_12_345 = Returned l hl.
Proof.
  assert (Hwf1 : wf store_12_345 buffer_12).
  { apply (bool_decide_unpack _). vm_compute. exact I. }
  assert (Hwf2 : wf store_12_345 buffer_345).
  { apply (bool_decide_unpack _). vm_compute. exact I. }
  assert (Hb1 : binary32 store_12_345 buffer_12).
  { apply (bool_decide_unpack _). vm_compute. exact I. }
  assert (Hb2 : binary32 store_12_345 buffer_345).
  { apply (bool_decide_unpack _). vm_compute. exact I. }
  split; [by split_and!|].
  destruct (concat_associative store_12_345 buffer_12 buffer_345 buffer_12
              Hwf1 Hwf2 Hwf1 Hb1 Hb2 Hb1) as (l & r & hl & hr & Hrun & _).
  by exists l, hl.
Defined.

(** ** [resize] in both directions *)

Lemma resize_grow_witness :
  (wf store_12_345 buffer_12
   /\ (0 < default_channels audio_buffer_defaults)%nat
   /\ Z.of_nat (AudioBuffer.length buffer_12) < 5)
  /\ exists (r : AudioBuffer.t) (h' : heap),
       resize audio_buffer_defaults buffer_12 5 store_12_345 = Returned r h'
       /\ Z.of_nat (AudioBuffer.length r) = 5.
Proof.
  assert (Hwf : wf store_12_345 buffer_12).
  { apply (bool_decide_unpack _). vm_compute. exact I. }
  assert (Hd : (0 < default_channels audio_buffer_defaults)%nat).
  { simpl. lia. }
  assert (Hn : Z.of_nat (AudioBuffer.length buffer_12) < 5).
  { simpl. lia. }
  split; [by split_and!|].
  destruct (resize_grow audio_buffer_defaults store_12_345 buffer_12 5
              Hwf Hd Hn) as (r & h' & Hrun & _ & _ & HL & _).
  by exists r, h'.
Defined.

(** X15: shrinking.  For [n] below the length of [b], [resize(b, n)] is
    [slice(b, 0, n)] whatever the defaults of the constructor: a new
    buffer with the channel count and sample rate of [b] whose channels
    are the first samples of those of [b].  Their number is [n] when
    [n >= 0]; a negative [n] counts back from the end, so that
    [resize(b, -1)] drops the last sample only. *)
Theorem resize_shrink (d : defaults) (h : heap) (b : AudioBuffer.t) (n : Z) :
  wf h b -> n < Z.of_nat (AudioBuffer.length b) ->
  exists (r : AudioBuffer.t) (h' : heap),
    resize d b n h = Returned r h'
    /\ numberOfChannels r = numberOfChannels b
    /\ sampleRate r = sampleRate b
    /\ Z.of_nat (AudioBuffer.length r)
       = (if n <? 0 then Z.max (Z.of_nat (AudioBuffer.length b) + n) 0 else n)
    /\ wf h' r
    /\ (forall l a, h !! l = Some a -> h' !! l = Some a)
    /\ (forall c a, channel h b c = Some a ->
          channel h' r c = Some (take (AudioBuffer.length r) a)).
Proof.
  intros Hwf Hn. unfold resize.
  destruct (Z.ltb_spec n (Z.of_nat (AudioBuffer.length b))) as [_|]; [|lia].
  destruct (slice_run h b (Some 0) (Some n) Hwf)
    as (r & ext & Hrun & Hnc & Hsr & HL & Hwfr & _ & Hch).
  assert (Hslice : forall a : list sample,
            length a = AudioBuffer.length b ->
            ta_slice a (Some 0) (Some n)
            = take (Z.to_nat (if n <? 0
                              then Z.max (Z.of_nat (AudioBuffer.length b) + n) 0
                              else n)) a).
  { intros a Ha. unfold ta_slice, relative_index. simpl. rewrite Ha.
    rewrite !Z.min_l by lia. change (Z.to_nat 0) with 0%nat. rewrite drop_0.
    f_equal. destruct (Z.ltb_spec n 0); lia. }
  assert (HL' : Z.of_nat (AudioBuffer.length r)
                = (if n <? 0
                   then Z.max (Z.of_nat (AudioBuffer.length b) + n) 0 else n)).
  { rewrite HL, Hslice by apply length_replicate.
    rewrite length_take, length_replicate. destruct (Z.ltb_spec n 0); lia. }
  exists r, (h ++ ext). split_and!; [done..| |].
  - intros l a. apply lookup_app_l_Some.
  - intros c a Ha. destruct (channel_lt h b c a Hwf Ha) as [_ HLa].
    rewrite (Hch c a Ha), Hslice by done. rewrite <- HL'.
    by rewrite Nat2Z.id.
Qed.

Lemma resize_shrink_witness :
  (wf store_1234 buffer_1234 /\ -1 < Z.of_nat (AudioBuffer.length buffer_1234))
  /\ exists (r : AudioBuffer.t) (h' : heap),
       resize audio_buffer_defaults buffer_1234 (-1) store_1234 = Returned r h'
       /\ Z.of_nat (AudioBuffer.length r) = 3.
Proof.
  assert (Hwf : wf store_1234 buffer_1234).
  { apply (bool_decide_unpack _). vm_compute. exact I. }
  assert (Hn : -1 < Z.of_nat (AudioBuffer.length buffer_1234)).
  { simpl. lia. }
  split; [by split|].
  destruct (resize_shrink audio_buffer_defaults store_1234 buffer_1234 (-1)
              Hwf Hn) as (r & h' & Hrun & _ & _ & HL & _).
  by exists r, h'.
Defined.

(** The growing branch with the store it leaves. *)
Lemma resize_grow_built (d : defaults) (h : heap) (b : AudioBuffer.t) (n : Z) :
  wf h b -> (0 < default_channels d)%nat ->
  Z.of_nat (AudioBuffer.length b) <= n ->
  exists (r : AudioBuffer.t) (ext : heap),
    resize d b n h = Returned r (h ++ ext)
    /\ Z.of_nat (AudioBuffer.length r) = n
    /\ wf (h ++ ext) r
    /\ (forall c x, channel h b c = Some x ->
          channel (h ++ ext) r c
          = Some ((fround <$> x)
                  ++ replicate (Z.to_nat n - AudioBuffer.length b) pos_zero)).
Proof.
  intros Hwf Hd Hn. unfold resize.
  destruct (Z.ltb_spec n (Z.of_nat (AudioBuffer.length b))) as [|_]; [lia|].
  set (k := Z.to_nat (n - Z.of_nat (AudioBuffer.length b))).
  rewrite (bind_Returned _ _ _ _ _ (AudioBuffer_of_length_run d k h)).
  set (padding := AudioBuffer.Build (default_channels d) k (default_rate d)
                    (seq (length h) (default_channels d))).
  set (h1 := h ++ ((fun _ => Float32Array_new k) <$> seq 0 (default_channels d))).
  assert (Hwfb : wf h1 b) by by apply wf_app.
  assert (Hwfp : wf h1 padding).
  { apply wf_built; [done|]. intros c _. apply length_Float32Array_new. }
  assert (Hpad : forall c, span h1 padding c = replicate k pos_zero).
  { intros c. destruct (decide (c < default_channels d)%nat) as [Hc|Hc].
    - apply span_Some. unfold h1, padding. by rewrite channel_built.
    - rewrite span_None; [done..|simpl; lia]. }
  destruct (concat2_built h1 b padding Hwfb Hwfp)
    as (r & ext & Hrun & Hnc & HL & _ & Hwfr & Hch & _).
  exists r, (((fun _ => Float32Array_new k) <$> seq 0 (default_channels d)) ++ ext).
  rewrite app_assoc. fold h1. simpl. split; [done|].
  split; [rewrite HL; simpl; unfold k; lia|]. split; [done|].
  intros c x Hx. destruct (channel_lt h b c x Hwf Hx) as [Hc _].
  rewrite Hch by lia. rewrite Hpad.
  rewrite (span_Some h1 b c x (channel_app _ _ _ _ _ Hx)).
  rewrite fmap_app, fround_zeros.
  do 3 f_equal. unfold k. lia.
Qed.

(** X17: growing and shrinking back: for [n] above the length of [b],
    [resize(resize(b, n), b.length)] has the length of [b] and, in every
    channel that [b] has, the samples of [b] rounded to binary32 (the
    growing step copies them into a Float32Array); so the samples of [b]
    themselves when they are values of 32 bits. *)
Theorem resize_grow_then_shrink (d : defaults) (h : heap) (b : AudioBuffer.t)
    (n : Z) :
  wf h b -> (0 < default_channels d)%nat ->
  Z.of_nat (AudioBuffer.length b) < n ->
  exists (r1 r2 : AudioBuffer.t) (h1 h2 : heap),
    resize d b n h = Returned r1 h1
    /\ resize d r1 (Z.of_nat (AudioBuffer.length b)) h1 = Returned r2 h2
    /\ AudioBuffer.length r2 = AudioBuffer.length b
    /\ (forall c x, channel h b c = Some x ->
          channel h2 r2 c = Some (fround <$> x))
    /\ (binary32 h b ->
        forall c x, channel h b c = Some x -> channel h2 r2 c = Some x).
Proof.
  intros Hwf Hd Hn.
  destruct (resize_grow_built d h b n Hwf Hd ltac:(lia))
    as (r1 & ext1 & Hrun1 & HL1 & Hwf1 & Hch1).
  exists r1. unfold resize at 2.
  destruct (Z.ltb_spec (Z.of_nat (AudioBuffer.length b))
              (Z.of_nat (AudioBuffer.length r1))) as [_|]; [|lia].
  destruct (slice_run (h ++ ext1) r1 (Some 0)
              (Some (Z.of_nat (AudioBuffer.length b))) Hwf1)
    as (r2 & ext2 & Hrun2 & _ & _ & HL2 & _ & _ & Hch2).
  exists r2, (h ++ ext1), ((h ++ ext1) ++ ext2).
  assert (Hr2 : forall c x, channel h b c = Some x ->
            channel ((h ++ ext1) ++ ext2) r2 c = Some (fround <$> x)).
  { intros c x Hx. destruct (channel_lt h b c x Hwf Hx) as [_ HLx].
    rewrite (Hch2 c _ (Hch1 c x Hx)).
    rewrite ta_slice_range by (rewrite ?length_app, ?length_fmap; lia).
    rewrite Z.sub_0_r, Nat2Z.id. change (Z.to_nat 0) with 0%nat.
    rewrite drop_0. rewrite take_app_length'; [done|].
    by rewrite length_fmap. }
  split; [done|]. split; [done|]. split_and!.
  - rewrite HL2, ta_slice_range by (rewrite ?length_replicate; lia).
    rewrite length_take, length_drop, length_replicate. lia.
  - done.
  - intros Hb c x Hx. by rewrite (Hr2 c x Hx), (binary32_channel h b c x Hb Hx).
Qed.

Lemma resize_grow_then_shrink_witness :
  (wf store_12_345 buffer_12
   /\ (0 < default_channels audio_buffer_defaults)%nat
   /\ Z.of_nat (AudioBuffer.length buffer_12) < 5)
  /\ exists (r1 r2 : AudioBuffer.t) (h1 h2 : heap),
       resize audio_buffer_defaults buffer_12 5 store_12_345 = Returned r1 h1
       /\ resize audio_buffer_defaults r1
            (Z.of_nat (AudioBuffer.length buffer_12)) h1 = Returned r2 h2.
Proof.
  assert (Hwf : wf store_12_345 buffer_12).
  { apply (bool_decide_unpack _). vm_compute. exact I. }
  assert (Hd : (0 < default_channels audio_buffer_defaults)%nat).
  { simpl. lia. }
  assert (Hn : Z.of_nat (AudioBuffer.length buffer_12) < 5).
  { simpl. lia. }
  split; [by split_and!|].
  destruct (resize_grow_then_shrink audio_buffer_defaults store_12_345
              buffer_12 5 Hwf Hd Hn) as (r1 & r2 & h1 & h2 & Hrun1 & Hrun2 & _).
  by exists r1, r2, h1, h2.
Defined.

(** ** [rotate] and [shift] composed *)

Lemma rotate_moves_witness :
  (wf store_1234 buffer_1234
   /\ - Z.of_nat (AudioBuffer.length buffer_1234) <= 6
   /\ rotate_exact (Z.of_nat (AudioBuffer.length buffer_1234)) 6)
  /\ exists h' : heap,
       rotate buffer_1234 6 store_1234 = Returned buffer_1234 h'.
Proof.
  assert (Hwf : wf store_1234 buffer_1234).
  { apply (bool_decide_unpack _). vm_compute. exact I. }
  assert (Ho : - Z.of_nat (AudioBuffer.length buffer_1234) <= 6).
  { simpl. lia. }
  assert (He : rotate_exact (Z.of_nat (AudioBuffer.length buffer_1234)) 6).
  { unfold rotate_exact, max_safe_integer. simpl. lia. }
  split; [by split_and!|].
  destruct (rotate_moves store_1234 buffer_1234 6 Hwf Ho He)
    as (h' & Hrun & _).
  by exists h'.
Defined.

(** Two stores are the same when they agree on the channels of a
    well-formed buffer and on every other array. *)
Lemma store_eq_by_channels (h1 h2 : heap) (b : AudioBuffer.t) :
  (forall c, channel h2 b c = channel h1 b c) ->
  (forall l, l ∉ AudioBuffer.data b -> h2 !! l = h1 !! l) ->
  h2 = h1.
Proof.
  intros Hin Hout. apply list_eq. intros l.
  destruct (decide (l ∈ AudioBuffer.data b)) as [Hl|Hl]; [|by apply Hout].
  apply list_elem_of_lookup in Hl as [c Hc].
  specialize (Hin c). unfold channel in Hin. by rewrite Hc in Hin.
Qed.

Lemma rotate_loop_add (k1 k2 : Z) (a : list sample) :
  - Z.of_nat (length a) <= k1 -> - Z.of_nat (length a) <= k2 ->
  - Z.of_nat (length a) <= k1 + k2 ->
  let r := rotate_loop k1 a a in
  rotate_loop k2 r r = rotate_loop (k1 + k2) a a.
Proof.
  intros Hk1 Hk2 Hk r.
  destruct (rotate_loop_spec k1 a Hk1) as [Hlen1 Hr1]. fold r in Hlen1, Hr1.
  destruct (rotate_loop_spec k2 r) as [Hlen2 Hr2]; [lia|].
  destruct (rotate_loop_spec (k1 + k2) a Hk) as [Hlen3 Hr3].
  rewrite Hlen1 in Hr2. clearbody r.
  apply list_eq_same_length with (length a); [done|lia|].
  intros j x y Hj Hx Hy. rewrite Hr2 in Hx by lia.
  pose proof (Z.mod_pos_bound (Z.of_nat j - k2) (Z.of_nat (length a))
                ltac:(lia)) as Hp.
  rewrite Hr1 in Hx by lia. rewrite Z2Nat.id in Hx by lia.
  rewrite Zminus_mod_idemp_l in Hx. rewrite Hr3 in Hy by lia.
  replace (Z.of_nat j - k2 - k1) with (Z.of_nat j - (k1 + k2)) in Hx by lia.
  congruence.
Qed.

Lemma rotate_loop_full_turns (m : Z) (a : list sample) :
  -1 <= m -> rotate_loop (m * Z.of_nat (length a)) a a = a.
Proof.
  intros Hm.
  destruct (rotate_loop_spec (m * Z.of_nat (length a)) a) as [Hlen Hr]; [nia|].
  apply list_eq_same_length with (length a); [done..|].
  intros j x y Hj Hx Hy. rewrite Hr in Hx by lia.
  replace (Z.of_nat j - m * Z.of_nat (length a))
    with (Z.of_nat j + (- m) * Z.of_nat (length a)) in Hx by lia.
  rewrite Z_mod_plus_full, Z.mod_small, Nat2Z.id in Hx by lia. congruence.
Qed.

Lemma rotate_wf (h : heap) (b : AudioBuffer.t) (k : Z) :
  wf h b ->
  exists h' : heap,
    rotate b k h = Returned b h'
    /\ wf h' b
    /\ (forall c a, channel h b c = Some a ->
                    channel h' b c = Some (rotate_loop k a a))
    /\ (forall l, l ∉ AudioBuffer.data b -> h' !! l = h !! l).
Proof.
  intros Hwf. destruct (rotate_run h b k Hwf) as (h' & Hrun & _ & Hin & Hout).
  exists h'. split_and!; [done| |done..].
  apply (wf_in_place b (fun _ a => rotate_loop k a a) h h'); [done| |done].
  intros c a HL. by rewrite length_rotate_loop.
Qed.

(** X19: rotations add up: for offsets [k1], [k2] and [k1 + k2] that are
    not below minus the length, and that keep the sums of the index
    formula within the safe integers, rotating by [k1] and then by [k2]
    leaves the store that rotating by [k1 + k2] leaves. *)
Theorem rotate_adds_up (h : heap) (b : AudioBuffer.t) (k1 k2 : Z) :
  wf h b ->
  - Z.of_nat (AudioBuffer.length b) <= k1 ->
  - Z.of_nat (AudioBuffer.length b) <= k2 ->
  - Z.of_nat (AudioBuffer.length b) <= k1 + k2 ->
  rotate_exact (Z.of_nat (AudioBuffer.length b)) k1 ->
  rotate_exact (Z.of_nat (AudioBuffer.length b)) k2 ->
  rotate_exact (Z.of_nat (AudioBuffer.length b)) (k1 + k2) ->
  exists h1 h2 : heap,
    rotate b k1 h = Returned b h1
    /\ rotate b k2 h1 = Returned b h2
    /\ rotate b (k1 + k2) h = Returned b h2.
Proof.
  intros Hwf Hk1 Hk2 Hk _ _ _.
  destruct (rotate_wf h b k1 Hwf) as (h1 & Hrun1 & Hwf1 & Hin1 & Hout1).
  destruct (rotate_wf h1 b k2 Hwf1) as (h2 & Hrun2 & Hwf2 & Hin2 & Hout2).
  destruct (rotate_wf h b (k1 + k2) Hwf) as (h3 & Hrun3 & Hwf3 & Hin3 & Hout3).
  exists h1, h2. split; [done|]. split; [done|]. rewrite Hrun3. f_equal.
  apply (store_eq_by_channels h2 h3 b).
  - intros c. destruct (decide (c < numberOfChannels b)%nat) as [Hc|Hc].
    + destruct (wf_channel_Some h b c Hwf Hc) as (a & Ha & HL).
      rewrite (Hin3 c a Ha), (Hin2 c _ (Hin1 c a Ha)).
      f_equal. symmetry. apply rotate_loop_add; lia.
    + unfold channel. destruct Hwf as (_ & Hlen & _).
      by rewrite (lookup_ge_None_2 (AudioBuffer.data b) c) by lia.
  - intros l Hl. by rewrite Hout3, Hout2, Hout1.
Qed.

Lemma rotate_adds_up_witness :
  (wf store_1234 buffer_1234
   /\ - Z.of_nat (AudioBuffer.length buffer_1234) <= 3
   /\ - Z.of_nat (AudioBuffer.length buffer_1234) <= -2
   /\ - Z.of_nat (AudioBuffer.length buffer_1234) <= 3 + -2
   /\ rotate_exact (Z.of_nat (AudioBuffer.length buffer_1234)) 3
   /\ rotate_exact (Z.of_nat (AudioBuffer.length buffer_1234)) (-2)
   /\ rotate_exact (Z.of_nat (AudioBuffer.length buffer_1234)) (3 + -2))
  /\ exists h1 h2 : heap,
       rotate buffer_1234 3 store_1234 = Returned buffer_1234 h1
       /\ rotate buffer_1234 (-2) h1 = Returned buffer_1234 h2
       /\ rotate buffer_1234 (3 + -2) store_1234 = Returned buffer_1234 h2.
Proof.
  assert (Hwf : wf store_1234 buffer_1234).
  { apply (bool_decide_unpack _). vm_compute. exact I. }
  assert (H1 : - Z.of_nat (AudioBuffer.length buffer_1234) <= 3).
  { simpl. lia. }
  assert (H2 : - Z.of_nat (AudioBuffer.length buffer_1234) <= -2).
  { simpl. lia. }
  assert (H3 : - Z.of_nat (AudioBuffer.length buffer_1234) <= 3 + -2).
  { simpl. lia. }
  assert (E1 : rotate_exact (Z.of_nat (AudioBuffer.length buffer_1234)) 3).
  { unfold rotate_exact, max_safe_integer. simpl. lia. }
  assert (E2 : rotate_exact (Z.of_nat (AudioBuffer.length buffer_1234)) (-2)).
  { unfold rotate_exact, max_safe_integer. simpl. lia. }
  assert (E3 : rotate_exact (Z.of_nat (AudioBuffer.length buffer_1234))
                 (3 + -2)).
  { unfold rotate_exact, max_safe_integer. simpl. lia. }
  split; [by split_and!|].
  exact (rotate_adds_up store_1234 buffer_1234 3 (-2) Hwf H1 H2 H3 E1 E2 E3).
Defined.

(** X20: full turns change nothing: for [m >= -1], rotating a
    well-formed buffer by [m] times its length (by [0], by the length, by
    minus the length, by twice the length, ...) leaves the store as it
    was, as long as that offset keeps the sums of the index formula
    within the safe integers. *)
Theorem rotate_full_turns (h : heap) (b : AudioBuffer.t) (m : Z) :
  wf h b -> -1 <= m ->
  rotate_exact (Z.of_nat (AudioBuffer.length b))
               (m * Z.of_nat (AudioBuffer.length b)) ->
  rotate b (m * Z.of_nat (AudioBuffer.length b)) h = Returned b h.
Proof.
  intros Hwf Hm _.
  destruct (rotate_wf h b (m * Z.of_nat (AudioBuffer.length b)) Hwf)
    as (h' & Hrun & _ & Hin & Hout).
  rewrite Hrun. f_equal. apply (store_eq_by_channels h h' b); [|done].
  intros c. destruct (decide (c < numberOfChannels b)%nat) as [Hc|Hc].
  - destruct (wf_channel_Some h b c Hwf Hc) as (a & Ha & HL).
    rewrite (Hin c a Ha), Ha. f_equal. rewrite <- HL.
    by apply rotate_loop_full_turns.
  - unfold channel. destruct Hwf as (_ & Hlen & _).
    by rewrite (lookup_ge_None_2 (AudioBuffer.data b) c) by lia.
Qed.

Lemma rotate_full_turns_witness :
  (wf store_1234 buffer_1234 /\ -1 <= 3
   /\ rotate_exact (Z.of_nat (AudioBuffer.length buffer_1234))
                   (3 * Z.of_nat (AudioBuffer.length buffer_1234)))
  /\ rotate buffer_1234 (3 * Z.of_nat (AudioBuffer.length buffer_1234))
       store_1234 = Returned buffer_1234 store_1234.
Proof.
  assert (Hwf : wf store_1234 buffer_1234).
  { apply (bool_decide_unpack _). vm_compute. exact I. }
  assert (Hm : -1 <= 3) by lia.
  assert (He : rotate_exact (Z.of_nat (AudioBuffer.length buffer_1234))
                 (3 * Z.of_nat (AudioBuffer.length buffer_1234))).
  { unfold rotate_exact, max_safe_integer. simpl. lia. }
  split; [by split_and!|].
  exact (rotate_full_turns store_1234 buffer_1234 3 Hwf Hm He).
Defined.

Lemma or_zero_idem (v : value) :
  to_number (or_zero (Number (to_number (or_zero v)))) = to_number (or_zero v).
Proof.
  destruct v as [|x]; [done|]. by destruct x as [s|s| |s m e].
Qed.

Lemma shift_left_wf (fuel : nat) (h : heap) (b : AudioBuffer.t) (offset : Z) :
  wf h b -> offset <= 0 ->
  exists h' : heap,
    shift fuel b offset h = Returned b h'
    /\ wf h' b
    /\ (forall c a, channel h b c = Some a ->
                    channel h' b c = Some (shift_left_loop offset a))
    /\ (forall l, l ∉ AudioBuffer.data b -> h' !! l = h !! l).
Proof.
  intros Hwf Ho.
  destruct (shift_left_run fuel h b offset Hwf Ho) as (h' & Hrun & _ & Hin & Hout).
  exists h'. split_and!; [done| |done..].
  apply (wf_in_place b (fun _ a => shift_left_loop offset a) h h'); [done| |done].
  intros c a HL. by rewrite (proj1 (shift_left_loop_spec offset a Ho)).
Qed.

Lemma shift_left_loop_add (o1 o2 : Z) (a : list sample) :
  o1 <= 0 -> o2 <= 0 ->
  shift_left_loop o2 (shift_left_loop o1 a) = shift_left_loop (o1 + o2) a.
Proof.
  intros Ho1 Ho2.
  destruct (shift_left_loop_spec o1 a Ho1) as [Hlen1 Hr1].
  destruct (shift_left_loop_spec o2 (shift_left_loop o1 a) Ho2) as [Hlen2 Hr2].
  destruct (shift_left_loop_spec (o1 + o2) a) as [Hlen3 Hr3]; [lia|].
  apply list_eq_same_length with (length a); [done|lia|].
  intros j x y Hj Hx Hy. rewrite Hr2 in Hx by lia. rewrite Hr3 in Hy by lia.
  replace (Z.of_nat j - (o1 + o2)) with (Z.of_nat j - o2 - o1) in Hy by lia.
  destruct (decide (Z.of_nat j - o2 < Z.of_nat (length a))) as [Hin|Hpast].
  - rewrite <- (Z2Nat.id (Z.of_nat j - o2)) in Hx at 1 by lia.
    rewrite ta_get_nat, Hr1 in Hx by lia.
    rewrite Z2Nat.id in Hx by lia. rewrite or_zero_idem in Hx. congruence.
  - unfold ta_get in Hx, Hy.
    destruct (Z.ltb_spec (Z.of_nat j - o2) 0); [lia|].
    destruct (Z.ltb_spec (Z.of_nat j - o2 - o1) 0); [lia|].
    rewrite lookup_ge_None_2 in Hx by lia.
    rewrite lookup_ge_None_2 in Hy by lia. congruence.
Qed.

(** X22: shifts towards the start add up: for two offsets that are not
    positive, and whose sum (hence each of them) keeps the numbers of the
    loop within the safe integers, shifting by the first and then by the
    second leaves the store that shifting by their sum leaves. *)
Theorem shift_left_adds_up (fuel : nat) (h : heap) (b : AudioBuffer.t)
    (o1 o2 : Z) :
  wf h b -> o1 <= 0 -> o2 <= 0 ->
  shift_exact (Z.of_nat (AudioBuffer.length b)) (o1 + o2) ->
  exists h1 h2 : heap,
    shift fuel b o1 h = Returned b h1
    /\ shift fuel b o2 h1 = Returned b h2
    /\ shift fuel b (o1 + o2) h = Returned b h2.
Proof.
  intros Hwf Ho1 Ho2 _.
  destruct (shift_left_wf fuel h b o1 Hwf Ho1) as (h1 & Hrun1 & Hwf1 & Hin1 & Hout1).
  destruct (shift_left_wf fuel h1 b o2 Hwf1 Ho2)
    as (h2 & Hrun2 & Hwf2 & Hin2 & Hout2).
  destruct (shift_left_wf fuel h b (o1 + o2) Hwf ltac:(lia))
    as (h3 & Hrun3 & Hwf3 & Hin3 & Hout3).
  exists h1, h2. split; [done|]. split; [done|]. rewrite Hrun3. f_equal.
  apply (store_eq_by_channels h2 h3 b).
  - intros c. destruct (decide (c < numberOfChannels b)%nat) as [Hc|Hc].
    + destruct (wf_channel_Some h b c Hwf Hc) as (a & Ha & HL).
      rewrite (Hin3 c a Ha), (Hin2 c _ (Hin1 c a Ha)).
      f_equal. symmetry. by apply shift_left_loop_add.
    + unfold channel. destruct Hwf as (_ & Hlen & _).
      by rewrite (lookup_ge_None_2 (AudioBuffer.data b) c) by lia.
  - intros l Hl. by rewrite Hout3, Hout2, Hout1.
Qed.

Lemma shift_left_adds_up_witness :
  (wf store_1_nan_2 buffer_1_nan_2 /\ -1 <= 0 /\ 0 <= 0
   /\ shift_exact (Z.of_nat (AudioBuffer.length buffer_1_nan_2)) (-1 + 0))
  /\ exists h1 h2 : heap,
       shift 0 buffer_1_nan_2 (-1) store_1_nan_2 = Returned buffer_1_nan_2 h1
       /\ shift 0 buffer_1_nan_2 0 h1 = Returned buffer_1_nan_2 h2
       /\ shift 0 buffer_1_nan_2 (-1 + 0) store_1_nan_2
          = Returned buffer_1_nan_2 h2.
Proof.
  assert (Hwf : wf store_1_nan_2 buffer_1_nan_2).
  { apply (bool_decide_unpack _). vm_compute. exact I. }
  assert (H1 : -1 <= 0) by lia.
  assert (H2 : 0 <= 0) by lia.
  assert (He : shift_exact (Z.of_nat (AudioBuffer.length buffer_1_nan_2))
                 (-1 + 0)).
  { unfold shift_exact, max_safe_integer. simpl. lia. }
  split; [by split_and!|].
  exact (shift_left_adds_up 0 store_1_nan_2 buffer_1_nan_2 (-1) 0
           Hwf H1 H2 He).
Defined.

(** X23: the two ends of the range of offsets.  Shifting a well-formed
    buffer by exactly its length leaves the store as it was: nothing is
    moved and nothing is zeroed.  Shifting it by minus its length, or by
    less as long as the offset keeps the numbers of the loop within the
    safe integers, sets every sample to [0]. *)
Theorem shift_by_the_whole_length (fuel : nat) (h : heap) (b : AudioBuffer.t) :
  wf h b ->
  ((0 < fuel)%nat ->
   shift fuel b (Z.of_nat (AudioBuffer.length b)) h = Returned b h)
  /\ (forall offset, offset <= - Z.of_nat (AudioBuffer.length b) ->
        shift_exact (Z.of_nat (AudioBuffer.length b)) offset ->
        exists h' : heap,
          shift fuel b offset h = Returned b h'
          /\ forall c, (c < numberOfChannels b)%nat ->
               channel h' b c
               = Some (replicate (AudioBuffer.length b) pos_zero)).
Proof.
  intros Hwf. split.
  - intros Hfuel.
    destruct (in_place_wf b (fun _ a => a)
                (fun channel (_ : unit) =>
                   let* ref := getChannelData b channel in
                   let* cData := read ref in
                   if 0 <? Z.of_nat (AudioBuffer.length b) then
                     match shift_right_loop fuel (Z.of_nat (AudioBuffer.length b))
                             (Z.of_nat (length cData)
                              - Z.of_nat (AudioBuffer.length b)) cData with
                     | Some cData' => write ref cData'
                     | None => fun _ => Unfinished
                     end
                   else write ref (shift_left_loop
                                     (Z.of_nat (AudioBuffer.length b)) cData))
                h Hwf) as (h' & Hrun & _ & Hin & Hout).
    { intros c l a h1 Hl Ha HL. read_channel Hl Ha.
      destruct (Z.ltb_spec 0 (Z.of_nat (AudioBuffer.length b))) as [Hpos|Hzero].
      - rewrite HL, Z.sub_diag. destruct fuel as [|fuel]; [lia|]. simpl.
        by eapply write_Some.
      - assert (a = []) as -> by (apply length_zero_iff_nil; lia).
        replace (Z.of_nat (AudioBuffer.length b)) with 0 by lia.
        by eapply write_Some. }
    unfold shift. rewrite (bind_Returned _ _ _ _ _ Hrun). unfold ret. f_equal.
    apply (store_eq_by_channels h h' b); [|done].
    intros c. destruct (decide (c < numberOfChannels b)%nat) as [Hc|Hc].
    + destruct (wf_channel_Some h b c Hwf Hc) as (a & Ha & HL).
      by rewrite (Hin c a Ha), Ha.
    + unfold channel. destruct Hwf as (_ & Hlen & _).
      by rewrite (lookup_ge_None_2 (AudioBuffer.data b) c) by lia.
  - intros offset Ho _.
    destruct (shift_left_wf fuel h b offset Hwf ltac:(lia))
      as (h' & Hrun & _ & Hin & _).
    exists h'. split; [done|]. intros c Hc.
    destruct (wf_channel_Some h b c Hwf Hc) as (a & Ha & HL).
    rewrite (Hin c a Ha). f_equal.
    destruct (shift_left_loop_spec offset a ltac:(lia)) as [Hlen Hspec].
    apply list_eq_same_length with (length a);
      [by rewrite length_replicate|done|].
    intros j x y Hj Hx Hy. rewrite Hspec in Hx by done.
    rewrite lookup_replicate_2 in Hy by lia.
    unfold ta_get in Hx. destruct (Z.ltb_spec (Z.of_nat j - offset) 0); [lia|].
    rewrite lookup_ge_None_2 in Hx by lia. simpl in Hx. congruence.
Qed.

Lemma shift_by_the_whole_length_witness :
  wf store_1234 buffer_1234
  /\ shift 1 buffer_1234 (Z.of_nat (AudioBuffer.length buffer_1234)) store_1234
     = Returned buffer_1234 store_1234.
Proof.
  assert (Hwf : wf store_1234 buffer_1234).
  { apply (bool_decide_unpack _). vm_compute. exact I. }
  split; [exact Hwf|].
  apply (shift_by_the_whole_length 1 store_1234 buffer_1234 Hwf). lia.
Defined.

(** X24: [shift] is lossy: for [0 < k <= length], shifting a well-formed
    buffer by [k] and then by [-k] gives back the first [length - k]
    samples of every channel (as [x || 0]: a [NaN] comes back as [0]) and
    leaves [0] in the last [k] places. *)
Theorem shift_there_and_back (fuel : nat) (h : heap) (b : AudioBuffer.t)
    (k : Z) :
  wf h b -> 0 < k <= Z.of_nat (AudioBuffer.length b) ->
  Z.of_nat (AudioBuffer.length b) - k < Z.of_nat fuel ->
  exists h1 h2 : heap,
    shift fuel b k h = Returned b h1
    /\ shift fuel b (- k) h1 = Returned b h2
    /\ forall c a, channel h b c = Some a ->
         exists a', channel h2 b c = Some a'
           /\ length a' = length a
           /\ (forall (j : nat) (x : sample),
                 Z.of_nat j < Z.of_nat (AudioBuffer.length b) - k ->
                 a !! j = Some x ->
                 a' !! j = Some (to_number (or_zero (Number x))))
           /\ (forall j : nat,
                 Z.of_nat (AudioBuffer.length b) - k <= Z.of_nat j
                 < Z.of_nat (AudioBuffer.length b) ->
                 a' !! j = Some pos_zero).
Proof.
  intros Hwf Hk Hfuel.
  destruct (shift_right_run fuel h b k Hwf Hk Hfuel)
    as (h1 & Hrun1 & _ & Hin1 & Hout1).
  assert (Hwf1 : wf h1 b).
  { pose proof Hwf as (Hpos & Hlen & Hnd & Hall).
    split_and!; [done..|]. apply Forall_lookup. intros c l Hl.
    destruct (wf_channel h b c Hwf) as (l' & a & Hl' & Ha & HL).
    { apply lookup_lt_Some in Hl. lia. }
    simplify_eq.
    destruct (Hin1 c a (channel_Some _ _ _ _ _ Hl Ha)) as (a1 & Ha1 & Hloop).
    destruct (shift_right_loop_spec k a fuel) as (c' & Hc' & Hlen' & _); [lia..|].
    unfold channel in Ha1. rewrite Hl in Ha1. simpl in Ha1.
    rewrite Ha1. simpl. f_equal. congruence. }
  destruct (shift_left_wf fuel h1 b (- k) Hwf1 ltac:(lia))
    as (h2 & Hrun2 & _ & Hin2 & _).
  exists h1, h2. split; [done|]. split; [done|].
  intros c a Ha. destruct (channel_lt h b c a Hwf Ha) as [_ HL].
  destruct (Hin1 c a Ha) as (a1 & Ha1 & Hloop).
  destruct (shift_right_loop_spec k a fuel)
    as (c' & Hc' & Hlen1 & Hlow & Hhigh); [lia..|].
  assert (c' = a1) as -> by congruence.
  destruct (shift_left_loop_spec (- k) a1 ltac:(lia)) as [Hlen2 Hspec].
  exists (shift_left_loop (- k) a1).
  split; [by apply Hin2|]. split; [lia|]. split.
  - intros j x Hj Hx. rewrite Hspec by lia.
    replace (Z.of_nat j - - k) with (Z.of_nat (j + Z.to_nat k)) by lia.
    rewrite ta_get_nat, Hhigh by lia.
    replace (Z.to_nat (Z.of_nat (j + Z.to_nat k) - k)) with j by lia.
    by rewrite Hx.
  - intros j Hj. rewrite Hspec by lia. unfold ta_get.
    destruct (Z.ltb_spec (Z.of_nat j - - k) 0); [lia|].
    rewrite lookup_ge_None_2 by lia. done.
Qed.

Lemma shift_there_and_back_witness :
  (wf store_1234 buffer_1234
   /\ 0 < 1 <= Z.of_nat (AudioBuffer.length buffer_1234)
   /\ Z.of_nat (AudioBuffer.length buffer_1234) - 1 < Z.of_nat 4)
  /\ exists h1 h2 : heap,
       shift 4 buffer_1234 1 store_1234 = Returned buffer_1234 h1
       /\ shift 4 buffer_1234 (- 1) h1 = Returned buffer_1234 h2.
Proof.
  assert (Hwf : wf store_1234 buffer_1234).
  { apply (bool_decide_unpack _). vm_compute. exact I. }
  assert (Hk : 0 < 1 <= Z.of_nat (AudioBuffer.length buffer_1234)).
  { simpl. lia. }
  assert (Hfuel : Z.of_nat (AudioBuffer.length buffer_1234) - 1 < Z.of_nat 4).
  { simpl. lia. }
  split; [by split_and!|].
  destruct (shift_there_and_back 4 store_1234 buffer_1234 1 Hwf Hk Hfuel)
    as (h1 & h2 & Hrun1 & Hrun2 & _).
  by exists h1, h2.
Defined.

(** ** [zero] and [equal] *)

(** The array behind a reference of a buffer. *)
Lemma channel_of_loc (h : heap) (b : AudioBuffer.t) (l : nat) :
  l ∈ AudioBuffer.data b ->
  exists c, AudioBuffer.data b !! c = Some l /\ channel h b c = h !! l.
Proof.
  intros Hl. apply list_elem_of_lookup in Hl as [c Hc].
  exists c. split; [done|]. unfold channel. by rewrite Hc.
Qed.

(** After [zero] on a well-formed buffer, every array of the buffer is
    an array of zeros, and the rest of the store is as before. *)
Lemma zero_run (h : heap) (b : AudioBuffer.t) :
  wf h b ->
  exists h' : heap,
    zero b h = Returned b h'
    /\ (forall l, l ∈ AudioBuffer.data b ->
          h' !! l = Some (replicate (AudioBuffer.length b) pos_zero))
    /\ (forall l, l ∉ AudioBuffer.data b -> h' !! l = h !! l).
Proof.
  intros Hwf.
  destruct (fill_Const_run h b (Number pos_zero) Hwf)
    as (h' & Hrun & _ & Hin & Hout).
  exists h'. split; [done|]. split; [|done].
  intros l Hl. destruct (channel_of_loc h' b l Hl) as (c & Hc & Hch).
  rewrite <- Hch. apply Hin.
  apply lookup_lt_Some in Hc. destruct Hwf as (_ & ? & _). lia.
Qed.

(** X25: silence equals silence: for two well-formed buffers of the same
    length and channel count, which may share arrays, after [zero(a)] and
    [zero(b)] the call [equal(a, b)] returns true. *)
Theorem zero_then_equal (h : heap) (a b : AudioBuffer.t) :
  wf h a -> wf h b ->
  AudioBuffer.length a = AudioBuffer.length b ->
  numberOfChannels a = numberOfChannels b ->
  exists h' : heap,
    (let* a' := zero a in
     let* b' := zero b in
     equal [a'; b']) h = Returned true h'.
Proof.
  intros Hwfa Hwfb HL Hnc.
  destruct (zero_run h a Hwfa) as (h1 & Hrun1 & Hin1 & Hout1).
  assert (Hwfb1 : wf h1 b).
  { pose proof Hwfb as (Hpos & Hlen & Hnd & Hall).
    split_and!; [done..|]. apply Forall_lookup. intros c l Hl.
    destruct (decide (l ∈ AudioBuffer.data a)) as [Hla|Hla].
    - rewrite (Hin1 l Hla). simpl. by rewrite length_replicate, HL.
    - rewrite (Hout1 l Hla). rewrite Forall_lookup in Hall. by apply (Hall c). }
  destruct (zero_run h1 b Hwfb1) as (h2 & Hrun2 & Hin2 & Hout2).
  assert (Hzero : forall x, x = a \/ x = b ->
            forall l, l ∈ AudioBuffer.data x ->
              h2 !! l = Some (replicate (AudioBuffer.length b) pos_zero)).
  { intros x Hx l Hl.
    destruct (decide (l ∈ AudioBuffer.data b)) as [Hlb|Hlb]; [by apply Hin2|].
    destruct Hx as [-> | ->]; [|done].
    rewrite (Hout2 l Hlb), (Hin1 l Hl). by rewrite HL. }
  assert (Hwf2 : forall x, x = a \/ x = b -> wf h x -> wf h2 x).
  { intros x Hx (Hpos & Hlen & Hnd & Hall).
    split_and!; [done..|]. apply Forall_lookup. intros c l Hl.
    rewrite (Hzero x Hx l) by (apply list_elem_of_lookup; eauto).
    simpl. rewrite length_replicate. by destruct Hx as [-> | ->]; rewrite ?HL. }
  exists h2.
  rewrite (bind_Returned _ _ _ _ _ Hrun1), (bind_Returned _ _ _ _ _ Hrun2).
  simpl. apply equal2_true_iff; [by apply Hwf2; auto..|].
  split; [done|]. split; [done|].
  intros c i xs ys x y Hxs Hys Hx Hy. unfold channel in Hxs, Hys.
  destruct (AudioBuffer.data a !! c) as [la|] eqn:Hla; [|done].
  destruct (AudioBuffer.data b !! c) as [lb|] eqn:Hlb; [|done].
  simpl in Hxs, Hys.
  rewrite (Hzero a (or_introl eq_refl) la) in Hxs
    by (apply list_elem_of_lookup; eauto).
  rewrite (Hzero b (or_intror eq_refl) lb) in Hys
    by (apply list_elem_of_lookup; eauto).
  injection Hxs as <-. injection Hys as <-.
  apply lookup_replicate in Hx as [-> _]. apply lookup_replicate in Hy as [-> _].
  done.
Qed.

Lemma zero_then_equal_witness :
  (wf store_12_345 buffer_12 /\ wf store_12_345 buffer_12
   /\ AudioBuffer.length buffer_12 = AudioBuffer.length buffer_12
   /\ numberOfChannels buffer_12 = numberOfChannels buffer_12)
  /\ exists h' : heap,
       (let* a' := zero buffer_12 in
        let* b' := zero buffer_12 in
        equal [a'; b']) store_12_345 = Returned true h'.
Proof.
  assert (Hwf : wf store_12_345 buffer_12).
  { apply (bool_decide_unpack _). vm_compute. exact I. }
  split; [by split_and!|].
  exact (zero_then_equal store_12_345 buffer_12 buffer_12 Hwf Hwf
           eq_refl eq_refl).
Defined.
